(** * Free dagger monoidal category of [moncat.py]: a shallow embedding

    The development follows src/moncat.py: types ([Ty]), layers ([Layer]),
    diagrams ([Diagram]) with sequential and parallel composition, dagger,
    the interchanger, normalisation, foliation and monoidal functors.

    Python integers are [Z]; Python lists and tuples are [list]; a call
    that may raise returns a [result].  The arrows of [discopy.cat] that
    the module builds on are modelled in the section on the category
    substrate. *)

From Stdlib Require Import String ZArith List Bool Lia Permutation.
Import ListNotations.
Open Scope string_scope.
Open Scope list_scope.
Open Scope Z_scope.

(* ================================================================== *)
(** * Python lists: indexing and slicing *)
(* ================================================================== *)

(** Clamp of a slice bound to [0..n], a negative bound counting from the
    end, as CPython does for a slice of positive step. *)
Definition py_clip (n : nat) (k : Z) : nat :=
  if k <? 0 then Z.to_nat (Z.max 0 (Z.of_nat n + k))
  else Z.to_nat (Z.min k (Z.of_nat n)).

(** [l[:k]] *)
Definition slice_to {A} (l : list A) (k : Z) : list A :=
  firstn (py_clip (length l) k) l.

(** [l[k:]] *)
Definition slice_from {A} (l : list A) (k : Z) : list A :=
  skipn (py_clip (length l) k) l.

(** [l[a:b]] with [a] or [b] possibly omitted. *)
Definition py_slice {A} (l : list A) (start stop : option Z) : list A :=
  let n := length l in
  let lo := match start with None => 0%nat | Some s => py_clip n s end in
  let hi := match stop with None => n | Some s => py_clip n s end in
  firstn (hi - lo) (skipn lo l).

(** A slice object [slice(start, stop, step)]. *)
Record Slice : Type := mkSlice {
  s_start : option Z;
  s_stop : option Z;
  s_step : option Z
}.

(** Bound adjustment of CPython's [PySlice_AdjustIndices] for one bound:
    [lowest] and [highest] are [0], [n] for a positive step and [-1],
    [n - 1] for a negative one. *)
Definition adjust_bound (n lowest highest : Z) (k : Z) : Z :=
  if k <? 0 then (if n + k <? lowest then lowest else n + k)
  else (if highest <? k then highest else k).

(** The elements [l[start + i * step]] for [i < count]. *)
Fixpoint slice_elems {A} (l : list A) (start step : Z) (count : nat) : list A :=
  match count with
  | O => []
  | S c =>
      match nth_error l (Z.to_nat start) with
      | Some x => x :: slice_elems l (start + step) step c
      | None => []
      end
  end.

(* ================================================================== *)
(** * Objects, types, generators and errors *)
(* ================================================================== *)

Definition Ob : Type := string.

Definition Ty : Type := list Ob.

(** A generator, [moncat.Box]: name, domain, codomain, payload, dagger flag. *)
Record Box : Type := mkBox {
  name : string;
  dom : Ty;
  cod : Ty;
  data : option string;
  _dagger : bool
}.

(** The exceptions the module raises.  [InterchangerError] carries the
    two boxes of its message; it is a subclass of [AxiomError], which a
    handler for [InterchangerError] alone does not catch.
    [OverflowError] is the interpreter's, for an integer that a built-in
    operation cannot take as a machine word. *)
Inductive Error : Type :=
| TypeError
| ValueError
| IndexError
| KeyError
| AxiomError
| InterchangerError (box0 box1 : Box)
| NotImplementedError
| OverflowError.

Inductive result (A : Type) : Type :=
| Ok (a : A)
| Raise (e : Error).

Arguments Ok {A} a.
Arguments Raise {A} e.

Definition bind {A B} (m : result A) (f : A -> result B) : result B :=
  match m with
  | Ok a => f a
  | Raise e => Raise e
  end.

Notation "x <- m ;; f" := (bind m (fun x => f))
  (at level 61, m at next level, right associativity).

(** [l[i]] for an integer [i]: a negative index counts from the end, an
    index out of range raises [IndexError]. *)
Definition py_index {A} (l : list A) (i : Z) : result A :=
  let n := Z.of_nat (length l) in
  let k := if i <? 0 then n + i else i in
  if (k <? 0) || (n <=? k) then Raise IndexError
  else match nth_error l (Z.to_nat k) with
       | Some x => Ok x
       | None => Raise IndexError
       end.

(** [l[key]] for a slice object [key], with any step. *)
Definition py_getslice {A} (l : list A) (key : Slice) : result (list A) :=
  let n := Z.of_nat (length l) in
  let step := match s_step key with None => 1 | Some s => s end in
  if step =? 0 then Raise ValueError
  else if 0 <? step then
    let start := match s_start key with
                 | None => 0 | Some s => adjust_bound n 0 n s end in
    let stop := match s_stop key with
                | None => n | Some s => adjust_bound n 0 n s end in
    let count := if start <? stop then (stop - start - 1) / step + 1 else 0 in
    Ok (slice_elems l start step (Z.to_nat count))
  else
    let start := match s_start key with
                 | None => n - 1 | Some s => adjust_bound n (-1) (n - 1) s end in
    let stop := match s_stop key with
                | None => -1 | Some s => adjust_bound n (-1) (n - 1) s end in
    let count := if stop <? start then (start - stop - 1) / (- step) + 1 else 0 in
    Ok (slice_elems l start step (Z.to_nat count)).

(* ================================================================== *)
(** * Equality of objects, types and boxes *)
(* ================================================================== *)

Fixpoint list_eqb {A} (eqb : A -> A -> bool) (l1 l2 : list A) : bool :=
  match l1, l2 with
  | [], [] => true
  | x :: l1', y :: l2' => eqb x y && list_eqb eqb l1' l2'
  | _, _ => false
  end.

(** [Ob.__eq__]: by name. *)
Definition Ob_eq (x y : Ob) : bool := String.eqb x y.

(** [Ty.__eq__]: the lists of objects are equal. *)
Definition Ty_eq (s t : Ty) : bool := list_eqb Ob_eq s t.

Definition option_eqb {A} (eqb : A -> A -> bool) (x y : option A) : bool :=
  match x, y with
  | None, None => true
  | Some a, Some b => eqb a b
  | _, _ => false
  end.

(** Modelled from the spec: [cat.Box.__eq__] is not under src/; generators
    are immutable values of a name, a domain, a codomain, a payload and a
    dagger flag, and two of them are equal when these agree. *)
Definition Box_eq (f g : Box) : bool :=
  String.eqb (name f) (name g) && Ty_eq (dom f) (dom g)
  && Ty_eq (cod f) (cod g) && option_eqb String.eqb (data f) (data g)
  && Bool.eqb (_dagger f) (_dagger g).

(** Modelled from the spec: [cat.Box.dagger] is not under src/; reversing
    a generator swaps domain and codomain and toggles the flag. *)
Definition Box_dagger (f : Box) : Box :=
  mkBox (name f) (cod f) (dom f) (data f) (negb (_dagger f)).

(* ================================================================== *)
(** * Ty *)
(* ================================================================== *)

(** [Ty.tensor], also [@] and [+] on types. *)
Definition Ty_tensor (s t : Ty) : Ty := s ++ t.

(** [len(t)] as a Python integer. *)
Definition len {A} (l : list A) : Z := Z.of_nat (length l).

(** A Python value given as an index or as an exponent. *)
Inductive PyKey : Type :=
| KInt (i : Z)
| KSlice (s : Slice)
| KOther.

(** What [Ty.__getitem__] returns: an object or a type. *)
Inductive TyItem : Type :=
| ItemOb (x : Ob)
| ItemTy (t : Ty).

(** [Ty.__getitem__]: a slice gives [Ty( *self.objects[key])], any other
    key gives [self.objects[key]]; a list index that is neither an integer
    nor a slice raises [TypeError]. *)
Definition Ty_getitem (t : Ty) (key : PyKey) : result TyItem :=
  match key with
  | KSlice s => objs <- py_getslice t s ;; Ok (ItemTy objs)
  | KInt i => x <- py_index t i ;; Ok (ItemOb x)
  | KOther => Raise TypeError
  end.

(** [sum(xs, unit)] over types: a left fold of [+]. *)
Definition Ty_sum (xs : list Ty) (unit : Ty) : Ty :=
  fold_left Ty_tensor xs unit.

(** [sys.maxsize], the greatest [Py_ssize_t], of a 64-bit build of
    CPython: [2 ** 63 - 1]. *)
Definition PY_SSIZE_T_MAX : Z := 9223372036854775807.

(** [n * (x, )].  The repetition of a tuple takes its count as a
    [Py_ssize_t]: an integer outside [-PY_SSIZE_T_MAX - 1 .. PY_SSIZE_T_MAX]
    raises [OverflowError], whatever its sign; a count in the word gives
    the tuple repeated, empty when [n <= 0].  Room for the tuple is taken
    to be there: the [MemoryError] of an interpreter that cannot allocate
    it is, like the depth of its stack, no part of the embedding. *)
Definition tuple_repeat {A} (n : Z) (x : A) : result (list A) :=
  if (n <? - PY_SSIZE_T_MAX - 1) || (PY_SSIZE_T_MAX <? n)
  then Raise OverflowError
  else Ok (repeat x (Z.to_nat n)).

(** [Ty.__pow__]: [TypeError] for an exponent that is not an integer,
    then [sum(n_times * (self, ), type(self)())]. *)
Definition Ty_pow (t : Ty) (n_times : PyKey) : result Ty :=
  match n_times with
  | KInt n => xs <- tuple_repeat n t ;; Ok (Ty_sum xs [])
  | _ => Raise TypeError
  end.

(** [range(n)] *)
Definition range (n : Z) : list Z := map Z.of_nat (seq 0 (Z.to_nat n)).

(* ================================================================== *)
(** * Layer *)
(* ================================================================== *)

(** [Layer(left, box, right)]: a box with wires to its left and right. *)
Record Layer : Type := mkLayer {
  l_left : Ty;
  l_box : Box;
  l_right : Ty
}.

(** Domain and codomain that [Layer.__init__] hands to [cat.Box]:
    [left @ box.dom @ right] and [left @ box.cod @ right]. *)
Definition Layer_dom (l : Layer) : Ty :=
  Ty_tensor (Ty_tensor (l_left l) (dom (l_box l))) (l_right l).

Definition Layer_cod (l : Layer) : Ty :=
  Ty_tensor (Ty_tensor (l_left l) (cod (l_box l))) (l_right l).

(** [Layer.__getitem__] at [slice(None, None, -1)]. *)
Definition Layer_dagger (l : Layer) : Layer :=
  mkLayer (l_left l) (Box_dagger (l_box l)) (l_right l).

(* ================================================================== *)
(** * The category substrate: arrows whose boxes are layers *)
(* ================================================================== *)

(** Modelled from the spec: [discopy.cat] is not under src/.  A
    [cat.Diagram] is an immutable composable arrow: a domain, a codomain
    and the list of its boxes, here the layers of a diagram. *)
Record Arrow : Type := mkArrow {
  a_dom : Ty;
  a_cod : Ty;
  a_boxes : list Layer
}.

(** Modelled from the spec: [cat.Id(x)], the identity arrow. *)
Definition cat_Id (x : Ty) : Arrow := mkArrow x x [].

(** A layer seen as an arrow with itself as only box. *)
Definition Layer_arrow (l : Layer) : Arrow :=
  mkArrow (Layer_dom l) (Layer_cod l) [l].

(** Modelled from the spec: [cat.Diagram.then], written [>>]: sequential
    composition checks that codomain and domain agree and fails with a
    composition-mismatch error ([AxiomError]) otherwise. *)
Definition cat_then (f g : Arrow) : result Arrow :=
  if Ty_eq (a_cod f) (a_dom g)
  then Ok (mkArrow (a_dom f) (a_cod g) (a_boxes f ++ a_boxes g))
  else Raise AxiomError.

(** [f >> l] for a layer [l]. *)
Definition then_layer (f : Arrow) (l : Layer) : result Arrow :=
  cat_then f (Layer_arrow l).

(** Modelled from the spec: [cat.Diagram.__getitem__] at a slice.  The
    reversal [[::-1]] swaps domain and codomain and daggers the reversed
    boxes; a slice of step one takes domain and codomain from its boundary
    boxes, an empty slice being the identity at the place it is cut; any
    other step is an [IndexError]. *)
Definition cat_getslice (f : Arrow) (key : Slice) : result Arrow :=
  match s_step key with
  | Some (-1) =>
      bs <- py_getslice (a_boxes f) key ;;
      Ok (mkArrow (a_cod f) (a_dom f) (map Layer_dagger bs))
  | _ =>
      let step := match s_step key with
                  | None => 1 | Some s => if s =? 0 then 1 else s end in
      if negb (step =? 1) then Raise IndexError
      else
        bs <- py_getslice (a_boxes f) key ;;
        match bs with
        | [] =>
            let start := match s_start key with None => 0 | Some s => s end in
            if len (a_boxes f) <=? start then Ok (cat_Id (a_cod f))
            else if start <=? - len (a_boxes f) then Ok (cat_Id (a_dom f))
            else l <- py_index (a_boxes f) start ;; Ok (cat_Id (Layer_dom l))
        | b :: _ =>
            Ok (mkArrow (Layer_dom b) (Layer_cod (last bs b)) bs)
        end
  end.

(** [f >> l0 >> l1 >> ...]: the layers composed one by one onto [f]. *)
Fixpoint compose_layers (f : Arrow) (ls : list Layer) : result Arrow :=
  match ls with
  | [] => Ok f
  | l :: rest => g <- then_layer f l ;; compose_layers g rest
  end.

(* ================================================================== *)
(** * Diagram *)
(* ================================================================== *)

Record Diagram : Type := mkDiagram {
  d_dom : Ty;
  d_cod : Ty;
  boxes : list Box;
  offsets : list Z;
  layers : Arrow
}.

(** The loop of [Diagram.__init__] that computes the layers from boxes
    and offsets: [layers] is the arrow built so far. *)
Fixpoint scan_layers (dom0 : Ty) (ls : Arrow) (bo : list (Box * Z))
  : result Arrow :=
  match bo with
  | [] => Ok ls
  | (box, off) :: rest =>
      let scan := match a_boxes ls with [] => dom0 | _ => a_cod ls end in
      let left := slice_to scan off in
      let right := slice_from scan (off + len (dom box)) in
      ls' <- then_layer ls (mkLayer left box right) ;;
      scan_layers dom0 ls' rest
  end.

(** [Diagram.__init__].  The arguments are typed, so the [TypeError]s of
    the [isinstance] tests cannot occur. *)
Definition Diagram_init (dom0 cod0 : Ty) (bs : list Box) (offs : list Z)
    (given : option Arrow) : result Diagram :=
  if negb (length bs =? length offs)%nat then Raise ValueError
  else
    ls <- match given with
          | Some ls => Ok ls
          | None =>
              ls <- scan_layers dom0 (cat_Id dom0) (combine bs offs) ;;
              cat_then ls (cat_Id cod0)
          end ;;
    Ok (mkDiagram dom0 cod0 bs offs ls).

(** [Id(x)]: [Diagram(x, x, [], [], layers=cat.Id(x))]. *)
Definition Id (x : Ty) : Diagram := mkDiagram x x [] [] (cat_Id x).

(** A [Box] as the diagram [Box.__init__] makes of it:
    [boxes=[self]], [offsets=[0]], one layer with no wires around. *)
Definition Box_diagram (f : Box) : Diagram :=
  mkDiagram (dom f) (cod f) [f] [0]
            (mkArrow (dom f) (cod f) [mkLayer [] f []]).

(** [Diagram.then], written [>>]. *)
Definition then_ (self other : Diagram) : result Diagram :=
  ls <- cat_then (layers self) (layers other) ;;
  Diagram_init (d_dom self) (d_cod other)
               (boxes self ++ boxes other)
               (offsets self ++ offsets other) (Some ls).

(** [Diagram.tensor], written [@]. *)
Definition tensor (self other : Diagram) : result Diagram :=
  let dom0 := Ty_tensor (d_dom self) (d_dom other) in
  let cod0 := Ty_tensor (d_cod self) (d_cod other) in
  let bs := boxes self ++ boxes other in
  let offs := offsets self
              ++ map (fun n => n + len (d_cod self)) (offsets other) in
  ls <- compose_layers (cat_Id dom0)
          (map (fun l => mkLayer (l_left l) (l_box l)
                                 (Ty_tensor (l_right l) (d_dom other)))
               (a_boxes (layers self))) ;;
  ls <- compose_layers ls
          (map (fun l => mkLayer (Ty_tensor (d_cod self) (l_left l))
                                 (l_box l) (l_right l))
               (a_boxes (layers other))) ;;
  Diagram_init dom0 cod0 bs offs (Some ls).

(** [Diagram.__eq__] *)
Definition Diagram_eq (self other : Diagram) : bool :=
  Ty_eq (d_dom self) (d_dom other) && Ty_eq (d_cod self) (d_cod other)
  && list_eqb Box_eq (boxes self) (boxes other)
  && list_eqb Z.eqb (offsets self) (offsets other).

(** [Diagram.__getitem__] at a slice. *)
Definition Diagram_getslice (self : Diagram) (key : Slice) : result Diagram :=
  ls <- cat_getslice (layers self) key ;;
  Diagram_init (a_dom ls) (a_cod ls)
               (map l_box (a_boxes ls))
               (map (fun l => len (l_left l)) (a_boxes ls)) (Some ls).

(** [diagram[::-1]] *)
Definition dagger (self : Diagram) : result Diagram :=
  Diagram_getslice self (mkSlice None None (Some (-1))).

(** [len(diagram)]: the number of boxes. *)
Definition Diagram_len (self : Diagram) : Z := len (boxes self).

(* ================================================================== *)
(** * Interchange *)
(* ================================================================== *)

(** The rewrite of the branch "box0 left of box1": new offsets and new
    layers [(off0, off1, layer0, layer1)]. *)
Definition box0_left_of_box1 (off0 off1 : Z) (l0 l1 : Layer)
  : Z * Z * Layer * Layer :=
  let left0 := l_left l0 in let box0 := l_box l0 in
  let left1 := l_left l1 in let box1 := l_box l1 in
  let right1 := l_right l1 in
  let off1' := off1 - len (cod box0) + len (dom box0) in
  let middle := slice_from left1 (len (Ty_tensor left0 (cod box0))) in
  let layer0 :=
    mkLayer left0 box0 (Ty_tensor (Ty_tensor middle (cod box1)) right1) in
  let layer1 :=
    mkLayer (Ty_tensor (Ty_tensor left0 (dom box0)) middle) box1 right1 in
  (off0, off1', layer0, layer1).

(** The rewrite of the branch "box0 right of box1". *)
Definition box0_right_of_box1 (off0 off1 : Z) (l0 l1 : Layer)
  : Z * Z * Layer * Layer :=
  let left0 := l_left l0 in let box0 := l_box l0 in
  let right0 := l_right l0 in
  let left1 := l_left l1 in let box1 := l_box l1 in
  let off0' := off0 - len (dom box1) + len (cod box1) in
  let middle := slice_from left0 (len (Ty_tensor left1 (dom box1))) in
  let layer0 :=
    mkLayer (Ty_tensor (Ty_tensor left1 (cod box1)) middle) box0 right0 in
  let layer1 :=
    mkLayer left1 box1 (Ty_tensor (Ty_tensor middle (dom box0)) right0) in
  (off0', off1, layer0, layer1).

(** The three-way test of a unit interchange: with [left] set, "box0 left
    of box1" is tried first; then "box0 right of box1", then "box0 left
    of box1"; otherwise the boxes do not commute. *)
Definition interchange_move (left : bool) (off0 off1 : Z) (l0 l1 : Layer)
  : result (Z * Z * Layer * Layer) :=
  let box0 := l_box l0 in
  let box1 := l_box l1 in
  if left && (off0 + len (cod box0) <=? off1)
  then Ok (box0_left_of_box1 off0 off1 l0 l1)
  else if off1 + len (dom box1) <=? off0
  then Ok (box0_right_of_box1 off0 off1 l0 l1)
  else if off0 + len (cod box0) <=? off1
  then Ok (box0_left_of_box1 off0 off1 l0 l1)
  else Raise (InterchangerError box0 box1).

(** The body of [Diagram.interchange]; [rec] stands for the method itself
    at its recursive calls. *)
Definition interchange_body
    (rec : Diagram -> Z -> Z -> bool -> result Diagram)
    (self : Diagram) (i j : Z) (left : bool) : result Diagram :=
  let n := Diagram_len self in
  if negb ((0 <=? i) && (i <? n)) || negb ((0 <=? j) && (j <? n))
  then Raise IndexError
  else if i =? j then Ok self
  else if j <? i - 1 then
    fold_left (fun res k => r <- res ;; rec r (i - k) (i - k - 1) left)
              (range (i - j)) (Ok self)
  else if i + 1 <? j then
    fold_left (fun res k => r <- res ;; rec r (i + k) (i + k + 1) left)
              (range (j - i)) (Ok self)
  else
    let '(i, j) := if j <? i then (j, i) else (i, j) in
    off0 <- py_index (offsets self) i ;;
    off1 <- py_index (offsets self) j ;;
    l0 <- py_index (a_boxes (layers self)) i ;;
    l1 <- py_index (a_boxes (layers self)) j ;;
    let box0 := l_box l0 in
    let box1 := l_box l1 in
    moved <- interchange_move left off0 off1 l0 l1 ;;
    let '(off0, off1, layer0, layer1) := moved in
    let bs := slice_to (boxes self) i ++ [box1; box0]
              ++ slice_from (boxes self) (i + 2) in
    let offs := slice_to (offsets self) i ++ [off1; off0]
                ++ slice_from (offsets self) (i + 2) in
    before <- cat_getslice (layers self) (mkSlice None (Some i) None) ;;
    ls <- then_layer before layer1 ;;
    ls <- then_layer ls layer0 ;;
    after <- cat_getslice (layers self) (mkSlice (Some (i + 2)) None None) ;;
    ls <- cat_then ls after ;;
    Diagram_init (d_dom self) (d_cod self) bs offs (Some ls).

(** A recursive call of [interchange] is always on adjacent indices, where
    the method does not call itself again: the recursion is two deep. *)
Definition interchange_adjacent : Diagram -> Z -> Z -> bool -> result Diagram :=
  interchange_body (fun _ _ _ _ => Raise IndexError).

(** [Diagram.interchange] *)
Definition interchange : Diagram -> Z -> Z -> bool -> result Diagram :=
  interchange_body interchange_adjacent.

(** The diagram [d] whose layers are [pre ++ l0 :: l1 :: post], with the
    pair [l0], [l1] replaced by the outcome [moved] of a unit interchange:
    boxes, offsets and layers spliced as [interchange] does. *)
Definition spliced (d : Diagram) (pre post : list Layer) (l0 l1 : Layer)
    (moved : Z * Z * Layer * Layer) : Diagram :=
  let '(off0, off1, layer0, layer1) := moved in
  mkDiagram (d_dom d) (d_cod d)
    (map l_box pre ++ [l_box l1; l_box l0] ++ map l_box post)
    (map (fun l => len (l_left l)) pre ++ [off1; off0]
     ++ map (fun l => len (l_left l)) post)
    (mkArrow (d_dom d) (d_cod d) (pre ++ [layer1; layer0] ++ post)).

(** The first [m] unit interchanges that [interchange(i, j)] makes for
    [j > i + 1], from the diagram [d] on. *)
Definition swaps_up (left : bool) (d : Diagram) (i : Z) (m : nat)
  : result Diagram :=
  fold_left (fun res k => r <- res ;; interchange r (i + k) (i + k + 1) left)
            (range (Z.of_nat m)) (Ok d).

(** The first [m] unit interchanges that [interchange(i, j)] makes for
    [j < i - 1]. *)
Definition swaps_down (left : bool) (d : Diagram) (i : Z) (m : nat)
  : result Diagram :=
  fold_left (fun res k => r <- res ;; interchange r (i - k) (i - k - 1) left)
            (range (Z.of_nat m)) (Ok d).

(** The list [l] with its element at position [i] taken out and put back
    at position [j]; the other elements keep their order. *)
Definition list_move {A} (l : list A) (i j : nat) : list A :=
  match nth_error l i with
  | Some x =>
      let rest := firstn i l ++ skipn (S i) l in
      firstn j rest ++ x :: skipn j rest
  | None => l
  end.

(** The list [l] with the elements at positions [i] and [j] exchanged. *)
Definition list_swap {A} (l : list A) (i j : nat) : list A :=
  match nth_error l i, nth_error l j with
  | Some x, Some y =>
      map (fun k => if (k =? i)%nat then y else if (k =? j)%nat then x
                    else nth k l x)
          (seq 0 (length l))
  | _, _ => l
  end.

(* ================================================================== *)
(** * Normalisation *)
(* ================================================================== *)

(** One advance of a generator: a yielded diagram with the state to
    resume from, the end of the iteration, or an exception. *)
Inductive gen_step (S : Type) : Type :=
| Yield (d : Diagram) (s : S)
| Stop
| Throw (e : Error).

Arguments Yield {S} d s.
Arguments Stop {S}.
Arguments Throw {S} e.

(** The state of a suspended [normalize]: the current diagram, the
    indices the [for] loop has still to visit in this pass, and whether
    the pass has made no move so far. *)
Record NormState : Type := mkNorm {
  ns_diagram : Diagram;
  ns_rest : list Z;
  ns_no_more_moves : bool
}.

(** The test of [normalize] at index [i]. *)
Definition normalize_test (left : bool) (diagram : Diagram) (i : Z)
  : result bool :=
  box0 <- py_index (boxes diagram) i ;;
  box1 <- py_index (boxes diagram) (i + 1) ;;
  off0 <- py_index (offsets diagram) i ;;
  off1 <- py_index (offsets diagram) (i + 1) ;;
  Ok (left && (off0 + len (cod box0) <=? off1)
      || negb left && (off1 + len (dom box1) <=? off0)).

(** The [for] loop of [normalize] from the indices [rest] on, up to its
    next [yield]; [None] when the pass ends without one. *)
Fixpoint normalize_scan (left : bool) (diagram : Diagram) (rest : list Z)
  : option (gen_step NormState) :=
  match rest with
  | [] => None
  | i :: rest' =>
      match normalize_test left diagram i with
      | Raise e => Some (Throw e)
      | Ok true =>
          match interchange diagram i (i + 1) left with
          | Ok d => Some (Yield d (mkNorm d rest' false))
          | Raise e => Some (Throw e)
          end
      | Ok false => normalize_scan left diagram rest'
      end
  end.

(** The state of [normalize] when the generator is created. *)
Definition normalize_start (self : Diagram) : NormState :=
  mkNorm self (range (Diagram_len self - 1)) true.

(** [next] on the generator of [Diagram.normalize]. *)
Definition normalize_next (left : bool) (st : NormState)
  : gen_step NormState :=
  match normalize_scan left (ns_diagram st) (ns_rest st) with
  | Some step => step
  | None =>
      if ns_no_more_moves st then Stop
      else
        match normalize_scan left (ns_diagram st)
                (range (Diagram_len (ns_diagram st) - 1)) with
        | Some step => step
        | None => Stop
        end
  end.

(** [_diagram in cache]: a diagram equal to it is in the set. *)
Definition in_cache (d : Diagram) (cache : list Diagram) : bool :=
  existsb (Diagram_eq d) cache.

(** The loop of [Diagram.normal_form]; it runs as long as the generator
    yields, [fuel] bounds the number of its iterations and [None] is a
    loop that has not ended within it. *)
Fixpoint normal_form_loop (fuel : nat) (left : bool) (st : NormState)
    (diagram : Diagram) (cache : list Diagram) : option (result Diagram) :=
  match fuel with
  | O => None
  | S fuel' =>
      match normalize_next left st with
      | Stop => Some (Ok diagram)
      | Throw e => Some (Raise e)
      | Yield d st' =>
          if in_cache d cache then Some (Raise NotImplementedError)
          else normal_form_loop fuel' left st' d (d :: cache)
      end
  end.

(** [Diagram.normal_form] with the default [normalize]. *)
Definition normal_form (fuel : nat) (left : bool) (self : Diagram)
  : option (result Diagram) :=
  normal_form_loop fuel left (normalize_start self) self [].

(** The [n]-th diagram that [normalize] yields, from state [st]. *)
Fixpoint normalize_nth (left : bool) (st : NormState) (n : nat)
  : option Diagram :=
  match normalize_next left st with
  | Yield d st' =>
      match n with
      | O => Some d
      | S n' => normalize_nth left st' n'
      end
  | _ => None
  end.

(** The state of [normalize] after [n] yields. *)
Fixpoint normalize_after (left : bool) (st : NormState) (n : nat)
  : option NormState :=
  match n with
  | O => Some st
  | S n' =>
      match normalize_next left st with
      | Yield _ st' => normalize_after left st' n'
      | _ => None
      end
  end.

(** A full pass of [normalize] over [d] makes no move. *)
Definition no_more_moves (left : bool) (d : Diagram) : Prop :=
  normalize_scan left d (range (Diagram_len d - 1)) = None.

(** What holds of every state a generator of [normalize] goes through:
    as long as the pass has made no move, the indices already visited
    offer none on the current diagram. *)
Definition pass_so_far (left : bool) (st : NormState) : Prop :=
  ns_no_more_moves st = true ->
  exists visited,
    range (Diagram_len (ns_diagram st) - 1) = visited ++ ns_rest st
    /\ normalize_scan left (ns_diagram st) visited = None.

(* ================================================================== *)
(** * Foliation *)
(* ================================================================== *)

(** [is_right_of] of [foliate]: [Some false], [Some true] or [None]. *)
Definition is_right_of (last : Z) (diagram : Diagram) : result (option bool) :=
  off0 <- py_index (offsets diagram) last ;;
  off1 <- py_index (offsets diagram) (last + 1) ;;
  box0 <- py_index (boxes diagram) last ;;
  box1 <- py_index (boxes diagram) (last + 1) ;;
  if off1 + len (dom box1) <=? off0 then Ok (Some false)
  else if off0 + len (cod box0) <=? off1 then Ok (Some true)
  else Ok None.

(** The handler [except InterchangerError: return None]. *)
Definition except_InterchangerError (m : result (option Diagram))
  : result (option Diagram) :=
  match m with
  | Raise (InterchangerError _ _) => Ok None
  | other => other
  end.

(** [move_in_slice] of [foliate].  It is called with [first <= last]
    and recurses on [last - 1] down to [first]: [last] is given as
    [first + n], and [last == first] is [n = 0]. *)
Fixpoint move_in_slice (first : Z) (n : nat) (k : Z) (diagram : Diagram)
  : result (option Diagram) :=
  let last := first + Z.of_nat n in
  except_InterchangerError (
    res <- (if negb (k =? last + 1)
            then interchange diagram k (last + 1) false
            else Ok diagram) ;;
    side <- is_right_of last res ;;
    match side with
    | None => Ok None
    | Some true => Ok (Some res)
    | Some false =>
        res <- interchange res (last + 1) last false ;;
        match n with
        | O => Ok (Some res)
        | S n' => move_in_slice first n' last res
        end
    end).

(** The [for] loop of [foliate] over the indices [ks], the slice being
    [start .. start + n]: the final [n], diagram and yields. *)
Fixpoint foliate_for (start : Z) (ks : list Z) (n : nat)
    (diagram : Diagram) (yields : list Diagram)
  : result (nat * Diagram * list Diagram) :=
  match ks with
  | [] => Ok (n, diagram, yields)
  | k :: ks' =>
      moved <- move_in_slice start n k diagram ;;
      match moved with
      | None => foliate_for start ks' n diagram yields
      | Some d => foliate_for start ks' (S n) d (yields ++ [d])
      end
  end.

(** [range(a, b)] *)
Definition range2 (a b : Z) : list Z := map (fun k => a + k) (range (b - a)).

(** The [while] loop of [foliate]: the diagrams yielded and the slices.
    [fuel] bounds its iterations, [None] is a loop not ended within it. *)
Fixpoint foliate_while (fuel : nat) (start : Z) (diagram : Diagram)
    (slices yields : list Diagram)
  : option (result (list Diagram * list Diagram)) :=
  if start <? Diagram_len diagram then
    match fuel with
    | O => None
    | S fuel' =>
        match foliate_for start (range2 (start + 1) (Diagram_len diagram))
                          O diagram yields with
        | Raise e => Some (Raise e)
        | Ok (n, d, ys) =>
            let last := start + Z.of_nat n in
            match Diagram_getslice d
                    (mkSlice (Some start) (Some (last + 1)) None) with
            | Raise e => Some (Raise e)
            | Ok s => foliate_while fuel' (last + 1) d (slices ++ [s]) ys
            end
        end
    end
  else Some (Ok (yields, slices)).

(** [Diagram.foliate] run to its end: the diagrams it yields and, last,
    the slices.  Every turn of the [while] loop moves [start] forward, so
    the number of boxes bounds the turns. *)
Definition foliate (self : Diagram) (start : Z)
  : option (result (list Diagram * list Diagram)) :=
  foliate_while (length (boxes self)) start self [] [].

(** [Diagram.depth] *)
Definition depth (self : Diagram) : option (result Z) :=
  match foliate self 0 with
  | None => None
  | Some (Raise e) => Some (Raise e)
  | Some (Ok (_, slices)) => Some (Ok (len slices))
  end.

(** [Diagram.width] *)
Definition width (self : Diagram) : Z :=
  snd (fold_left
         (fun '(scan, w) '(box, off) =>
            let scan' := slice_to scan off ++ cod box
                         ++ slice_from scan (off + len (dom box)) in
            (scan', Z.max w (len scan')))
         (combine (boxes self) (offsets self))
         (d_dom self, len (d_dom self))).

(* ================================================================== *)
(** * Monoidal functors *)
(* ================================================================== *)

(** A functor is given by its image on objects and on boxes; a lookup
    that finds nothing raises ([KeyError] for a dictionary). *)
Record MonoidalFunctor : Type := mkFunctor {
  ob : Ob -> result Ty;
  ar : Box -> result Diagram
}.

(** [[self.ob[Ty(x)] for x in t]] *)
Fixpoint ob_images (F : MonoidalFunctor) (t : Ty) : result (list Ty) :=
  match t with
  | [] => Ok []
  | x :: t' =>
      y <- ob F x ;;
      ys <- ob_images F t' ;;
      Ok (y :: ys)
  end.

(** [MonoidalFunctor.__call__] on a type. *)
Definition F_Ty (F : MonoidalFunctor) (t : Ty) : result Ty :=
  ys <- ob_images F t ;; Ok (Ty_sum ys []).

(** Modelled from the spec: [cat.Functor.__call__], reached on a [Box],
    is not under src/; the image of a lone generator is a direct lookup
    through the generator mapping. *)
Definition F_Box (F : MonoidalFunctor) (f : Box) : result Diagram := ar F f.

(** The loop of [MonoidalFunctor.__call__] on a diagram. *)
Fixpoint F_scan (F : MonoidalFunctor) (scan : Ty) (res : Diagram)
    (bo : list (Box * Z)) : result Diagram :=
  match bo with
  | [] => Ok res
  | (box, off) :: rest =>
      tl <- F_Ty F (slice_to scan off) ;;
      tr <- F_Ty F (slice_from scan (off + len (dom box))) ;;
      fb <- F_Box F box ;;
      lb <- tensor (Id tl) fb ;;
      lbr <- tensor lb (Id tr) ;;
      res' <- then_ res lbr ;;
      F_scan F
             (slice_to scan off ++ cod box
              ++ slice_from scan (off + len (dom box)))
             res' rest
  end.

(** [MonoidalFunctor.__call__] on a diagram that is not a [Box]. *)
Definition F_Diagram (F : MonoidalFunctor) (diagram : Diagram)
  : result Diagram :=
  t <- F_Ty F (d_dom diagram) ;;
  F_scan F (d_dom diagram) (Id t)
         (combine (boxes diagram) (offsets diagram)).

(* ================================================================== *)
(** * Well-formed diagrams *)
(* ================================================================== *)

(** The layers [ls] lead from the wires [scan] to the wires [cod0]: each
    layer starts on the wires the previous one ends on. *)
Fixpoint chain (scan : Ty) (ls : list Layer) (cod0 : Ty) : Prop :=
  match ls with
  | [] => scan = cod0
  | l :: rest => Layer_dom l = scan /\ chain (Layer_cod l) rest cod0
  end.

(** The invariants of a diagram: the layers lead from its domain to its
    codomain, their boxes are its boxes, and the offset of a box is the
    number of wires to its left. *)
Record wf (d : Diagram) : Prop := mkWf {
  wf_dom : a_dom (layers d) = d_dom d;
  wf_cod : a_cod (layers d) = d_cod d;
  wf_chain : chain (d_dom d) (a_boxes (layers d)) (d_cod d);
  wf_boxes : map l_box (a_boxes (layers d)) = boxes d;
  wf_offsets : map (fun l => len (l_left l)) (a_boxes (layers d)) = offsets d
}.

(** The image of an object, of a type and of a box where the functor is
    defined; [F_Ty] and [F_Box] return them when they do not raise. *)
Definition ob_image (F : MonoidalFunctor) (x : Ob) : Ty :=
  match ob F x with Ok t => t | Raise _ => [] end.

Definition Ty_image (F : MonoidalFunctor) (t : Ty) : Ty :=
  concat (map (ob_image F) t).

Definition ar_image (F : MonoidalFunctor) (f : Box) : Diagram :=
  match ar F f with Ok d => d | Raise _ => mkDiagram [] [] [] [] (mkArrow [] [] []) end.

(** The functor is defined on every object of the type [t]. *)
Definition defined_on_Ty (F : MonoidalFunctor) (t : Ty) : Prop :=
  Forall (fun x => exists y, ob F x = Ok y) t.

(** The mapping on boxes respects types at the box [f]: its image is a
    diagram from the image of [f.dom] to the image of [f.cod]. *)
Definition box_typed (F : MonoidalFunctor) (f : Box) : Prop :=
  exists fb, ar F f = Ok fb /\ wf fb
             /\ F_Ty F (dom f) = Ok (d_dom fb)
             /\ F_Ty F (cod f) = Ok (d_cod fb).

(** The functor is defined and respects types on the diagram [d]. *)
Definition functor_on (F : MonoidalFunctor) (d : Diagram) : Prop :=
  defined_on_Ty F (d_dom d) /\ Forall (box_typed F) (boxes d).

(** Boxes and offsets of the image of a list of layers: the images of the
    boxes, each moved right by the image of the wires to its left. *)
Definition image_boxes (F : MonoidalFunctor) (ls : list Layer) : list Box :=
  flat_map (fun l => boxes (ar_image F (l_box l))) ls.

Definition image_offsets (F : MonoidalFunctor) (ls : list Layer) : list Z :=
  flat_map (fun l => map (fun n => n + len (Ty_image F (l_left l)))
                         (offsets (ar_image F (l_box l)))) ls.


(* ================================================================== *)
(** * Examples used below *)
(* ================================================================== *)

Definition box (n : string) (d c : Ty) : Box := mkBox n d c None false.

Definition xyz : Ty := ["x"; "y"; "z"].

(** [Diagram(Ty('x','y','z'), Ty('x','y','z'), [Box('f', Ty('y'), Ty('y'))], [-2])],
    as [Diagram.__init__] would store it. *)
Definition negative_offset_diagram : Diagram :=
  mkDiagram xyz xyz [box "f" ["y"] ["y"]] [-2]
            (mkArrow xyz xyz [mkLayer ["x"] (box "f" ["y"] ["y"]) ["z"]]).

(** [Diagram(Ty('x'), Ty('x'), [Box('s', Ty(), Ty())], [5])] *)
Definition overshoot_offset_diagram : Diagram :=
  mkDiagram ["x"] ["x"] [box "s" [] []] [5]
            (mkArrow ["x"] ["x"] [mkLayer ["x"] (box "s" [] []) []]).

(** [f0 @ f1 @ f2] for [f0 : x -> x], [f1 : y -> y], [f2 : z -> z]. *)
Definition three_boxes : Diagram :=
  mkDiagram xyz xyz
    [box "f0" ["x"] ["x"]; box "f1" ["y"] ["y"]; box "f2" ["z"] ["z"]]
    [0; 1; 2]
    (mkArrow xyz xyz
       [mkLayer [] (box "f0" ["x"] ["x"]) ["y"; "z"];
        mkLayer ["x"] (box "f1" ["y"] ["y"]) ["z"];
        mkLayer ["x"; "y"] (box "f2" ["z"] ["z"]) []]).

(** [three_boxes.interchange(0, 2)], as the code computes it. *)
Definition three_boxes_0_to_2 : Diagram :=
  mkDiagram xyz xyz
    [box "f1" ["y"] ["y"]; box "f2" ["z"] ["z"]; box "f0" ["x"] ["x"]]
    [1; 2; 0]
    (mkArrow xyz xyz
       [mkLayer ["x"] (box "f1" ["y"] ["y"]) ["z"];
        mkLayer ["x"; "y"] (box "f2" ["z"] ["z"]) [];
        mkLayer [] (box "f0" ["x"] ["x"]) ["y"; "z"]]).

(** [Id(x) @ s >> counit] for a scalar [s : () -> ()] and
    [counit : x -> ()]: [Diagram(Ty('x'), Ty(), [s, counit], [1, 0])]. *)
Definition scalar_then_counit : Diagram :=
  mkDiagram ["x"] [] [box "s" [] []; box "counit" ["x"] []] [1; 0]
    (mkArrow ["x"] []
       [mkLayer ["x"] (box "s" [] []) [];
        mkLayer [] (box "counit" ["x"] []) []]).

(** The offsets [off0], [off1] and boxes [box0], [box1] at the indices
    [i], [i + 1] of a diagram. *)
Definition pair_at (d : Diagram) (i : Z) (off0 off1 : Z) (box0 box1 : Box)
  : Prop :=
  nth_error (offsets d) (Z.to_nat i) = Some off0
  /\ nth_error (offsets d) (S (Z.to_nat i)) = Some off1
  /\ nth_error (boxes d) (Z.to_nat i) = Some box0
  /\ nth_error (boxes d) (S (Z.to_nat i)) = Some box1.

(** The one position of two wire-disjoint adjacent boxes from which two
    unit interchanges do not lead back: [box0] has no domain, [box1] no
    codomain, [box0] sits exactly at the right end of the domain of
    [box1], and they are not both scalars at the same place. *)
Definition both_sides (off0 off1 : Z) (box0 box1 : Box) : Prop :=
  off0 = off1 + len (dom box1) /\ cod box1 = [] /\ dom box0 = []
  /\ (dom box1 <> [] \/ cod box0 <> []).

(** The boxes [f0 : x -> y] and [f1 : z -> w] of the module docstring. *)
Definition f0_xy : Box := box "f0" ["x"] ["y"].
Definition f1_zw : Box := box "f1" ["z"] ["w"].

(** [Id(x) @ f1 >> f0 @ Id(y)] for [f0 : x -> x] and [f1 : y -> y]:
    [Diagram(Ty('x','y'), Ty('x','y'), [f1, f0], [1, 0])]. *)
Definition right_box_first : Diagram :=
  mkDiagram ["x"; "y"] ["x"; "y"]
    [box "f1" ["y"] ["y"]; box "f0" ["x"] ["x"]] [1; 0]
    (mkArrow ["x"; "y"] ["x"; "y"]
       [mkLayer ["x"] (box "f1" ["y"] ["y"]) [];
        mkLayer [] (box "f0" ["x"] ["x"]) ["y"]]).

(** Its normal form [f0 @ f1]. *)
Definition left_box_first : Diagram :=
  mkDiagram ["x"; "y"] ["x"; "y"]
    [box "f0" ["x"] ["x"]; box "f1" ["y"] ["y"]] [0; 1]
    (mkArrow ["x"; "y"] ["x"; "y"]
       [mkLayer [] (box "f0" ["x"] ["x"]) ["y"];
        mkLayer ["x"] (box "f1" ["y"] ["y"]) []]).

(** The functor of [Diagram.flatten] on diagrams of boxes: every object
    and every box is its own image. *)
Definition identity_functor : MonoidalFunctor :=
  mkFunctor (fun x => Ok [x]) (fun f => Ok (Box_diagram f)).

(** Each offset places its box on wires that exist: with [scan] the wires
    before the box, [0 <= off] and [off + len(box.dom) <= len(scan)]; the
    wires after the box are those that [Diagram.width] and the functor
    compute. *)
Fixpoint fits (scan : Ty) (bo : list (Box * Z)) : bool :=
  match bo with
  | [] => true
  | (b, off) :: rest =>
      (0 <=? off) && (off + len (dom b) <=? len scan)
      && fits (slice_to scan off ++ cod b
               ++ slice_from scan (off + len (dom b))) rest
  end.

(** [Ty.__iter__]: [self[i]] for [i] in [range(len(self))], each either
    an item or the exception of [__getitem__]. *)
Definition Ty_iter (t : Ty) : list (result TyItem) :=
  map (fun i => Ty_getitem t (KInt i)) (range (len t)).

(** What holds of every state that a generator of [normalize] on a
    well-formed diagram [d0] goes through: the current diagram is well
    formed, of the type of [d0] and with its boxes in some order, and the
    indices still to visit are in range. *)
Definition normalize_state_ok (d0 : Diagram) (st : NormState) : Prop :=
  wf (ns_diagram st)
  /\ d_dom (ns_diagram st) = d_dom d0 /\ d_cod (ns_diagram st) = d_cod d0
  /\ Permutation (boxes d0) (boxes (ns_diagram st))
  /\ Forall (fun i => 0 <= i /\ i + 1 < Diagram_len d0) (ns_rest st).

(** [Box.__eq__] against a diagram that is not a [Box]:
    [len(other) == 1 and other.boxes[0] == self
     and (other.dom, other.cod) == (self.dom, self.cod)]. *)
Definition Box_eq_Diagram (self : Box) (other : Diagram) : bool :=
  (Diagram_len other =? 1)
  && match boxes other with b :: _ => Box_eq b self | [] => false end
  && (Ty_eq (d_dom other) (dom self) && Ty_eq (d_cod other) (cod self)).

(** The greatest number of wires after one of the layers [ls], or [w] if
    that is more. *)
Definition max_wires (ls : list Layer) (w : Z) : Z :=
  fold_left (fun w l => Z.max w (len (Layer_cod l))) ls w.

(** [self.id(left) @ box @ self.id(right)] for a layer. *)
Definition layer_diagram (l : Layer) : result Diagram :=
  lb <- tensor (Id (l_left l)) (Box_diagram (l_box l)) ;;
  tensor lb (Id (l_right l)).

(** [Diagram.__iter__]: one diagram for each layer. *)
Definition Diagram_iter (self : Diagram) : list (result Diagram) :=
  map layer_diagram (a_boxes (layers self)).

(** [Diagram.__getitem__] at an integer: [self.layers[key]] is the layer
    at that index, as in [interchange]. *)
Definition Diagram_getitem (self : Diagram) (i : Z) : result Diagram :=
  l <- py_index (a_boxes (layers self)) i ;; layer_diagram l.

(** A layer as a diagram of one box. *)
Definition layer_slice (l : Layer) : Diagram :=
  mkDiagram (Layer_dom l) (Layer_cod l) [l_box l] [len (l_left l)]
            (mkArrow (Layer_dom l) (Layer_cod l) [l]).

(** [Diagram.flatten] on a diagram whose boxes are generators: the
    functor with both mappings the identity, applied to the diagram. *)
Definition flatten (self : Diagram) : result Diagram :=
  F_Diagram identity_functor self.

(** [result >> Id(_type ** a) @ b @ Id(_type ** c)], a line of the loops
    of [spiral]. *)
Definition spiral_layer (res : result Diagram) (_type : Ty) (a : Z) (b : Box)
    (c : Z) : result Diagram :=
  r <- res ;;
  tl <- Ty_pow _type (KInt a) ;;
  lb <- tensor (Id tl) (Box_diagram b) ;;
  tr <- Ty_pow _type (KInt c) ;;
  lbr <- tensor lb (Id tr) ;;
  then_ r lbr.

(** [spiral(n_cups, _type)] *)
Definition spiral (n_cups : Z) (_type : Ty) : result Diagram :=
  let unit := box "unit" [] _type in
  let counit := box "counit" _type [] in
  let cup := box "cup" (Ty_tensor _type _type) [] in
  let cap := box "cap" [] (Ty_tensor _type _type) in
  let result := Ok (Box_diagram unit) in
  let result :=
    fold_left (fun res i => spiral_layer res _type i cap (i + 1))
              (range n_cups) result in
  let result := spiral_layer result _type n_cups counit n_cups in
  fold_left (fun res i =>
               spiral_layer res _type (n_cups - i - 1) cup (n_cups - i - 1))
            (range n_cups) result.

(** The functor of the class docstring,
    [MonoidalFunctor({x: z, y: w, z: x, w: y}, {f0: f1, f1: f0})]: a key
    that a dictionary does not hold raises [KeyError]. *)
Definition swap_functor : MonoidalFunctor :=
  mkFunctor
    (fun o => if String.eqb o "x" then Ok ["z"]
              else if String.eqb o "y" then Ok ["w"]
              else if String.eqb o "z" then Ok ["x"]
              else if String.eqb o "w" then Ok ["y"]
              else Raise KeyError)
    (fun f => if Box_eq f f0_xy then Ok (Box_diagram f1_zw)
              else if Box_eq f f1_zw then Ok (Box_diagram f0_xy)
              else Raise KeyError).

(** A generator mapping that does not respect types: every object is its
    own image and so is every box but [f0 : x -> y], which is sent to
    [g : x -> ()]. *)
Definition ill_typed_functor : MonoidalFunctor :=
  mkFunctor (fun o => Ok [o])
    (fun f => if Box_eq f f0_xy then Ok (Box_diagram (box "g" ["x"] []))
              else Ok (Box_diagram f)).

(* ================================================================== *)
(** * Facts on equality tests *)
(* ================================================================== *)

Section ListEqb.
Variable A : Type.
Variable eqb : A -> A -> bool.
Hypothesis eqb_eq : forall x y, eqb x y = true <-> x = y.

Lemma list_eqb_eq (l1 l2 : list A) : list_eqb eqb l1 l2 = true <-> l1 = l2.
Proof.
  revert l2; induction l1 as [|x l1 IH]; intros [|y l2]; simpl;
    try (split; congruence).
  rewrite andb_true_iff, eqb_eq, IH. split.
  - intros [-> ->]; reflexivity.
  - intros E; inversion E; auto.
Qed.

Lemma list_eqb_refl (l : list A) : list_eqb eqb l l = true.
Proof. apply list_eqb_eq; reflexivity. Qed.
End ListEqb.

Lemma Ty_eq_eq (s t : Ty) : Ty_eq s t = true <-> s = t.
Proof. apply list_eqb_eq. intros x y; apply String.eqb_eq. Qed.

Lemma Ty_eq_refl (t : Ty) : Ty_eq t t = true.
Proof. apply Ty_eq_eq; reflexivity. Qed.

Lemma Ty_eq_neq (s t : Ty) : Ty_eq s t = false <-> s <> t.
Proof.
  split.
  - intros E H. apply Ty_eq_eq in H. congruence.
  - intros H. destruct (Ty_eq s t) eqn:E; auto.
    apply Ty_eq_eq in E. contradiction.
Qed.

Lemma option_eqb_eq {A} (eqb : A -> A -> bool)
    (eqb_eq : forall x y, eqb x y = true <-> x = y) (x y : option A) :
  option_eqb eqb x y = true <-> x = y.
Proof.
  destruct x, y; simpl; try (split; congruence).
  rewrite eqb_eq. split; congruence.
Qed.

Lemma Box_eq_eq (f g : Box) : Box_eq f g = true <-> f = g.
Proof.
  unfold Box_eq. rewrite !andb_true_iff, String.eqb_eq, !Ty_eq_eq,
    (option_eqb_eq String.eqb String.eqb_eq), Bool.eqb_true_iff.
  destruct f, g; simpl. split.
  - intros [[[[-> ->] ->] ->] ->]; reflexivity.
  - intros E; inversion E; auto.
Qed.

(** Two diagrams are equal for [==] exactly when domain, codomain, boxes
    and offsets agree; the layers are not compared. *)
Lemma Diagram_eq_iff (d e : Diagram) :
  Diagram_eq d e = true <->
  d_dom d = d_dom e /\ d_cod d = d_cod e /\ boxes d = boxes e
  /\ offsets d = offsets e.
Proof.
  unfold Diagram_eq.
  rewrite !andb_true_iff, !Ty_eq_eq, (list_eqb_eq Box Box_eq Box_eq_eq),
    (list_eqb_eq Z Z.eqb Z.eqb_eq).
  tauto.
Qed.

Lemma Diagram_eq_refl (d : Diagram) : Diagram_eq d d = true.
Proof. apply Diagram_eq_iff; auto. Qed.

Lemma Diagram_eq_sym (d e : Diagram) : Diagram_eq d e = Diagram_eq e d.
Proof.
  destruct (Diagram_eq d e) eqn:E1, (Diagram_eq e d) eqn:E2; auto.
  - apply Diagram_eq_iff in E1. rewrite <- E2. symmetry.
    apply Diagram_eq_iff. intuition congruence.
  - apply Diagram_eq_iff in E2. rewrite <- E1.
    apply Diagram_eq_iff. intuition congruence.
Qed.

Lemma Diagram_eq_trans (d e f : Diagram) :
  Diagram_eq d e = true -> Diagram_eq e f = true -> Diagram_eq d f = true.
Proof. rewrite !Diagram_eq_iff. intuition congruence. Qed.

(* ================================================================== *)
(** * Facts on indexing and slicing *)
(* ================================================================== *)

Lemma len_app {A} (l1 l2 : list A) : len (l1 ++ l2) = len l1 + len l2.
Proof. unfold len. rewrite length_app. lia. Qed.

Lemma len_nonneg {A} (l : list A) : 0 <= len l.
Proof. unfold len. lia. Qed.

Lemma py_clip_inrange (n : nat) (k : Z) :
  0 <= k <= Z.of_nat n -> py_clip n k = Z.to_nat k.
Proof.
  intros H. unfold py_clip.
  destruct (k <? 0) eqn:E; [apply Z.ltb_lt in E; lia|].
  f_equal. lia.
Qed.

Lemma py_clip_len (n : nat) : py_clip n (Z.of_nat n) = n.
Proof. rewrite py_clip_inrange by lia. apply Nat2Z.id. Qed.

(** [(a + b)[:len(a)] == a] *)
Lemma slice_to_app {A} (a b : list A) : slice_to (a ++ b) (len a) = a.
Proof.
  unfold slice_to, len. rewrite py_clip_inrange, Nat2Z.id.
  - rewrite firstn_app, Nat.sub_diag, firstn_all. simpl. apply app_nil_r.
  - rewrite length_app. lia.
Qed.

(** [(a + b)[len(a):] == b] *)
Lemma slice_from_app {A} (a b : list A) : slice_from (a ++ b) (len a) = b.
Proof.
  unfold slice_from, len. rewrite py_clip_inrange, Nat2Z.id.
  - rewrite skipn_app, Nat.sub_diag, skipn_all. reflexivity.
  - rewrite length_app. lia.
Qed.

Lemma slice_to_nat {A} (l : list A) (k : Z) :
  0 <= k <= len l -> slice_to l k = firstn (Z.to_nat k) l.
Proof. intros H. unfold slice_to. rewrite py_clip_inrange; auto. Qed.

Lemma slice_from_nat {A} (l : list A) (k : Z) :
  0 <= k <= len l -> slice_from l k = skipn (Z.to_nat k) l.
Proof. intros H. unfold slice_from. rewrite py_clip_inrange; auto. Qed.

Lemma slice_to_from {A} (l : list A) (k : Z) :
  slice_to l k ++ slice_from l k = l.
Proof. apply firstn_skipn. Qed.

Lemma py_index_nth {A} (l : list A) (i : Z) :
  0 <= i < len l ->
  exists x, nth_error l (Z.to_nat i) = Some x /\ py_index l i = Ok x.
Proof.
  unfold len, py_index. intros H. cbv zeta.
  assert (E : (i <? 0) = false) by (apply Z.ltb_ge; lia).
  assert (E2 : (Z.of_nat (length l) <=? i) = false) by (apply Z.leb_gt; lia).
  rewrite !E, E2. simpl. destruct (nth_error l (Z.to_nat i)) eqn:N.
  - exists a; auto.
  - apply nth_error_None in N. lia.
Qed.

Lemma py_index_app_mid {A} (a b : list A) (x : A) :
  py_index (a ++ x :: b) (len a) = Ok x.
Proof.
  destruct (py_index_nth (a ++ x :: b) (len a)) as (y & N & ->).
  - rewrite len_app. unfold len. simpl. lia.
  - unfold len in N. rewrite Nat2Z.id, nth_error_app2, Nat.sub_diag in N by lia.
    simpl in N. congruence.
Qed.

Lemma slice_elems_step1 {A} (l : list A) (c : nat) :
  forall start, 0 <= start -> start + Z.of_nat c <= len l ->
  slice_elems l start 1 c = firstn c (skipn (Z.to_nat start) l).
Proof.
  unfold len. induction c as [|c IH]; intros start H0 H1; simpl; auto.
  destruct (nth_error l (Z.to_nat start)) eqn:N.
  - rewrite IH by lia.
    replace (Z.to_nat (start + 1)) with (S (Z.to_nat start)) by lia.
    clear IH H1. revert l N. generalize (Z.to_nat start) as k.
    induction k; intros [|y l] N; simpl in *; try discriminate.
    + inversion N; reflexivity.
    + apply IHk; auto.
  - apply nth_error_None in N. lia.
Qed.

Lemma adjust_bound_clip (n : nat) (s : Z) :
  adjust_bound (Z.of_nat n) 0 (Z.of_nat n) s = Z.of_nat (py_clip n s).
Proof.
  unfold adjust_bound, py_clip.
  destruct (s <? 0) eqn:E.
  - destruct (Z.of_nat n + s <? 0) eqn:E2.
    + apply Z.ltb_lt in E2. lia.
    + apply Z.ltb_ge in E2. lia.
  - apply Z.ltb_ge in E. destruct (Z.of_nat n <? s) eqn:E2.
    + apply Z.ltb_lt in E2. lia.
    + apply Z.ltb_ge in E2. lia.
Qed.

Lemma py_clip_le (n : nat) (s : Z) : (py_clip n s <= n)%nat.
Proof.
  unfold py_clip. destruct (s <? 0) eqn:E; lia.
Qed.

(** A slice of step one is the segment between its clamped bounds. *)
Lemma py_getslice_step1 {A} (l : list A) (a b : option Z) :
  py_getslice l (mkSlice a b None) = Ok (py_slice l a b).
Proof.
  unfold py_getslice, py_slice. simpl.
  set (n := length l).
  set (lo := match a with None => 0%nat | Some s => py_clip n s end).
  set (hi := match b with None => n | Some s => py_clip n s end).
  assert (Hlo : match a with
                | None => 0 | Some s => adjust_bound (Z.of_nat n) 0 (Z.of_nat n) s
                end = Z.of_nat lo).
  { subst lo. destruct a; auto. apply adjust_bound_clip. }
  assert (Hhi : match b with
                | None => Z.of_nat n
                | Some s => adjust_bound (Z.of_nat n) 0 (Z.of_nat n) s
                end = Z.of_nat hi).
  { subst hi. destruct b; auto. apply adjust_bound_clip. }
  rewrite Hlo, Hhi.
  assert (Lo : (lo <= n)%nat).
  { subst lo. destruct a; [apply py_clip_le | lia]. }
  assert (Hi : (hi <= n)%nat).
  { subst hi. destruct b; [apply py_clip_le | lia]. }
  f_equal.
  destruct (Z.of_nat lo <? Z.of_nat hi) eqn:E.
  - apply Z.ltb_lt in E. rewrite Z.div_1_r.
    rewrite slice_elems_step1; unfold len; fold n; try lia.
    rewrite Nat2Z.id. f_equal. lia.
  - apply Z.ltb_ge in E. simpl.
    replace (hi - lo)%nat with 0%nat by lia. reflexivity.
Qed.

(* ================================================================== *)
(** * Ty: items, slices and powers *)
(* ================================================================== *)

Lemma py_getslice_ok {A} (l : list A) (key : Slice) :
  s_step key <> Some 0 -> exists sub, py_getslice l key = Ok sub.
Proof.
  intros H. unfold py_getslice.
  destruct (s_step key) as [s|] eqn:E.
  - destruct (s =? 0) eqn:E0.
    + apply Z.eqb_eq in E0. subst s. contradiction.
    + destruct (0 <? s); eauto.
  - simpl. eauto.
Qed.

(** C9, as stated, fails: [Ty('x', 'y', 'z')[0]] is the object [Ob('x')],
    not a type. *)
Lemma Ty_getitem_index_is_not_a_Ty :
  0 <= 0 < len xyz /\
  ~ exists sub : Ty, Ty_getitem xyz (KInt 0) = Ok (ItemTy sub).
Proof.
  split; [unfold len; simpl; lia|].
  intros [sub H]. vm_compute in H. discriminate.
Qed.

(** C9, amended: for a type [t] and an index [0 <= i < len(t)], [t[i]]
    is the [i]-th object of [t], an [Ob] and not a [Ty]; slicing by a
    range (a slice object of non-zero step) returns a [Ty], for a slice
    of step one the segment of objects between its bounds. *)
Theorem Ty_getitem_index_is_object (t : Ty) (i : Z) :
  0 <= i < len t ->
  (exists x : Ob, nth_error t (Z.to_nat i) = Some x
                  /\ Ty_getitem t (KInt i) = Ok (ItemOb x))
  /\ (forall key : Slice, s_step key <> Some 0 ->
        exists sub : Ty, Ty_getitem t (KSlice key) = Ok (ItemTy sub))
  /\ (forall a b : option Z,
        Ty_getitem t (KSlice (mkSlice a b None)) = Ok (ItemTy (py_slice t a b))).
Proof.
  intros H. repeat split.
  - destruct (py_index_nth t i H) as (x & N & E).
    exists x. split; auto. simpl. rewrite E. reflexivity.
  - intros key Hk. destruct (py_getslice_ok t key Hk) as [sub E].
    exists sub. simpl. rewrite E. reflexivity.
  - intros a b. unfold Ty_getitem. rewrite py_getslice_step1. reflexivity.
Qed.

Lemma Ty_getitem_index_is_object_witness :
  0 <= 1 < len xyz /\
  (exists x : Ob, nth_error xyz (Z.to_nat 1) = Some x
                  /\ Ty_getitem xyz (KInt 1) = Ok (ItemOb x)).
Proof.
  assert (H : 0 <= 1 < len xyz) by (unfold len; simpl; lia).
  split; [exact H|].
  exact (proj1 (Ty_getitem_index_is_object xyz 1 H)).
Defined.

Lemma Ty_sum_repeat_nil (xs : list Ty) (acc : Ty) :
  Ty_sum xs acc = acc ++ concat xs.
Proof.
  unfold Ty_sum. revert acc. induction xs as [|x xs IH]; intros acc; simpl.
  - symmetry; apply app_nil_r.
  - rewrite IH. unfold Ty_tensor. symmetry. apply app_assoc.
Qed.

(** In the machine word, a power is the repeated tensor. *)
Lemma Ty_pow_in_word (t : Ty) (z : Z) :
  - PY_SSIZE_T_MAX - 1 <= z <= PY_SSIZE_T_MAX ->
  Ty_pow t (KInt z) = Ok (concat (repeat t (Z.to_nat z))).
Proof.
  intros H. unfold Ty_pow, tuple_repeat.
  replace (z <? - PY_SSIZE_T_MAX - 1) with false
    by (symmetry; apply Z.ltb_ge; lia).
  replace (PY_SSIZE_T_MAX <? z) with false
    by (symmetry; apply Z.ltb_ge; lia).
  cbn [orb bind]. rewrite Ty_sum_repeat_nil. reflexivity.
Qed.

(** Outside the machine word, a power raises [OverflowError]. *)
Lemma Ty_pow_out_of_word (t : Ty) (z : Z) :
  z < - PY_SSIZE_T_MAX - 1 \/ PY_SSIZE_T_MAX < z ->
  Ty_pow t (KInt z) = Raise OverflowError.
Proof.
  intros H. unfold Ty_pow, tuple_repeat.
  destruct H as [H|H].
  - replace (z <? - PY_SSIZE_T_MAX - 1) with true
      by (symmetry; apply Z.ltb_lt; lia).
    reflexivity.
  - replace (PY_SSIZE_T_MAX <? z) with true
      by (symmetry; apply Z.ltb_lt; lia).
    rewrite orb_true_r. reflexivity.
Qed.

Lemma Ty_pow_cases (t : Ty) (z : Z) :
  (- PY_SSIZE_T_MAX - 1 <= z <= PY_SSIZE_T_MAX
   /\ Ty_pow t (KInt z) = Ok (concat (repeat t (Z.to_nat z))))
  \/ ((z < - PY_SSIZE_T_MAX - 1 \/ PY_SSIZE_T_MAX < z)
      /\ Ty_pow t (KInt z) = Raise OverflowError).
Proof.
  assert (D : - PY_SSIZE_T_MAX - 1 <= z <= PY_SSIZE_T_MAX
              \/ (z < - PY_SSIZE_T_MAX - 1 \/ PY_SSIZE_T_MAX < z)) by lia.
  destruct D as [D|D].
  - left. split; [exact D | apply Ty_pow_in_word, D].
  - right. split; [exact D | apply Ty_pow_out_of_word, D].
Qed.

(** C10, as stated, fails: a negative exponent below the machine word,
    here [-2 ** 63 - 1], makes [t ** n] raise [OverflowError]; the empty
    type is not returned. *)
Lemma Ty_pow_negative_can_raise :
  -9223372036854775809 < 0
  /\ Ty_pow ["x"] (KInt (-9223372036854775809)) = Raise OverflowError
  /\ Ty_pow ["x"] (KInt (-9223372036854775809)) <> Ok []
  /\ Ty_pow ["x"] (KInt (-9223372036854775809)) <> Raise TypeError.
Proof.
  split; [reflexivity|].
  assert (E : Ty_pow ["x"] (KInt (-9223372036854775809)) = Raise OverflowError)
    by reflexivity.
  split; [exact E|]. rewrite E. split; discriminate.
Qed.

(** C10, amended: for a negative integer [n] in the machine word
    ([-2 ** 63 <= n < 0]), [t ** n] is the empty type and does not raise;
    for a negative integer below the word it raises [OverflowError]; and
    [__pow__] raises [TypeError] exactly when the exponent is not an
    integer. *)
Theorem Ty_pow_negative (t : Ty) (n : Z) :
  n < 0 ->
  (- PY_SSIZE_T_MAX - 1 <= n -> Ty_pow t (KInt n) = Ok [])
  /\ (n < - PY_SSIZE_T_MAX - 1 -> Ty_pow t (KInt n) = Raise OverflowError)
  /\ (forall key : PyKey,
        Ty_pow t key = Raise TypeError <-> forall m, key <> KInt m).
Proof.
  intros H. split; [|split].
  - intros L. rewrite Ty_pow_in_word by (unfold PY_SSIZE_T_MAX in *; lia).
    replace (Z.to_nat n) with 0%nat by lia. reflexivity.
  - intros L. apply Ty_pow_out_of_word. left. exact L.
  - intros key. destruct key as [m|s|]; split.
    + intros E. destruct (Ty_pow_cases t m) as [[_ P]|[_ P]];
        rewrite P in E; discriminate E.
    + intros N. exfalso. apply (N m). reflexivity.
    + intros _ m. discriminate.
    + intros _. reflexivity.
    + intros _ m. discriminate.
    + intros _. reflexivity.
Qed.

Lemma Ty_pow_negative_witness :
  -3 < 0 /\ Ty_pow ["x"] (KInt (-3)) = Ok [].
Proof.
  assert (H : -3 < 0) by lia.
  split; [exact H|].
  apply (proj1 (Ty_pow_negative ["x"] (-3) H)). discriminate.
Defined.

(* ================================================================== *)
(** * Construction *)
(* ================================================================== *)

(** C2, the code at the failing inputs: [Diagram.__init__] accepts the
    offset [-2] for a box on one wire over three wires, where the bound
    [0 <= offset] is violated, and the offset [5] for a box without
    domain over one wire, where [offset <= len(scan) - len(box.dom)] is
    violated; it returns a diagram in both cases. *)
Theorem Diagram_init_accepts_offset_out_of_range :
  Diagram_init xyz xyz [box "f" ["y"] ["y"]] [-2] None
    = Ok negative_offset_diagram
  /\ ~ (0 <= -2 <= len xyz - len (dom (box "f" ["y"] ["y"])))
  /\ Diagram_init ["x"] ["x"] [box "s" [] []] [5] None
    = Ok overshoot_offset_diagram
  /\ ~ (0 <= 5 <= len ["x"] - len (dom (box "s" [] []))).
Proof.
  repeat split; try reflexivity; unfold len; simpl; lia.
Qed.

(* ================================================================== *)
(** * Composition of arrows and well-formed diagrams *)
(* ================================================================== *)

Lemma cat_then_ok (f g : Arrow) :
  a_cod f = a_dom g ->
  cat_then f g = Ok (mkArrow (a_dom f) (a_cod g) (a_boxes f ++ a_boxes g)).
Proof.
  intros H. unfold cat_then. rewrite H, Ty_eq_refl. reflexivity.
Qed.

Lemma cat_then_mismatch (f g : Arrow) :
  a_cod f <> a_dom g -> cat_then f g = Raise AxiomError.
Proof.
  intros H. unfold cat_then. apply Ty_eq_neq in H. rewrite H. reflexivity.
Qed.

Lemma chain_app (ls1 ls2 : list Layer) (s c : Ty) :
  chain s (ls1 ++ ls2) c <-> exists m, chain s ls1 m /\ chain m ls2 c.
Proof.
  revert s. induction ls1 as [|l ls1 IH]; intros s; simpl.
  - split.
    + intros H. exists s. auto.
    + intros (m & -> & H). exact H.
  - rewrite IH. split.
    + intros (H & m & H1 & H2). exists m. auto.
    + intros (m & (H & H1) & H2). split; auto. exists m. auto.
Qed.

Lemma chain_unique (ls : list Layer) (s c c' : Ty) :
  chain s ls c -> chain s ls c' -> c = c'.
Proof.
  revert s. induction ls as [|l ls IH]; intros s; simpl.
  - congruence.
  - intros [_ H] [_ H']. eapply IH; eauto.
Qed.

Lemma chain_last (ls : list Layer) (l : Layer) (s c : Ty) (d : Layer) :
  chain s (l :: ls) c -> Layer_cod (last (l :: ls) d) = c.
Proof.
  revert l s. induction ls as [|l' ls IH]; intros l s [H1 H2].
  - simpl in *. exact H2.
  - change (last (l :: l' :: ls) d) with (last (l' :: ls) d).
    eapply IH. exact H2.
Qed.

Lemma compose_layers_chain (ls : list Layer) (f : Arrow) (c : Ty) :
  chain (a_cod f) ls c ->
  compose_layers f ls = Ok (mkArrow (a_dom f) c (a_boxes f ++ ls)).
Proof.
  revert f. induction ls as [|l ls IH]; intros f; simpl.
  - intros <-. rewrite app_nil_r. destruct f; reflexivity.
  - intros [H1 H2]. unfold then_layer. rewrite cat_then_ok by (simpl; auto).
    simpl. rewrite IH by (simpl; auto). simpl.
    rewrite <- app_assoc. reflexivity.
Qed.

Lemma chain_pad_right (t : Ty) (ls : list Layer) (s c : Ty) :
  chain s ls c ->
  chain (s ++ t)
        (map (fun l => mkLayer (l_left l) (l_box l) (Ty_tensor (l_right l) t)) ls)
        (c ++ t).
Proof.
  revert s. induction ls as [|l ls IH]; intros s; simpl.
  - congruence.
  - intros [H1 H2]. split.
    + rewrite <- H1. unfold Layer_dom, Ty_tensor. simpl.
      rewrite !app_assoc. reflexivity.
    + replace (Layer_cod _) with (Layer_cod l ++ t); [apply IH; auto|].
      unfold Layer_cod, Ty_tensor. simpl. rewrite !app_assoc. reflexivity.
Qed.

Lemma chain_pad_left (t : Ty) (ls : list Layer) (s c : Ty) :
  chain s ls c ->
  chain (t ++ s)
        (map (fun l => mkLayer (Ty_tensor t (l_left l)) (l_box l) (l_right l)) ls)
        (t ++ c).
Proof.
  revert s. induction ls as [|l ls IH]; intros s; simpl.
  - congruence.
  - intros [H1 H2]. split.
    + rewrite <- H1. unfold Layer_dom, Ty_tensor. simpl.
      rewrite !app_assoc. reflexivity.
    + replace (Layer_cod _) with (t ++ Layer_cod l); [apply IH; auto|].
      unfold Layer_cod, Ty_tensor. simpl. rewrite !app_assoc. reflexivity.
Qed.

Lemma wf_lengths (d : Diagram) :
  wf d ->
  length (a_boxes (layers d)) = length (boxes d)
  /\ length (offsets d) = length (boxes d).
Proof.
  intros [_ _ _ Hb Ho]. rewrite <- Hb, <- Ho, !length_map. auto.
Qed.

Lemma Diagram_init_given (dom0 cod0 : Ty) (bs : list Box) (offs : list Z)
    (ls : Arrow) :
  length bs = length offs ->
  Diagram_init dom0 cod0 bs offs (Some ls) = Ok (mkDiagram dom0 cod0 bs offs ls).
Proof.
  intros H. unfold Diagram_init. rewrite H, Nat.eqb_refl. reflexivity.
Qed.

Lemma wf_Id (x : Ty) : wf (Id x).
Proof. constructor; reflexivity. Qed.

Lemma wf_Box_diagram (f : Box) : wf (Box_diagram f).
Proof.
  constructor; simpl; auto.
  unfold Layer_dom, Layer_cod, Ty_tensor. simpl. rewrite !app_nil_r. auto.
Qed.

(** Sequential composition of well-formed diagrams whose types match. *)
Lemma then_ok (d e : Diagram) :
  wf d -> wf e -> d_cod d = d_dom e ->
  then_ d e =
  Ok (mkDiagram (d_dom d) (d_cod e) (boxes d ++ boxes e)
                (offsets d ++ offsets e)
                (mkArrow (d_dom d) (d_cod e)
                         (a_boxes (layers d) ++ a_boxes (layers e)))).
Proof.
  intros Hd He H. unfold then_.
  rewrite cat_then_ok by (rewrite (wf_cod d Hd), (wf_dom e He); exact H).
  simpl. rewrite Diagram_init_given.
  - rewrite (wf_dom d Hd), (wf_cod e He). reflexivity.
  - rewrite !length_app.
    destruct (wf_lengths d Hd) as [_ ->]. destruct (wf_lengths e He) as [_ ->].
    reflexivity.
Qed.

Lemma then_wf (d e r : Diagram) :
  wf d -> wf e -> then_ d e = Ok r -> wf r.
Proof.
  intros Hd He H.
  assert (E : d_cod d = d_dom e).
  { unfold then_ in H. destruct (Ty_eq (a_cod (layers d)) (a_dom (layers e))) eqn:T.
    - apply Ty_eq_eq in T. rewrite (wf_cod d Hd), (wf_dom e He) in T. exact T.
    - unfold cat_then in H. rewrite T in H. discriminate. }
  rewrite then_ok in H by auto. inversion H; subst r; clear H.
  constructor; simpl; auto.
  - apply chain_app. exists (d_cod d). split.
    + apply (wf_chain d Hd).
    + rewrite E. apply (wf_chain e He).
  - rewrite map_app, (wf_boxes d Hd), (wf_boxes e He). reflexivity.
  - rewrite map_app, (wf_offsets d Hd), (wf_offsets e He). reflexivity.
Qed.

(** Sequential composition fails when the types do not match. *)
Lemma then_mismatch (d e : Diagram) :
  wf d -> wf e -> d_cod d <> d_dom e -> then_ d e = Raise AxiomError.
Proof.
  intros Hd He H. unfold then_.
  rewrite cat_then_mismatch; auto.
  rewrite (wf_cod d Hd), (wf_dom e He). exact H.
Qed.

(** Parallel composition of well-formed diagrams. *)
Lemma tensor_ok (d e : Diagram) :
  wf d -> wf e ->
  tensor d e =
  Ok (mkDiagram (d_dom d ++ d_dom e) (d_cod d ++ d_cod e)
        (boxes d ++ boxes e)
        (offsets d ++ map (fun n => n + len (d_cod d)) (offsets e))
        (mkArrow (d_dom d ++ d_dom e) (d_cod d ++ d_cod e)
           (map (fun l => mkLayer (l_left l) (l_box l)
                                  (Ty_tensor (l_right l) (d_dom e)))
                (a_boxes (layers d))
            ++ map (fun l => mkLayer (Ty_tensor (d_cod d) (l_left l))
                                     (l_box l) (l_right l))
                   (a_boxes (layers e))))).
Proof.
  intros Hd He. unfold tensor, Ty_tensor.
  rewrite (compose_layers_chain _ _ (d_cod d ++ d_dom e))
    by (apply chain_pad_right, (wf_chain d Hd)).
  cbn [bind a_dom a_boxes cat_Id app].
  rewrite (compose_layers_chain _ _ (d_cod d ++ d_cod e))
    by (apply chain_pad_left, (wf_chain e He)).
  cbn [bind a_dom a_boxes].
  rewrite Diagram_init_given; auto.
  rewrite !length_app, length_map.
  destruct (wf_lengths d Hd) as [_ ->]. destruct (wf_lengths e He) as [_ ->].
  reflexivity.
Qed.

Lemma tensor_wf (d e r : Diagram) :
  wf d -> wf e -> tensor d e = Ok r -> wf r.
Proof.
  intros Hd He H. rewrite tensor_ok in H by auto.
  inversion H; subst r; clear H.
  constructor; simpl; auto.
  - apply chain_app. exists (d_cod d ++ d_dom e). split.
    + apply chain_pad_right, (wf_chain d Hd).
    + apply chain_pad_left, (wf_chain e He).
  - rewrite map_app, !map_map. simpl.
    f_equal; [apply (wf_boxes d Hd) | apply (wf_boxes e He)].
  - rewrite map_app, !map_map. simpl.
    f_equal; [apply (wf_offsets d Hd)|].
    rewrite <- (wf_offsets e He), map_map.
    apply map_ext. intros l. unfold Ty_tensor.
    rewrite len_app. lia.
Qed.

(* ================================================================== *)
(** * The unit interchange on a well-formed diagram *)
(* ================================================================== *)

Lemma len_map {A B} (f : A -> B) (l : list A) : len (map f l) = len l.
Proof. unfold len. rewrite length_map. reflexivity. Qed.

Lemma app_split_at {A} (c a b d : list A) :
  a ++ b = c ++ d -> len c <= len a -> exists m, a = c ++ m /\ d = m ++ b.
Proof.
  unfold len. revert a. induction c as [|x c IH]; intros a H L; simpl in *.
  - exists a. auto.
  - destruct a as [|y a]; simpl in *; [lia|].
    inversion H; subst y. destruct (IH a) as (m & -> & ->); auto; [lia|].
    exists m. auto.
Qed.

Lemma py_index_app_mid2 {A} (a b : list A) (x y : A) :
  py_index (a ++ x :: y :: b) (len a + 1) = Ok y.
Proof.
  replace (a ++ x :: y :: b) with ((a ++ [x]) ++ y :: b)
    by (rewrite <- app_assoc; reflexivity).
  replace (len a + 1) with (len (a ++ [x])).
  - apply py_index_app_mid.
  - rewrite len_app. reflexivity.
Qed.

Lemma py_slice_prefix {A} (a b : list A) :
  py_slice (a ++ b) None (Some (len a)) = a.
Proof.
  unfold py_slice, len. rewrite py_clip_inrange, Nat2Z.id.
  - rewrite Nat.sub_0_r. simpl.
    rewrite firstn_app, Nat.sub_diag, firstn_all. simpl. apply app_nil_r.
  - rewrite length_app. lia.
Qed.

Lemma py_slice_suffix {A} (a b : list A) :
  py_slice (a ++ b) (Some (len a)) None = b.
Proof.
  unfold py_slice, len. rewrite py_clip_inrange, Nat2Z.id.
  - rewrite skipn_app, Nat.sub_diag, skipn_all. simpl.
    rewrite length_app. apply firstn_all2. lia.
  - rewrite length_app. lia.
Qed.

(** The layers before index [len pre], as [layers[:i]] gives them. *)
Lemma cat_getslice_prefix (f : Arrow) (pre rest : list Layer) (l : Layer) :
  chain (a_dom f) (a_boxes f) (a_cod f) ->
  a_boxes f = pre ++ l :: rest ->
  cat_getslice f (mkSlice None (Some (len pre)) None)
  = Ok (mkArrow (a_dom f) (Layer_dom l) pre).
Proof.
  intros C E. unfold cat_getslice. cbn [s_step s_start negb Z.eqb].
  cbv iota. rewrite py_getslice_step1, E, py_slice_prefix. cbn [bind].
  rewrite E in C. apply chain_app in C. destruct C as (m & C1 & C2 & _).
  destruct pre as [|p pre].
  - simpl in C1. subst m. cbn [app].
    assert (L : (len (l :: rest) <=? 0) = false).
    { apply Z.leb_gt. unfold len. simpl. lia. }
    rewrite L.
    assert (L2 : (0 <=? - len (l :: rest)) = false).
    { apply Z.leb_gt. unfold len. simpl. lia. }
    rewrite L2.
    change (py_index (l :: rest) 0) with (py_index ([] ++ l :: rest) (len (@nil Layer))).
    rewrite py_index_app_mid. cbn [bind]. unfold cat_Id.
    rewrite C2. reflexivity.
  - rewrite (chain_last pre p (a_dom f) m p C1).
    destruct C1 as [-> _]. rewrite C2. reflexivity.
Qed.

(** The layers from index [len pre] on, as [layers[i:]] gives them. *)
Lemma cat_getslice_suffix (f : Arrow) (pre rest : list Layer) (m : Ty) :
  chain m rest (a_cod f) ->
  a_boxes f = pre ++ rest ->
  pre <> [] ->
  cat_getslice f (mkSlice (Some (len pre)) None None)
  = Ok (mkArrow m (a_cod f) rest).
Proof.
  intros C E P. unfold cat_getslice. cbn [s_step s_start negb Z.eqb].
  cbv iota. rewrite py_getslice_step1, E, py_slice_suffix. cbn [bind].
  destruct rest as [|r rest].
  - simpl in C. subst m. rewrite app_nil_r, Z.leb_refl. reflexivity.
  - rewrite (chain_last rest r m (a_cod f) r C).
    destruct C as [-> _]. reflexivity.
Qed.

(** What the two rewrites of a unit interchange do to a pair of
    consecutive layers, "box0 right of box1" first. *)
Lemma box0_right_of_box1_ok (l0 l1 : Layer) :
  Layer_cod l0 = Layer_dom l1 ->
  len (l_left l1) + len (dom (l_box l1)) <= len (l_left l0) ->
  let '(off0, off1, layer0, layer1) :=
    box0_right_of_box1 (len (l_left l0)) (len (l_left l1)) l0 l1 in
  Layer_dom layer1 = Layer_dom l0
  /\ Layer_cod layer1 = Layer_dom layer0
  /\ Layer_cod layer0 = Layer_cod l1
  /\ l_box layer0 = l_box l0 /\ l_box layer1 = l_box l1
  /\ len (l_left layer0) = off0 /\ len (l_left layer1) = off1.
Proof.
  destruct l0 as [left0 box0 right0], l1 as [left1 box1 right1].
  unfold Layer_cod, Layer_dom, box0_right_of_box1, Ty_tensor. simpl.
  intros E L.
  rewrite <- app_assoc in E.
  destruct (app_split_at (left1 ++ dom box1) left0 (cod box0 ++ right0) right1)
    as (m & -> & ->); auto.
  { rewrite len_app. lia. }
  rewrite slice_from_app.
  repeat split; auto;
    repeat rewrite len_app; repeat rewrite <- app_assoc; auto; lia.
Qed.

Lemma box0_left_of_box1_ok (l0 l1 : Layer) :
  Layer_cod l0 = Layer_dom l1 ->
  len (l_left l0) + len (cod (l_box l0)) <= len (l_left l1) ->
  let '(off0, off1, layer0, layer1) :=
    box0_left_of_box1 (len (l_left l0)) (len (l_left l1)) l0 l1 in
  Layer_dom layer1 = Layer_dom l0
  /\ Layer_cod layer1 = Layer_dom layer0
  /\ Layer_cod layer0 = Layer_cod l1
  /\ l_box layer0 = l_box l0 /\ l_box layer1 = l_box l1
  /\ len (l_left layer0) = off0 /\ len (l_left layer1) = off1.
Proof.
  destruct l0 as [left0 box0 right0], l1 as [left1 box1 right1].
  unfold Layer_cod, Layer_dom, box0_left_of_box1, Ty_tensor. simpl.
  intros E L. symmetry in E.
  rewrite <- app_assoc in E.
  destruct (app_split_at (left0 ++ cod box0) left1 (dom box1 ++ right1) right0)
    as (m & -> & ->); auto.
  { rewrite len_app. lia. }
  rewrite slice_from_app.
  repeat split; auto;
    repeat rewrite len_app; repeat rewrite <- app_assoc; auto; lia.
Qed.

(** Whichever rewrite the three-way test chooses, the new pair of layers
    fits where the old pair was. *)
Lemma interchange_move_ok (left : bool) (l0 l1 : Layer)
    (off0 off1 : Z) (layer0 layer1 : Layer) :
  Layer_cod l0 = Layer_dom l1 ->
  interchange_move left (len (l_left l0)) (len (l_left l1)) l0 l1
    = Ok (off0, off1, layer0, layer1) ->
  Layer_dom layer1 = Layer_dom l0
  /\ Layer_cod layer1 = Layer_dom layer0
  /\ Layer_cod layer0 = Layer_cod l1
  /\ l_box layer0 = l_box l0 /\ l_box layer1 = l_box l1
  /\ len (l_left layer0) = off0 /\ len (l_left layer1) = off1.
Proof.
  intros E. unfold interchange_move.
  pose proof (box0_right_of_box1_ok l0 l1 E) as R.
  pose proof (box0_left_of_box1_ok l0 l1 E) as L.
  destruct (len (l_left l0) + len (cod (l_box l0)) <=? len (l_left l1)) eqn:T1;
  destruct (len (l_left l1) + len (dom (l_box l1)) <=? len (l_left l0)) eqn:T2;
  destruct left; simpl;
  try (apply Z.leb_le in T1; specialize (L T1));
  try (apply Z.leb_le in T2; specialize (R T2));
  intros H; inversion H; subst; clear H;
  try exact L; try exact R.
Qed.

Lemma py_index_at {A} (a b : list A) (x : A) (i : Z) :
  i = len a -> py_index (a ++ x :: b) i = Ok x.
Proof. intros ->. apply py_index_app_mid. Qed.

Lemma py_index_at2 {A} (a b : list A) (x y : A) (i : Z) :
  i = len a + 1 -> py_index (a ++ x :: y :: b) i = Ok y.
Proof. intros ->. apply py_index_app_mid2. Qed.

Lemma slice_to_at {A} (a b : list A) (i : Z) :
  i = len a -> slice_to (a ++ b) i = a.
Proof. intros ->. apply slice_to_app. Qed.

Lemma slice_from_at {A} (a b : list A) (i : Z) :
  i = len a -> slice_from (a ++ b) i = b.
Proof. intros ->. apply slice_from_app. Qed.

Lemma slice_from_at2 {A} (a b : list A) (x y : A) (i : Z) :
  i = len a + 2 -> slice_from (a ++ x :: y :: b) i = b.
Proof.
  intros ->.
  replace (a ++ x :: y :: b) with ((a ++ [x; y]) ++ b)
    by (rewrite <- app_assoc; reflexivity).
  apply slice_from_at. rewrite len_app. reflexivity.
Qed.

Ltac bool_by_lia :=
  repeat match goal with
  | |- context [?a <=? ?b] =>
      first [ replace (a <=? b) with true by (symmetry; apply Z.leb_le; lia)
            | replace (a <=? b) with false by (symmetry; apply Z.leb_gt; lia) ]
  | |- context [?a <? ?b] =>
      first [ replace (a <? b) with true by (symmetry; apply Z.ltb_lt; lia)
            | replace (a <? b) with false by (symmetry; apply Z.ltb_ge; lia) ]
  | |- context [?a =? ?b] =>
      first [ replace (a =? b) with true by (symmetry; apply Z.eqb_eq; lia)
            | replace (a =? b) with false by (symmetry; apply Z.eqb_neq; lia) ]
  end.

(** The adjacent case of [interchange] on a well-formed diagram whose
    layers are [pre ++ l0 :: l1 :: post], at [i = len(pre)], [j = i + 1]. *)
Lemma interchange_body_unit
    (rec : Diagram -> Z -> Z -> bool -> result Diagram)
    (left : bool) (d : Diagram) (pre post : list Layer) (l0 l1 : Layer) :
  wf d ->
  a_boxes (layers d) = pre ++ l0 :: l1 :: post ->
  interchange_body rec d (len pre) (len pre + 1) left =
  (moved <- interchange_move left (len (l_left l0)) (len (l_left l1)) l0 l1 ;;
   Ok (spliced d pre post l0 l1 moved)).
Proof.
  intros W E.
  pose proof (wf_boxes d W) as Hb. pose proof (wf_offsets d W) as Ho.
  pose proof (wf_chain d W) as Hc.
  rewrite E in Hb, Ho, Hc. rewrite map_app in Hb, Ho. simpl in Hb, Ho.
  apply chain_app in Hc. destruct Hc as (s & C1 & C2 & C3 & C4).
  assert (N : Diagram_len d = len pre + 2 + len post).
  { unfold Diagram_len. rewrite <- Hb, len_app, len_map. unfold len. simpl.
    rewrite length_map. lia. }
  pose proof (len_nonneg pre) as P0. pose proof (len_nonneg post) as P1.
  unfold interchange_body. rewrite N. cbv zeta.
  bool_by_lia. cbn [negb andb orb].
  rewrite <- Ho, <- Hb, E.
  rewrite (py_index_at (map (fun l => len (l_left l)) pre))
    by (rewrite len_map; reflexivity).
  rewrite (py_index_at2 (map (fun l => len (l_left l)) pre))
    by (rewrite len_map; reflexivity).
  rewrite (py_index_at pre) by reflexivity.
  rewrite (py_index_at2 pre) by reflexivity.
  cbn [bind].
  destruct (interchange_move left (len (l_left l0)) (len (l_left l1)) l0 l1)
    as [[[[off0 off1] layer0] layer1]|e] eqn:M; [|reflexivity].
  cbn [bind].
  destruct (interchange_move_ok left l0 l1 off0 off1 layer0 layer1)
    as (M1 & M2 & M3 & M4 & M5 & M6 & M7); auto.
  rewrite (cat_getslice_prefix (layers d) pre (l1 :: post) l0);
    [| rewrite (wf_dom d W), (wf_cod d W); apply (wf_chain d W) | exact E].
  cbn [bind]. unfold then_layer.
  rewrite cat_then_ok by (simpl; congruence). cbn [bind].
  rewrite cat_then_ok by (simpl; congruence). cbn [bind].
  replace (len pre + 2) with (len (pre ++ [l0; l1]))
    by (rewrite len_app; reflexivity).
  rewrite (cat_getslice_suffix (layers d) (pre ++ [l0; l1]) post (Layer_cod l1));
    [| rewrite (wf_cod d W); exact C4
     | rewrite E, <- app_assoc; reflexivity
     | destruct pre; discriminate].
  cbn [bind].
  rewrite cat_then_ok by (simpl; congruence). cbn [bind].
  cbn [a_dom a_cod a_boxes Layer_arrow].
  rewrite !slice_to_at by (rewrite len_map; reflexivity).
  rewrite !slice_from_at2 by (rewrite len_app, len_map; reflexivity).
  rewrite Diagram_init_given.
  - unfold spliced. rewrite (wf_dom d W), (wf_cod d W).
    rewrite <- !app_assoc. reflexivity.
  - rewrite !length_app, !length_map. reflexivity.
Qed.

Lemma list_split_pair {A} (l : list A) (i : nat) :
  (S i < length l)%nat ->
  exists pre x y post, l = pre ++ x :: y :: post /\ length pre = i.
Proof.
  intros H.
  destruct (skipn i l) as [|x [|y post]] eqn:S.
  - apply (f_equal (@length A)) in S. rewrite length_skipn in S. simpl in S. lia.
  - apply (f_equal (@length A)) in S. rewrite length_skipn in S. simpl in S. lia.
  - exists (firstn i l), x, y, post. split.
    + rewrite <- S. symmetry. apply firstn_skipn.
    + rewrite length_firstn. lia.
Qed.

Lemma app_inj_length {A} (a a' b b' : list A) :
  length a = length a' -> a ++ b = a' ++ b' -> a = a' /\ b = b'.
Proof.
  revert a'. induction a as [|x a IH]; intros [|x' a'] L E; simpl in *;
    try discriminate; auto.
  inversion E; subst. destruct (IH a') as [-> ->]; auto.
Qed.

(** The layers of a well-formed diagram around two consecutive indices. *)
Lemma wf_split (d : Diagram) (i : Z) :
  wf d -> 0 <= i -> i + 1 < Diagram_len d ->
  exists pre l0 l1 post,
    a_boxes (layers d) = pre ++ l0 :: l1 :: post /\ len pre = i.
Proof.
  intros W H0 H1. destruct (wf_lengths d W) as [L _].
  unfold Diagram_len, len in H1.
  destruct (list_split_pair (a_boxes (layers d)) (Z.to_nat i))
    as (pre & l0 & l1 & post & E & P); [lia|].
  exists pre, l0, l1, post. split; auto. unfold len. lia.
Qed.

(** With adjacent (or equal, or out of range) indices, [interchange] does
    not call itself. *)
Lemma interchange_body_no_rec
    (r1 r2 : Diagram -> Z -> Z -> bool -> result Diagram)
    (d : Diagram) (i j : Z) (left : bool) :
  Z.abs (i - j) <= 1 ->
  interchange_body r1 d i j left = interchange_body r2 d i j left.
Proof.
  intros H. unfold interchange_body.
  destruct (negb ((0 <=? i) && (i <? Diagram_len d))
            || negb ((0 <=? j) && (j <? Diagram_len d))); auto.
  destruct (i =? j); auto.
  destruct (j <? i - 1) eqn:E1; [apply Z.ltb_lt in E1; lia|].
  destruct (i + 1 <? j) eqn:E2; [apply Z.ltb_lt in E2; lia|].
  reflexivity.
Qed.

Lemma fold_left_ext {A B} (f g : A -> B -> A) (l : list B) (a : A) :
  (forall x y, f x y = g x y) -> fold_left f l a = fold_left g l a.
Proof.
  intros H. revert a. induction l as [|y l IH]; intros a; simpl; auto.
  rewrite H. apply IH.
Qed.

(** [interchange] satisfies the recursive equation of the method. *)
Lemma interchange_unfold (d : Diagram) (i j : Z) (left : bool) :
  interchange d i j left = interchange_body interchange d i j left.
Proof.
  unfold interchange at 1. unfold interchange_body.
  destruct (negb ((0 <=? i) && (i <? Diagram_len d))
            || negb ((0 <=? j) && (j <? Diagram_len d))); auto.
  destruct (i =? j); auto.
  destruct (j <? i - 1).
  - apply fold_left_ext. intros [r|e] k; simpl; auto.
    apply interchange_body_no_rec. lia.
  - destruct (i + 1 <? j); auto.
    apply fold_left_ext. intros [r|e] k; simpl; auto.
    apply interchange_body_no_rec. lia.
Qed.

(** The two orders of a pair of adjacent indices give the same swap. *)
Lemma interchange_body_adjacent_sym
    (rec : Diagram -> Z -> Z -> bool -> result Diagram)
    (d : Diagram) (i : Z) (left : bool) :
  interchange_body rec d (i + 1) i left = interchange_body rec d i (i + 1) left.
Proof.
  unfold interchange_body.
  rewrite (orb_comm (negb ((0 <=? i + 1) && (i + 1 <? Diagram_len d)))).
  destruct (negb ((0 <=? i) && (i <? Diagram_len d))
            || negb ((0 <=? i + 1) && (i + 1 <? Diagram_len d))); auto.
  bool_by_lia. reflexivity.
Qed.

(** A unit interchange of a well-formed diagram, by the layers around the
    two indices. *)
Lemma interchange_unit (left : bool) (d : Diagram)
    (pre post : list Layer) (l0 l1 : Layer) :
  wf d ->
  a_boxes (layers d) = pre ++ l0 :: l1 :: post ->
  interchange d (len pre) (len pre + 1) left =
  (moved <- interchange_move left (len (l_left l0)) (len (l_left l1)) l0 l1 ;;
   Ok (spliced d pre post l0 l1 moved)).
Proof. apply interchange_body_unit. Qed.

Lemma interchange_unit_sym (d : Diagram) (i : Z) (left : bool) :
  interchange d (i + 1) i left = interchange d i (i + 1) left.
Proof. apply interchange_body_adjacent_sym. Qed.

(** The result of a unit interchange is well formed. *)
Lemma spliced_wf (left : bool) (d : Diagram) (pre post : list Layer)
    (l0 l1 : Layer) (moved : Z * Z * Layer * Layer) :
  wf d ->
  a_boxes (layers d) = pre ++ l0 :: l1 :: post ->
  interchange_move left (len (l_left l0)) (len (l_left l1)) l0 l1 = Ok moved ->
  wf (spliced d pre post l0 l1 moved).
Proof.
  intros W E M. destruct moved as [[[off0 off1] layer0] layer1].
  pose proof (wf_chain d W) as Hc. rewrite E in Hc.
  apply chain_app in Hc. destruct Hc as (s & C1 & C2 & C3 & C4).
  destruct (interchange_move_ok left l0 l1 off0 off1 layer0 layer1)
    as (M1 & M2 & M3 & M4 & M5 & M6 & M7); auto.
  constructor; simpl; auto.
  - apply chain_app. exists s. split; auto. simpl.
    split; [congruence|]. split; [congruence|]. rewrite M3. exact C4.
  - rewrite map_app. simpl. rewrite M4, M5. reflexivity.
  - rewrite map_app. simpl. rewrite M6, M7. reflexivity.
Qed.

Lemma interchange_move_raises (left : bool) (off0 off1 : Z) (l0 l1 : Layer)
    (e : Error) :
  interchange_move left off0 off1 l0 l1 = Raise e ->
  e = InterchangerError (l_box l0) (l_box l1).
Proof.
  unfold interchange_move.
  destruct (left && (off0 + len (cod (l_box l0)) <=? off1)); [discriminate|].
  destruct (off1 + len (dom (l_box l1)) <=? off0); [discriminate|].
  destruct (off0 + len (cod (l_box l0)) <=? off1); [discriminate|].
  congruence.
Qed.

(** Summary for a well-formed diagram and indices [i], [i + 1] in range:
    the unit interchange either returns a well-formed diagram with the two
    boxes exchanged, or raises [InterchangerError]. *)
Lemma interchange_unit_cases (left : bool) (d : Diagram) (i : Z) :
  wf d -> 0 <= i -> i + 1 < Diagram_len d ->
  exists pre l0 l1 post,
    a_boxes (layers d) = pre ++ l0 :: l1 :: post /\ len pre = i
    /\ ((exists moved,
           interchange_move left (len (l_left l0)) (len (l_left l1)) l0 l1
             = Ok moved
           /\ interchange d i (i + 1) left = Ok (spliced d pre post l0 l1 moved)
           /\ wf (spliced d pre post l0 l1 moved))
        \/ (interchange_move left (len (l_left l0)) (len (l_left l1)) l0 l1
              = Raise (InterchangerError (l_box l0) (l_box l1))
            /\ interchange d i (i + 1) left
               = Raise (InterchangerError (l_box l0) (l_box l1)))).
Proof.
  intros W H0 H1.
  destruct (wf_split d i W H0 H1) as (pre & l0 & l1 & post & E & P).
  exists pre, l0, l1, post. split; [exact E|]. split; [exact P|].
  subst i. rewrite (interchange_unit left d pre post l0 l1 W E).
  destruct (interchange_move left (len (l_left l0)) (len (l_left l1)) l0 l1)
    as [moved|e] eqn:M.
  - left. exists moved. split; [reflexivity|]. split; [reflexivity|].
    eapply spliced_wf; eauto.
  - right. apply interchange_move_raises in M as M'. subst e. auto.
Qed.

(* ================================================================== *)
(** * Interchange of distant boxes *)
(* ================================================================== *)

Lemma skipn_cons_nth {A} (r : list A) (p : nat) :
  (p < length r)%nat ->
  exists y, skipn p r = y :: skipn (S p) r
            /\ firstn (S p) r = firstn p r ++ [y].
Proof.
  revert r. induction p as [|p IH]; intros [|z r] H; simpl in *; try lia.
  - exists z. auto.
  - destruct (IH r) as (y & E1 & E2); [lia|].
    exists y. split; auto. rewrite E2. reflexivity.
Qed.

Lemma list_move_same {A} (l : list A) (i : nat) : list_move l i i = l.
Proof.
  unfold list_move. destruct (nth_error l i) as [x|] eqn:N; auto.
  assert (L : (i < length l)%nat) by (apply nth_error_Some; congruence).
  apply nth_error_split in N. destruct N as (a & b & -> & <-).
  assert (F : forall c : list A, firstn (length a) (a ++ c) = a).
  { intros c. rewrite firstn_app, Nat.sub_diag, firstn_all. simpl.
    apply app_nil_r. }
  assert (S1 : forall c : list A, skipn (length a) (a ++ c) = c).
  { intros c. rewrite skipn_app, Nat.sub_diag, skipn_all. reflexivity. }
  assert (S2 : skipn (S (length a)) (a ++ x :: b) = b).
  { change (S (length a)) with (1 + length a)%nat.
    rewrite <- skipn_skipn, S1. reflexivity. }
  rewrite S2, !F, S1. reflexivity.
Qed.

Lemma list_move_rest_length {A} (l : list A) (i : nat) :
  (i < length l)%nat ->
  S (length (firstn i l ++ skipn (S i) l)) = length l.
Proof.
  intros H. rewrite length_app, length_firstn, length_skipn. lia.
Qed.

(** Moving to [p] and moving to [p + 1] differ by one adjacent swap. *)
Lemma list_move_step {A} (l : list A) (i p : nat) (x : A) :
  nth_error l i = Some x -> (S p < length l)%nat ->
  exists P y Q,
    length P = p
    /\ list_move l i p = P ++ x :: y :: Q
    /\ list_move l i (S p) = P ++ y :: x :: Q.
Proof.
  intros N H. unfold list_move. rewrite N.
  assert (L : (i < length l)%nat) by (apply nth_error_Some; congruence).
  pose proof (list_move_rest_length l i L) as R.
  set (rest := firstn i l ++ skipn (S i) l) in *.
  destruct (skipn_cons_nth rest p) as (y & E1 & E2); [lia|].
  exists (firstn p rest), y, (skipn (S p) rest). repeat split.
  - rewrite length_firstn. lia.
  - rewrite E1. reflexivity.
  - rewrite E2, <- app_assoc. reflexivity.
Qed.

Lemma list_move_length {A} (l : list A) (i j : nat) :
  length (list_move l i j) = length l.
Proof.
  unfold list_move. destruct (nth_error l i) as [x|] eqn:N; auto.
  assert (L : (i < length l)%nat) by (apply nth_error_Some; congruence).
  pose proof (list_move_rest_length l i L) as R.
  set (rest := firstn i l ++ skipn (S i) l) in *.
  rewrite <- (firstn_skipn j rest) in R.
  rewrite length_app in *. simpl. lia.
Qed.

(** The moved element is at its new position. *)
Lemma list_move_nth {A} (l : list A) (i j : nat) :
  (i < length l)%nat -> (j < length l)%nat ->
  nth_error (list_move l i j) j = nth_error l i.
Proof.
  intros Hi Hj. unfold list_move.
  destruct (nth_error l i) as [x|] eqn:N.
  - pose proof (list_move_rest_length l i Hi) as R.
    set (rest := firstn i l ++ skipn (S i) l) in *.
    assert (F : length (firstn j rest) = j) by (rewrite length_firstn; lia).
    rewrite nth_error_app2 by lia. rewrite F, Nat.sub_diag. reflexivity.
  - apply nth_error_None in N. lia.
Qed.

Lemma spliced_boxes (d : Diagram) (pre post : list Layer) (l0 l1 : Layer)
    (moved : Z * Z * Layer * Layer) :
  boxes (spliced d pre post l0 l1 moved)
  = map l_box pre ++ l_box l1 :: l_box l0 :: map l_box post
  /\ d_dom (spliced d pre post l0 l1 moved) = d_dom d
  /\ d_cod (spliced d pre post l0 l1 moved) = d_cod d.
Proof. destruct moved as [[[o0 o1] y0] y1]. simpl. auto. Qed.

(** A successful unit interchange exchanges the two boxes and keeps the
    diagram well formed. *)
Lemma interchange_unit_boxes (left : bool) (d r : Diagram) (i : Z)
    (P Q : list Box) (x y : Box) :
  wf d -> boxes d = P ++ x :: y :: Q -> len P = i ->
  interchange d i (i + 1) left = Ok r ->
  wf r /\ boxes r = P ++ y :: x :: Q
  /\ d_dom r = d_dom d /\ d_cod r = d_cod d.
Proof.
  intros W B L H.
  assert (H1 : i + 1 < Diagram_len d).
  { unfold Diagram_len. rewrite B, len_app. unfold len in *. simpl. lia. }
  assert (H0 : 0 <= i) by (subst i; apply len_nonneg).
  destruct (interchange_unit_cases left d i W H0 H1)
    as (pre & l0 & l1 & post & E & Lp & [(moved & M & I & Wr)|[_ I]]).
  - rewrite I in H. inversion H; subst r; clear H.
    destruct (spliced_boxes d pre post l0 l1 moved) as (Bs & Ds & Cs).
    split; [exact Wr|]. split; [|split; assumption].
    rewrite Bs. pose proof (wf_boxes d W) as Hb.
    rewrite E, map_app, B in Hb. simpl in Hb.
    apply app_inj_length in Hb.
    + destruct Hb as [-> Hb]. inversion Hb; subst. reflexivity.
    + rewrite length_map. unfold len in *. lia.
  - rewrite I in H. discriminate.
Qed.

Lemma range_S (m : nat) :
  range (Z.of_nat (S m)) = range (Z.of_nat m) ++ [Z.of_nat m].
Proof.
  unfold range. rewrite !Nat2Z.id, seq_S, map_app. reflexivity.
Qed.

Lemma swaps_up_S (left : bool) (d : Diagram) (i : Z) (m : nat) :
  swaps_up left d i (S m) =
  (r <- swaps_up left d i m ;;
   interchange r (i + Z.of_nat m) (i + Z.of_nat m + 1) left).
Proof.
  unfold swaps_up. rewrite range_S, fold_left_app. reflexivity.
Qed.

Lemma swaps_down_S (left : bool) (d : Diagram) (i : Z) (m : nat) :
  swaps_down left d i (S m) =
  (r <- swaps_down left d i m ;;
   interchange r (i - Z.of_nat m) (i - Z.of_nat m - 1) left).
Proof.
  unfold swaps_down. rewrite range_S, fold_left_app. reflexivity.
Qed.

Lemma nth_error_in_range {A} (l : list A) (i : Z) :
  0 <= i < len l -> exists x, nth_error l (Z.to_nat i) = Some x.
Proof.
  intros H. destruct (nth_error l (Z.to_nat i)) eqn:N; eauto.
  apply nth_error_None in N. unfold len in H. lia.
Qed.

(** After [m] unit interchanges upward, box [i] sits at [i + m]. *)
Lemma swaps_up_boxes (left : bool) (d : Diagram) (i : Z) (m : nat) :
  wf d -> 0 <= i -> i + Z.of_nat m < Diagram_len d ->
  forall r, swaps_up left d i m = Ok r ->
  wf r /\ d_dom r = d_dom d /\ d_cod r = d_cod d
  /\ boxes r = list_move (boxes d) (Z.to_nat i) (Z.to_nat i + m).
Proof.
  intros W H0. induction m as [|m IH]; intros H1 r H.
  - unfold swaps_up in H. simpl in H. inversion H; subst r.
    rewrite Nat.add_0_r, list_move_same. auto.
  - rewrite swaps_up_S in H.
    destruct (swaps_up left d i m) as [r'|e] eqn:Sw; [|discriminate].
    simpl in H. destruct (IH ltac:(lia) r' eq_refl) as (W' & D' & C' & B').
    destruct (nth_error_in_range (boxes d) i) as [x N];
      [unfold Diagram_len in H1; lia|].
    destruct (list_move_step (boxes d) (Z.to_nat i) (Z.to_nat i + m) x N)
      as (P & y & Q & LP & E1 & E2).
    { unfold Diagram_len, len in H1. lia. }
    destruct (interchange_unit_boxes left r' r (i + Z.of_nat m) P Q x y)
      as (Wr & Br & Dr & Cr); auto.
    { congruence. }
    { unfold len. lia. }
    split; [exact Wr|]. split; [congruence|]. split; [congruence|].
    rewrite Br, Nat.add_succ_r. congruence.
Qed.

(** After [m] unit interchanges downward, box [i] sits at [i - m]. *)
Lemma swaps_down_boxes (left : bool) (d : Diagram) (i : Z) (m : nat) :
  wf d -> i < Diagram_len d -> 0 <= i - Z.of_nat m ->
  forall r, swaps_down left d i m = Ok r ->
  wf r /\ d_dom r = d_dom d /\ d_cod r = d_cod d
  /\ boxes r = list_move (boxes d) (Z.to_nat i) (Z.to_nat i - m).
Proof.
  intros W H1. induction m as [|m IH]; intros H0 r H.
  - unfold swaps_down in H. simpl in H. inversion H; subst r.
    rewrite Nat.sub_0_r, list_move_same. auto.
  - rewrite swaps_down_S in H.
    destruct (swaps_down left d i m) as [r'|e] eqn:Sw; [|discriminate].
    simpl in H. destruct (IH ltac:(lia) r' eq_refl) as (W' & D' & C' & B').
    destruct (nth_error_in_range (boxes d) i) as [x N];
      [unfold Diagram_len in H1; lia|].
    destruct (list_move_step (boxes d) (Z.to_nat i) (Z.to_nat i - S m) x N)
      as (P & y & Q & LP & E1 & E2).
    { unfold Diagram_len, len in H1. lia. }
    replace (S (Z.to_nat i - S m)) with (Z.to_nat i - m)%nat in E2 by lia.
    replace (i - Z.of_nat m) with (i - Z.of_nat m - 1 + 1) in H at 1 by lia.
    rewrite interchange_unit_sym in H.
    destruct (interchange_unit_boxes left r' r (i - Z.of_nat m - 1) P Q y x)
      as (Wr & Br & Dr & Cr); auto.
    { congruence. }
    { unfold len. lia. }
    split; [exact Wr|]. split; [congruence|]. split; [congruence|].
    congruence.
Qed.

(** A failing run of unit interchanges fails at its first failing one. *)
Lemma swaps_up_raise (left : bool) (d : Diagram) (i : Z) (n : nat) (e : Error) :
  swaps_up left d i n = Raise e ->
  exists m d', (m < n)%nat /\ swaps_up left d i m = Ok d'
    /\ interchange d' (i + Z.of_nat m) (i + Z.of_nat m + 1) left = Raise e.
Proof.
  induction n as [|n IH]; intros H.
  - discriminate.
  - rewrite swaps_up_S in H.
    destruct (swaps_up left d i n) as [r|e'] eqn:Sw.
    + exists n, r. auto.
    + simpl in H. inversion H; subst e'.
      destruct (IH eq_refl) as (m & d' & L & E1 & E2).
      exists m, d'. auto.
Qed.

Lemma swaps_down_raise (left : bool) (d : Diagram) (i : Z) (n : nat) (e : Error) :
  swaps_down left d i n = Raise e ->
  exists m d', (m < n)%nat /\ swaps_down left d i m = Ok d'
    /\ interchange d' (i - Z.of_nat m) (i - Z.of_nat m - 1) left = Raise e.
Proof.
  induction n as [|n IH]; intros H.
  - discriminate.
  - rewrite swaps_down_S in H.
    destruct (swaps_down left d i n) as [r|e'] eqn:Sw.
    + exists n, r. auto.
    + simpl in H. inversion H; subst e'.
      destruct (IH eq_refl) as (m & d' & L & E1 & E2).
      exists m, d'. auto.
Qed.

(** For [j > i + 1] and for [j < i - 1], [interchange] is the run of
    [|i - j|] unit interchanges. *)
Lemma interchange_far_up (left : bool) (d : Diagram) (i j : Z) :
  0 <= i -> j < Diagram_len d -> i + 1 < j ->
  interchange d i j left = swaps_up left d i (Z.to_nat (j - i)).
Proof.
  intros H0 H1 H. rewrite interchange_unfold. unfold interchange_body.
  bool_by_lia. cbn [negb andb orb]. unfold swaps_up.
  rewrite Z2Nat.id by lia. reflexivity.
Qed.

Lemma interchange_far_down (left : bool) (d : Diagram) (i j : Z) :
  0 <= j -> i < Diagram_len d -> j < i - 1 ->
  interchange d i j left = swaps_down left d i (Z.to_nat (i - j)).
Proof.
  intros H0 H1 H. rewrite interchange_unfold. unfold interchange_body.
  bool_by_lia. cbn [negb andb orb]. unfold swaps_down.
  rewrite Z2Nat.id by lia. reflexivity.
Qed.

Ltac wf_by_computation := constructor; simpl; repeat split.

Lemma wf_three_boxes : wf three_boxes.
Proof. wf_by_computation. Qed.

(** C1, as stated, fails: on [f0 @ f1 @ f2], [interchange(0, 2)] returns
    the boxes [f1, f2, f0]; position [0] does not hold the box that was
    at position [2], and position [1] has changed. *)
Lemma interchange_far_is_not_a_swap :
  interchange three_boxes 0 2 false = Ok three_boxes_0_to_2
  /\ boxes three_boxes_0_to_2 <> list_swap (boxes three_boxes) 0 2
  /\ nth_error (boxes three_boxes_0_to_2) 0 <> nth_error (boxes three_boxes) 2
  /\ nth_error (boxes three_boxes_0_to_2) 1 <> nth_error (boxes three_boxes) 1.
Proof.
  split; [reflexivity|].
  repeat split; intros H; vm_compute in H; discriminate.
Qed.

(** C1, amended: for a well-formed diagram [d] and indices [i], [j] in
    range with [|i - j| > 1], [d.interchange(i, j)] either returns a
    well-formed diagram with the domain and codomain of [d] whose boxes
    are those of [d] with the box at position [i] moved to position [j],
    the boxes in between shifted by one place towards [i] and all others
    unchanged; or it raises the [InterchangerError] of the first unit
    interchange that fails, the unit interchanges before it having
    succeeded. *)
Theorem interchange_far_moves_box (d : Diagram) (i j : Z) (left : bool) :
  wf d ->
  0 <= i < Diagram_len d -> 0 <= j < Diagram_len d -> 1 < Z.abs (i - j) ->
  (exists r,
      interchange d i j left = Ok r
      /\ wf r /\ d_dom r = d_dom d /\ d_cod r = d_cod d
      /\ boxes r = list_move (boxes d) (Z.to_nat i) (Z.to_nat j)
      /\ nth_error (boxes r) (Z.to_nat j) = nth_error (boxes d) (Z.to_nat i))
  \/ (exists (e : Error) (m : nat) (d' : Diagram) (b0 b1 : Box),
        interchange d i j left = Raise e
        /\ e = InterchangerError b0 b1
        /\ Z.of_nat m < Z.abs (i - j)
        /\ if i <? j
           then swaps_up left d i m = Ok d'
                /\ interchange d' (i + Z.of_nat m) (i + Z.of_nat m + 1) left
                   = Raise e
           else swaps_down left d i m = Ok d'
                /\ interchange d' (i - Z.of_nat m) (i - Z.of_nat m - 1) left
                   = Raise e).
Proof.
  intros W Hi Hj Hfar.
  assert (Li : (Z.to_nat i < length (boxes d))%nat)
    by (unfold Diagram_len, len in Hi; lia).
  assert (Lj : (Z.to_nat j < length (boxes d))%nat)
    by (unfold Diagram_len, len in Hj; lia).
  destruct (Z.ltb_spec i j) as [Lt|Ge].
  - rewrite interchange_far_up by lia.
    destruct (swaps_up left d i (Z.to_nat (j - i))) as [r|e] eqn:Sw.
    + left. exists r.
      destruct (swaps_up_boxes left d i (Z.to_nat (j - i)) W) with (r := r)
        as (Wr & Dr & Cr & Br); auto; try lia.
      replace (Z.to_nat i + Z.to_nat (j - i))%nat with (Z.to_nat j) in Br by lia.
      split; [reflexivity|]. split; [exact Wr|].
      split; [exact Dr|]. split; [exact Cr|]. split; [exact Br|].
      rewrite Br. apply list_move_nth; assumption.
    + right. destruct (swaps_up_raise left d i _ e Sw) as (m & d' & L & E1 & E2).
      destruct (swaps_up_boxes left d i m W) with (r := d')
        as (Wd & Dd & Cd & Bd); auto; try lia.
      assert (Ld : Diagram_len d' = Diagram_len d).
      { unfold Diagram_len, len. rewrite Bd, list_move_length. reflexivity. }
      destruct (interchange_unit_cases left d' (i + Z.of_nat m) Wd)
        as (pre & l0 & l1 & post & _ & _ & [(moved & _ & I & _)|[_ I]]);
        try lia; [congruence|].
      exists e, m, d', (l_box l0), (l_box l1).
      split; [reflexivity|]. split; [congruence|]. split; [lia|].
      split; assumption.
  - rewrite interchange_far_down by lia.
    destruct (swaps_down left d i (Z.to_nat (i - j))) as [r|e] eqn:Sw.
    + left. exists r.
      destruct (swaps_down_boxes left d i (Z.to_nat (i - j)) W) with (r := r)
        as (Wr & Dr & Cr & Br); auto; try lia.
      replace (Z.to_nat i - Z.to_nat (i - j))%nat with (Z.to_nat j) in Br by lia.
      split; [reflexivity|]. split; [exact Wr|].
      split; [exact Dr|]. split; [exact Cr|]. split; [exact Br|].
      rewrite Br. apply list_move_nth; assumption.
    + right.
      destruct (swaps_down_raise left d i _ e Sw) as (m & d' & L & E1 & E2).
      destruct (swaps_down_boxes left d i m W) with (r := d')
        as (Wd & Dd & Cd & Bd); auto; try lia.
      assert (Ld : Diagram_len d' = Diagram_len d).
      { unfold Diagram_len, len. rewrite Bd, list_move_length. reflexivity. }
      replace (i - Z.of_nat m) with (i - Z.of_nat m - 1 + 1) in E2 at 1 by lia.
      rewrite interchange_unit_sym in E2.
      destruct (interchange_unit_cases left d' (i - Z.of_nat m - 1) Wd)
        as (pre & l0 & l1 & post & _ & _ & [(moved & _ & I & _)|[_ I]]);
        try lia; [congruence|].
      exists e, m, d', (l_box l0), (l_box l1).
      split; [reflexivity|]. split; [congruence|]. split; [lia|].
      split; [assumption|].
      replace (i - Z.of_nat m) with (i - Z.of_nat m - 1 + 1) at 1 by lia.
      rewrite interchange_unit_sym. exact E2.
Qed.

Lemma interchange_far_moves_box_witness :
  exists r,
    interchange three_boxes 0 2 false = Ok r
    /\ boxes r = list_move (boxes three_boxes) 0 2.
Proof.
  destruct (interchange_far_moves_box three_boxes 0 2 false wf_three_boxes)
    as [(r & I & _ & _ & _ & B & _)|(e & m & d' & b0 & b1 & I & _)].
  - unfold Diagram_len, len. simpl. lia.
  - unfold Diagram_len, len. simpl. lia.
  - simpl. lia.
  - exists r. split; [exact I | exact B].
  - exfalso. vm_compute in I. discriminate.
Defined.

(* ================================================================== *)
(** * The unit interchange: inverse and failure *)
(* ================================================================== *)

Lemma spliced_fields (d : Diagram) (pre post : list Layer) (l0 l1 : Layer)
    (off0 off1 : Z) (layer0 layer1 : Layer) :
  let r := spliced d pre post l0 l1 (off0, off1, layer0, layer1) in
  d_dom r = d_dom d /\ d_cod r = d_cod d
  /\ boxes r = map l_box pre ++ l_box l1 :: l_box l0 :: map l_box post
  /\ offsets r = map (fun l => len (l_left l)) pre ++ off1 :: off0
                 :: map (fun l => len (l_left l)) post
  /\ a_boxes (layers r) = pre ++ layer1 :: layer0 :: post.
Proof. simpl. auto. Qed.

Lemma interchange_move_right (off0 off1 : Z) (l0 l1 : Layer) :
  off1 + len (dom (l_box l1)) <= off0 ->
  interchange_move false off0 off1 l0 l1
  = Ok (box0_right_of_box1 off0 off1 l0 l1).
Proof.
  intros H. unfold interchange_move. simpl.
  apply Z.leb_le in H. rewrite H. reflexivity.
Qed.

Lemma interchange_move_left (off0 off1 : Z) (l0 l1 : Layer) :
  ~ off1 + len (dom (l_box l1)) <= off0 ->
  off0 + len (cod (l_box l0)) <= off1 ->
  interchange_move false off0 off1 l0 l1
  = Ok (box0_left_of_box1 off0 off1 l0 l1).
Proof.
  intros H1 H2. unfold interchange_move. simpl.
  apply Z.leb_le in H2. rewrite H2.
  destruct (off1 + len (dom (l_box l1)) <=? off0) eqn:E; auto.
  apply Z.leb_le in E. contradiction.
Qed.

Lemma interchange_move_overlap (left : bool) (off0 off1 : Z) (l0 l1 : Layer) :
  ~ off1 + len (dom (l_box l1)) <= off0 ->
  ~ off0 + len (cod (l_box l0)) <= off1 ->
  interchange_move left off0 off1 l0 l1
  = Raise (InterchangerError (l_box l0) (l_box l1)).
Proof.
  intros H1 H2. unfold interchange_move.
  destruct (off0 + len (cod (l_box l0)) <=? off1) eqn:E1;
    [apply Z.leb_le in E1; contradiction|].
  destruct (off1 + len (dom (l_box l1)) <=? off0) eqn:E2;
    [apply Z.leb_le in E2; contradiction|].
  rewrite andb_false_r. reflexivity.
Qed.

Lemma nth_error_mid {A} (a b : list A) (x : A) :
  nth_error (a ++ x :: b) (length a) = Some x.
Proof. rewrite nth_error_app2, Nat.sub_diag by lia. reflexivity. Qed.

Lemma nth_error_mid2 {A} (a b : list A) (x y : A) :
  nth_error (a ++ x :: y :: b) (S (length a)) = Some y.
Proof.
  rewrite nth_error_app2 by lia.
  replace (S (length a) - length a)%nat with 1%nat by lia. reflexivity.
Qed.

(** The layers of a well-formed diagram at a pair of adjacent indices
    carry the boxes and the offsets of the pair. *)
Lemma wf_split_pair (d : Diagram) (i : Z) (off0 off1 : Z) (box0 box1 : Box) :
  wf d -> 0 <= i -> i + 1 < Diagram_len d ->
  pair_at d i off0 off1 box0 box1 ->
  exists pre l0 l1 post,
    a_boxes (layers d) = pre ++ l0 :: l1 :: post /\ len pre = i
    /\ l_box l0 = box0 /\ l_box l1 = box1
    /\ len (l_left l0) = off0 /\ len (l_left l1) = off1.
Proof.
  intros W H0 H1 (O0 & O1 & B0 & B1).
  destruct (wf_split d i W H0 H1) as (pre & l0 & l1 & post & E & P).
  exists pre, l0, l1, post.
  pose proof (wf_boxes d W) as Hb. pose proof (wf_offsets d W) as Ho.
  rewrite E, map_app in Hb, Ho. simpl in Hb, Ho.
  assert (N : Z.to_nat i = length pre) by (unfold len in P; lia).
  rewrite N in *.
  rewrite <- Hb in B0, B1. rewrite <- Ho in O0, O1.
  rewrite <- (length_map l_box pre) in B0, B1.
  rewrite <- (length_map (fun l => len (l_left l)) pre) in O0, O1.
  rewrite nth_error_mid in B0. rewrite nth_error_mid in O0.
  rewrite nth_error_mid2 in B1. rewrite nth_error_mid2 in O1.
  inversion B0; inversion B1; inversion O0; inversion O1.
  repeat split; auto.
Qed.

Lemma len_zero_nil {A} (l : list A) : len l = 0 <-> l = [].
Proof.
  unfold len. destruct l; simpl; split; intros H; auto; try discriminate; lia.
Qed.

Lemma box0_right_of_box1_offsets (off0 off1 : Z) (l0 l1 : Layer)
    (o0 o1 : Z) (y0 y1 : Layer) :
  box0_right_of_box1 off0 off1 l0 l1 = (o0, o1, y0, y1) ->
  o0 = off0 - len (dom (l_box l1)) + len (cod (l_box l1)) /\ o1 = off1.
Proof. unfold box0_right_of_box1. intros H. inversion H. auto. Qed.

Lemma box0_left_of_box1_offsets (off0 off1 : Z) (l0 l1 : Layer)
    (o0 o1 : Z) (y0 y1 : Layer) :
  box0_left_of_box1 off0 off1 l0 l1 = (o0, o1, y0, y1) ->
  o0 = off0 /\ o1 = off1 - len (cod (l_box l0)) + len (dom (l_box l0)).
Proof. unfold box0_left_of_box1. intros H. inversion H. auto. Qed.

(** One unit interchange of a well-formed diagram, by the chosen rewrite:
    the result, its layers, boxes and offsets. *)
Lemma interchange_unit_step (d : Diagram) (pre post : list Layer)
    (l0 l1 : Layer) (o0 o1 : Z) (y0 y1 : Layer) :
  wf d ->
  a_boxes (layers d) = pre ++ l0 :: l1 :: post ->
  interchange_move false (len (l_left l0)) (len (l_left l1)) l0 l1
    = Ok (o0, o1, y0, y1) ->
  exists r,
    interchange d (len pre) (len pre + 1) false = Ok r /\ wf r
    /\ d_dom r = d_dom d /\ d_cod r = d_cod d
    /\ boxes r = map l_box pre ++ l_box l1 :: l_box l0 :: map l_box post
    /\ offsets r = map (fun l => len (l_left l)) pre ++ o1 :: o0
                   :: map (fun l => len (l_left l)) post
    /\ a_boxes (layers r) = pre ++ y1 :: y0 :: post
    /\ l_box y0 = l_box l0 /\ l_box y1 = l_box l1
    /\ len (l_left y0) = o0 /\ len (l_left y1) = o1.
Proof.
  intros W E M.
  exists (spliced d pre post l0 l1 (o0, o1, y0, y1)).
  rewrite (interchange_unit false d pre post l0 l1 W E), M.
  pose proof (wf_chain d W) as Hc. rewrite E in Hc.
  apply chain_app in Hc. destruct Hc as (s & C1 & C2 & C3 & C4).
  destruct (interchange_move_ok false l0 l1 o0 o1 y0 y1)
    as (M1 & M2 & M3 & M4 & M5 & M6 & M7); auto.
  split; [reflexivity|].
  split; [apply (spliced_wf false d pre post l0 l1 _ W E M)|].
  simpl. repeat split; auto.
Qed.

(** C4, as stated, fails: in [Id(x) @ s >> counit] the scalar [s] at
    offset [1] and [counit] at offset [0] are wire-disjoint ([s] is right
    of [counit]), the unit interchange succeeds twice, and the result has
    offsets [0, 0], not [1, 0]. *)
Lemma interchange_twice_is_not_identity :
  wf scalar_then_counit
  /\ pair_at scalar_then_counit 0 1 0 (box "s" [] []) (box "counit" ["x"] [])
  /\ 0 + len (dom (box "counit" ["x"] [])) <= 1
  /\ exists r1 r2,
       interchange scalar_then_counit 0 (0 + 1) false = Ok r1
       /\ interchange r1 0 (0 + 1) false = Ok r2
       /\ offsets r2 = [0; 0]
       /\ Diagram_eq r2 scalar_then_counit = false.
Proof.
  split; [wf_by_computation|].
  split; [repeat split|].
  split; [unfold len; simpl; lia|].
  eexists. eexists.
  split; [vm_compute; reflexivity|].
  split; [vm_compute; reflexivity|].
  split; reflexivity.
Qed.

(** C4, amended: for a well-formed diagram [d] and adjacent indices [i],
    [i + 1] in range, with offsets [off0], [off1] and boxes [box0], [box1]
    there: when the boxes are wire-disjoint (box0 right of box1, or box0
    left of box1) and not in the position [both_sides], where after the
    first interchange box0 is again right of box1,
    [d.interchange(i, i+1).interchange(i, i+1) == d]; and when neither
    disjointness case holds the unit interchange raises
    [InterchangerError(box0, box1)], for either value of [left]. *)
Theorem interchange_unit_inverse (d : Diagram) (i : Z)
    (off0 off1 : Z) (box0 box1 : Box) :
  wf d -> 0 <= i -> i + 1 < Diagram_len d ->
  pair_at d i off0 off1 box0 box1 ->
  ((off1 + len (dom box1) <= off0 \/ off0 + len (cod box0) <= off1) ->
   ~ both_sides off0 off1 box0 box1 ->
   exists r1 r2,
     interchange d i (i + 1) false = Ok r1
     /\ interchange r1 i (i + 1) false = Ok r2
     /\ Diagram_eq r2 d = true)
  /\ (~ off1 + len (dom box1) <= off0 -> ~ off0 + len (cod box0) <= off1 ->
      forall left : bool,
        interchange d i (i + 1) left = Raise (InterchangerError box0 box1)).
Proof.
  intros W H0 H1 PA.
  destruct (wf_split_pair d i off0 off1 box0 box1 W H0 H1 PA)
    as (pre & l0 & l1 & post & E & P & B0 & B1 & O0 & O1).
  pose proof (wf_boxes d W) as Hb. pose proof (wf_offsets d W) as Ho.
  rewrite E, map_app in Hb, Ho. cbn [map] in Hb, Ho.
  subst i box0 box1 off0 off1. split.
  - intros Disj ND.
    pose proof (len_nonneg (dom (l_box l0))) as Pd0.
    pose proof (len_nonneg (cod (l_box l0))) as Pc0.
    pose proof (len_nonneg (dom (l_box l1))) as Pd1.
    pose proof (len_nonneg (cod (l_box l1))) as Pc1.
    destruct (Z_le_dec (len (l_left l1) + len (dom (l_box l1))) (len (l_left l0)))
      as [R|NR].
    + (* box0 right of box1 *)
      destruct (box0_right_of_box1 (len (l_left l0)) (len (l_left l1)) l0 l1)
        as [[[o0 o1] y0] y1] eqn:Mv.
      destruct (box0_right_of_box1_offsets _ _ _ _ _ _ _ _ Mv) as [Eo0 Eo1].
      destruct (interchange_unit_step d pre post l0 l1 o0 o1 y0 y1 W E)
        as (r1 & I1 & W1 & D1 & C1 & Bx1 & Of1 & L1 & Y0 & Y1 & Z0 & Z1).
      { rewrite interchange_move_right by exact R. rewrite Mv. reflexivity. }
      exists r1.
      destruct (Z_le_dec (len (l_left y0) + len (dom (l_box y0))) (len (l_left y1)))
        as [R2|NR2].
      * (* again right: both boxes are scalars at the same place *)
        assert (S1 : dom (l_box l1) = [] /\ cod (l_box l0) = []).
        { rewrite Z0, Z1, Y0 in R2.
          destruct (Z.eq_dec (len (dom (l_box l1))) 0) as [Q1|Q1];
          destruct (Z.eq_dec (len (cod (l_box l0))) 0) as [Q0|Q0];
          try (split; apply len_zero_nil; assumption);
          exfalso; apply ND; unfold both_sides;
          (split; [lia|]); (split; [apply len_zero_nil; lia|]);
          (split; [apply len_zero_nil; lia|]);
          first [ left; intros Hn; apply Q1; rewrite Hn; reflexivity
                | right; intros Hn; apply Q0; rewrite Hn; reflexivity ]. }
        destruct S1 as [Sd1 Sc0].
        destruct (box0_right_of_box1 (len (l_left y1)) (len (l_left y0)) y1 y0)
          as [[[p0 p1] z1] z0] eqn:Mv2.
        destruct (box0_right_of_box1_offsets _ _ _ _ _ _ _ _ Mv2) as [Ep0 Ep1].
        destruct (interchange_unit_step r1 pre post y1 y0 p0 p1 z1 z0 W1 L1)
          as (r2 & I2 & W2 & D2 & C2 & Bx2 & Of2 & _).
        { rewrite interchange_move_right by exact R2. rewrite Mv2. reflexivity. }
        exists r2. split; [exact I1|]. split; [exact I2|].
        apply Diagram_eq_iff.
        split; [congruence|]. split; [congruence|].
        split; [rewrite Bx2, Y0, Y1; exact Hb|].
        rewrite Of2, <- Ho. rewrite Z0, Z1, Y0 in *.
        rewrite Sd1, Sc0 in *. unfold len in *. simpl in *.
        repeat f_equal; lia.
      * (* then left: the way back *)
        destruct (box0_left_of_box1 (len (l_left y1)) (len (l_left y0)) y1 y0)
          as [[[p0 p1] z1] z0] eqn:Mv2.
        destruct (box0_left_of_box1_offsets _ _ _ _ _ _ _ _ Mv2) as [Ep0 Ep1].
        destruct (interchange_unit_step r1 pre post y1 y0 p0 p1 z1 z0 W1 L1)
          as (r2 & I2 & W2 & D2 & C2 & Bx2 & Of2 & _).
        { rewrite interchange_move_left; [rewrite Mv2; reflexivity | exact NR2 |].
          rewrite Z0, Z1, Y1. lia. }
        exists r2. split; [exact I1|]. split; [exact I2|].
        apply Diagram_eq_iff.
        split; [congruence|]. split; [congruence|].
        split; [rewrite Bx2, Y0, Y1; exact Hb|].
        rewrite Of2, <- Ho. rewrite Z0, Z1, Y1 in *.
        repeat f_equal; lia.
    + (* box0 left of box1 *)
      assert (L : len (l_left l0) + len (cod (l_box l0)) <= len (l_left l1))
        by (destruct Disj; [contradiction | assumption]).
      destruct (box0_left_of_box1 (len (l_left l0)) (len (l_left l1)) l0 l1)
        as [[[o0 o1] y0] y1] eqn:Mv.
      destruct (box0_left_of_box1_offsets _ _ _ _ _ _ _ _ Mv) as [Eo0 Eo1].
      destruct (interchange_unit_step d pre post l0 l1 o0 o1 y0 y1 W E)
        as (r1 & I1 & W1 & D1 & C1 & Bx1 & Of1 & L1 & Y0 & Y1 & Z0 & Z1).
      { rewrite interchange_move_left by assumption. rewrite Mv. reflexivity. }
      exists r1.
      destruct (box0_right_of_box1 (len (l_left y1)) (len (l_left y0)) y1 y0)
        as [[[p0 p1] z1] z0] eqn:Mv2.
      destruct (box0_right_of_box1_offsets _ _ _ _ _ _ _ _ Mv2) as [Ep0 Ep1].
      destruct (interchange_unit_step r1 pre post y1 y0 p0 p1 z1 z0 W1 L1)
        as (r2 & I2 & W2 & D2 & C2 & Bx2 & Of2 & _).
      { rewrite interchange_move_right; [rewrite Mv2; reflexivity|].
        rewrite Z0, Z1, Y0. lia. }
      exists r2. split; [exact I1|]. split; [exact I2|].
      apply Diagram_eq_iff.
      split; [congruence|]. split; [congruence|].
      split; [rewrite Bx2, Y0, Y1; exact Hb|].
      rewrite Of2, <- Ho. rewrite Z0, Z1, Y0 in *.
      repeat f_equal; lia.
  - intros NR NL left.
    rewrite (interchange_unit left d pre post l0 l1 W E).
    rewrite interchange_move_overlap by assumption. reflexivity.
Qed.

Lemma interchange_unit_inverse_witness :
  exists r1 r2,
    interchange three_boxes 0 (0 + 1) false = Ok r1
    /\ interchange r1 0 (0 + 1) false = Ok r2
    /\ Diagram_eq r2 three_boxes = true.
Proof.
  refine (proj1 (interchange_unit_inverse three_boxes 0 0 1
                   (box "f0" ["x"] ["x"]) (box "f1" ["y"] ["y"])
                   wf_three_boxes _ _ _) _ _).
  - lia.
  - unfold Diagram_len, len. simpl. lia.
  - repeat split.
  - right. unfold len. simpl. lia.
  - unfold both_sides, len. simpl. intros (H & _). lia.
Defined.

(* ================================================================== *)
(** * Dagger *)
(* ================================================================== *)

Lemma firstn_S_nth {A} (l : list A) (k : nat) :
  (k < length l)%nat ->
  exists y, nth_error l k = Some y /\ firstn (S k) l = firstn k l ++ [y].
Proof.
  revert l. induction k as [|k IH]; intros [|z l] H; simpl in *; try lia.
  - exists z. auto.
  - destruct (IH l) as (y & E1 & E2); [lia|].
    exists y. split; auto. rewrite E2. reflexivity.
Qed.

Lemma slice_elems_reverse {A} (l : list A) (k : nat) :
  (k <= length l)%nat ->
  slice_elems l (Z.of_nat k - 1) (-1) k = rev (firstn k l).
Proof.
  induction k as [|k IH]; intros H; auto.
  destruct (firstn_S_nth l k) as (y & N & F); [lia|].
  rewrite F, rev_app_distr. cbn [slice_elems rev app].
  replace (Z.to_nat (Z.of_nat (S k) - 1)) with k by lia.
  rewrite N. f_equal.
  replace (Z.of_nat (S k) - 1 + -1) with (Z.of_nat k - 1) by lia.
  apply IH. lia.
Qed.

(** [l[::-1]] is the reversed list. *)
Lemma py_getslice_reverse {A} (l : list A) :
  py_getslice l (mkSlice None None (Some (-1))) = Ok (rev l).
Proof.
  unfold py_getslice. cbn [s_step s_start s_stop].
  change (-1 =? 0) with false. change (0 <? -1) with false. cbv iota.
  f_equal. change (- -1) with 1. rewrite Z.div_1_r.
  destruct (-1 <? Z.of_nat (length l) - 1) eqn:E.
  - replace (Z.to_nat (Z.of_nat (length l) - 1 - -1 - 1 + 1)) with (length l)
      by lia.
    rewrite slice_elems_reverse, firstn_all; auto.
  - apply Z.ltb_ge in E. destruct l as [|x l]; [reflexivity|].
    exfalso. change (length (x :: l)) with (S (length l)) in E. lia.
Qed.

(** The dagger of any diagram, from its layers. *)
Lemma dagger_layers (d : Diagram) :
  dagger d =
  Ok (mkDiagram (a_cod (layers d)) (a_dom (layers d))
        (map l_box (map Layer_dagger (rev (a_boxes (layers d)))))
        (map (fun l => len (l_left l))
             (map Layer_dagger (rev (a_boxes (layers d)))))
        (mkArrow (a_cod (layers d)) (a_dom (layers d))
                 (map Layer_dagger (rev (a_boxes (layers d)))))).
Proof.
  unfold dagger, Diagram_getslice, cat_getslice. cbn [s_step].
  rewrite py_getslice_reverse. cbn [bind a_dom a_cod a_boxes].
  apply Diagram_init_given. rewrite !length_map. reflexivity.
Qed.

Lemma Box_dagger_involutive (f : Box) : Box_dagger (Box_dagger f) = f.
Proof. destruct f. unfold Box_dagger. simpl. rewrite negb_involutive. auto. Qed.

Lemma Layer_dagger_involutive (l : Layer) : Layer_dagger (Layer_dagger l) = l.
Proof.
  destruct l. unfold Layer_dagger. simpl. rewrite Box_dagger_involutive. auto.
Qed.

Lemma chain_snoc (ls : list Layer) (l : Layer) (s c : Ty) :
  chain s (ls ++ [l]) c <-> chain s ls (Layer_dom l) /\ Layer_cod l = c.
Proof.
  rewrite chain_app. simpl. split.
  - intros (m & C & E & F). subst m. auto.
  - intros (C & F). exists (Layer_dom l). auto.
Qed.

(** The reversed, daggered layers lead back from codomain to domain. *)
Lemma chain_dagger (ls : list Layer) (s c : Ty) :
  chain s ls c -> chain c (map Layer_dagger (rev ls)) s.
Proof.
  revert s. induction ls as [|l ls IH]; intros s; simpl.
  - congruence.
  - intros [H1 H2]. rewrite map_app. simpl. apply chain_snoc. split.
    + apply IH. exact H2.
    + rewrite <- H1. reflexivity.
Qed.

Lemma dagger_wf (d r : Diagram) : wf d -> dagger d = Ok r -> wf r.
Proof.
  intros W H. rewrite dagger_layers in H. inversion H; subst r; clear H.
  constructor; simpl; auto.
  rewrite (wf_dom d W), (wf_cod d W). apply chain_dagger, (wf_chain d W).
Qed.

(** Domain, codomain, boxes and offsets of the dagger of a well-formed
    diagram. *)
Lemma dagger_fields (d : Diagram) :
  wf d ->
  exists r, dagger d = Ok r /\ wf r
    /\ d_dom r = d_cod d /\ d_cod r = d_dom d
    /\ boxes r = map Box_dagger (rev (boxes d))
    /\ offsets r = rev (offsets d).
Proof.
  intros W. destruct (dagger d) as [r|e] eqn:E.
  - exists r. split; [reflexivity|]. split; [apply (dagger_wf d r W E)|].
    rewrite dagger_layers in E. inversion E; subst r; clear E. simpl.
    rewrite (wf_dom d W), (wf_cod d W), <- (wf_boxes d W), <- (wf_offsets d W).
    rewrite !map_map, !map_rev, !map_map. auto.
  - rewrite dagger_layers in E. discriminate.
Qed.

Lemma dagger_Box_diagram (f : Box) :
  dagger (Box_diagram f) = Ok (Box_diagram (Box_dagger f)).
Proof. rewrite dagger_layers. reflexivity. Qed.

(** C5, as stated, fails: for [f0 : x -> y] and [f1 : z -> w],
    [(f0 @ f1)[::-1]] has the boxes [f1[::-1], f0[::-1]] at offsets
    [1, 0], and [f0[::-1] @ f1[::-1]] the boxes [f0[::-1], f1[::-1]] at
    offsets [0, 1]: they are not equal. *)
Lemma dagger_does_not_distribute_over_tensor :
  exists fg a fd gd b,
    tensor (Box_diagram f0_xy) (Box_diagram f1_zw) = Ok fg
    /\ dagger fg = Ok a
    /\ dagger (Box_diagram f0_xy) = Ok fd
    /\ dagger (Box_diagram f1_zw) = Ok gd
    /\ tensor fd gd = Ok b
    /\ Diagram_eq a b = false.
Proof.
  do 5 eexists.
  split; [vm_compute; reflexivity|].
  split; [vm_compute; reflexivity|].
  split; [vm_compute; reflexivity|].
  split; [vm_compute; reflexivity|].
  split; [vm_compute; reflexivity|].
  vm_compute. reflexivity.
Qed.

Lemma wf_no_boxes (d : Diagram) :
  wf d -> boxes d = [] ->
  offsets d = [] /\ a_boxes (layers d) = [] /\ d_dom d = d_cod d.
Proof.
  intros W B. destruct (wf_lengths d W) as [L1 L2].
  rewrite B in L1, L2. simpl in *.
  apply length_zero_iff_nil in L1. apply length_zero_iff_nil in L2.
  pose proof (wf_chain d W) as C. rewrite L1 in C. simpl in C. auto.
Qed.

(** C5, amended.  For well-formed diagrams [d], [f], [g] and boxes [b],
    [b0], [b1]: the dagger swaps domain and codomain and is an involution,
    [d[::-1][::-1] == d] (and [b[::-1][::-1] == b] on a box); the dagger
    distributes over the tensor only up to the order of the boxes:
    [(f @ g)[::-1]] and [f[::-1] @ g[::-1]] have the same domain and
    codomain, the first lists the boxes of [g[::-1]], at offsets shifted
    by [len(f.cod)], before those of [f[::-1]], the second the boxes of
    [f[::-1]] before those of [g[::-1]], shifted by [len(f.dom)]; they are
    equal when [f] or [g] has no box, and for single boxes
    [(b0 @ b1)[::-1].interchange(0, 1) == b0[::-1] @ b1[::-1]]. *)
Theorem dagger_involution_and_tensor (d f g : Diagram) (b b0 b1 : Box) :
  wf d -> wf f -> wf g ->
  (exists d1 d2,
      dagger d = Ok d1 /\ d_dom d1 = d_cod d /\ d_cod d1 = d_dom d
      /\ dagger d1 = Ok d2 /\ Diagram_eq d2 d = true)
  /\ Box_eq (Box_dagger (Box_dagger b)) b = true
  /\ (exists fg a fd gd t,
        tensor f g = Ok fg /\ dagger fg = Ok a
        /\ dagger f = Ok fd /\ dagger g = Ok gd /\ tensor fd gd = Ok t
        /\ d_dom a = d_dom t /\ d_cod a = d_cod t
        /\ boxes a = boxes gd ++ boxes fd
        /\ boxes t = boxes fd ++ boxes gd
        /\ offsets a = map (fun n => n + len (d_cod f)) (offsets gd)
                       ++ offsets fd
        /\ offsets t = offsets fd
                       ++ map (fun n => n + len (d_dom f)) (offsets gd)
        /\ (boxes f = [] \/ boxes g = [] -> Diagram_eq a t = true))
  /\ (exists fg a a' t,
        tensor (Box_diagram b0) (Box_diagram b1) = Ok fg /\ dagger fg = Ok a
        /\ interchange a 0 1 false = Ok a'
        /\ tensor (Box_diagram (Box_dagger b0)) (Box_diagram (Box_dagger b1))
           = Ok t
        /\ Diagram_eq a' t = true).
Proof.
  intros Wd Wf Wg. split; [|split; [|split]].
  - destruct (dagger_fields d Wd) as (d1 & E1 & W1 & D1 & C1 & B1 & O1).
    destruct (dagger_fields d1 W1) as (d2 & E2 & W2 & D2 & C2 & B2 & O2).
    exists d1, d2. repeat (split; [assumption|]).
    apply Diagram_eq_iff.
    split; [congruence|]. split; [congruence|]. split.
    + rewrite B2, B1, <- map_rev, rev_involutive, map_map.
      rewrite <- (map_id (boxes d)) at 2. apply map_ext.
      apply Box_dagger_involutive.
    + rewrite O2, O1. apply rev_involutive.
  - apply Box_eq_eq, Box_dagger_involutive.
  - pose proof (tensor_ok f g Wf Wg) as T.
    match type of T with _ = Ok ?x => set (fg := x) in * end.
    pose proof (tensor_wf f g fg Wf Wg T) as Wfg.
    destruct (dagger_fields fg Wfg) as (a & Ea & Wa & Da & Ca & Ba & Oa).
    destruct (dagger_fields f Wf) as (fd & Ef & Wfd & Df & Cf & Bf & Of).
    destruct (dagger_fields g Wg) as (gd & Eg & Wgd & Dg & Cg & Bg & Og).
    pose proof (tensor_ok fd gd Wfd Wgd) as T2.
    match type of T2 with _ = Ok ?x => set (t := x) in * end.
    exists fg, a, fd, gd, t.
    do 5 (split; [assumption|]).
    assert (Xd : d_dom a = d_dom t) by (rewrite Da; simpl; congruence).
    assert (Xc : d_cod a = d_cod t) by (rewrite Ca; simpl; congruence).
    assert (Xb : boxes a = boxes gd ++ boxes fd).
    { rewrite Ba. simpl. rewrite rev_app_distr, map_app. congruence. }
    assert (Xo : offsets a = map (fun n => n + len (d_cod f)) (offsets gd)
                             ++ offsets fd).
    { rewrite Oa. simpl. rewrite rev_app_distr, <- map_rev. congruence. }
    assert (Yo : offsets t = offsets fd
                             ++ map (fun n => n + len (d_dom f)) (offsets gd)).
    { simpl. rewrite Cf. reflexivity. }
    do 2 (split; [assumption|]). split; [exact Xb|].
    split; [reflexivity|]. split; [exact Xo|]. split; [exact Yo|].
    intros [N|N]; apply Diagram_eq_iff;
      (split; [exact Xd|]); (split; [exact Xc|]).
    + destruct (wf_no_boxes f Wf N) as (No & _ & Ndc).
      rewrite Xb, Xo, Yo. change (boxes t) with (boxes fd ++ boxes gd).
      rewrite Bf, Of, N, No, Ndc. simpl.
      rewrite ?app_nil_r. auto.
    + destruct (wf_no_boxes g Wg N) as (No & _ & Ndc).
      rewrite Xb, Xo, Yo. change (boxes t) with (boxes fd ++ boxes gd).
      rewrite Bg, Og, N, No. simpl.
      rewrite ?app_nil_r. auto.
  - pose proof (tensor_ok (Box_diagram b0) (Box_diagram b1)
                  (wf_Box_diagram b0) (wf_Box_diagram b1)) as T.
    match type of T with _ = Ok ?x => set (fg := x) in * end.
    pose proof (tensor_wf _ _ fg (wf_Box_diagram b0) (wf_Box_diagram b1) T)
      as Wfg.
    pose proof (dagger_layers fg) as Ea.
    match type of Ea with _ = Ok ?x => set (a := x) in * end.
    pose proof (dagger_wf fg a Wfg Ea) as Wa.
    pose proof (tensor_ok (Box_diagram (Box_dagger b0))
                  (Box_diagram (Box_dagger b1))
                  (wf_Box_diagram _) (wf_Box_diagram _)) as T2.
    match type of T2 with _ = Ok ?x => set (t := x) in * end.
    set (l0 := Layer_dagger (mkLayer (Ty_tensor (cod b0) []) b1 [])).
    set (l1 := Layer_dagger (mkLayer [] b0 (Ty_tensor [] (dom b1)))).
    assert (La : a_boxes (layers a) = [] ++ l0 :: l1 :: []) by reflexivity.
    destruct (box0_right_of_box1 (len (l_left l0)) (len (l_left l1)) l0 l1)
      as [[[o0 o1] y0] y1] eqn:Mv.
    destruct (box0_right_of_box1_offsets _ _ _ _ _ _ _ _ Mv) as [Eo0 Eo1].
    destruct (interchange_unit_step a [] [] l0 l1 o0 o1 y0 y1 Wa La)
      as (a' & I & W' & D' & C' & Bx & Of & _).
    { rewrite interchange_move_right; [rewrite Mv; reflexivity|].
      unfold l0, l1, Ty_tensor. simpl. rewrite len_app. unfold len. simpl. lia. }
    exists fg, a, a', t.
    split; [exact T|]. split; [exact Ea|]. split; [exact I|].
    split; [exact T2|].
    apply Diagram_eq_iff.
    split; [rewrite D'; reflexivity|]. split; [rewrite C'; reflexivity|].
    split; [rewrite Bx; reflexivity|].
    rewrite Of, Eo0, Eo1. unfold l0, l1, Ty_tensor. simpl.
    rewrite len_app. unfold len. simpl. repeat f_equal. lia.
Qed.

Lemma dagger_involution_and_tensor_witness :
  exists d1 d2,
    dagger three_boxes = Ok d1 /\ d_dom d1 = d_cod three_boxes
    /\ d_cod d1 = d_dom three_boxes
    /\ dagger d1 = Ok d2 /\ Diagram_eq d2 three_boxes = true.
Proof.
  exact (proj1 (dagger_involution_and_tensor
                  three_boxes (Box_diagram f0_xy) (Box_diagram f1_zw)
                  f0_xy f0_xy f1_zw
                  wf_three_boxes (wf_Box_diagram f0_xy)
                  (wf_Box_diagram f1_zw))).
Defined.

(* ================================================================== *)
(** * Normalisation and normal forms *)
(* ================================================================== *)

Lemma normalize_scan_None (left : bool) (d : Diagram) (rest : list Z) :
  normalize_scan left d rest = None <->
  Forall (fun i => normalize_test left d i = Ok false) rest.
Proof.
  induction rest as [|i rest IH]; simpl.
  - split; auto.
  - destruct (normalize_test left d i) as [[|]|e] eqn:T.
    + split; [| intros H; inversion H; congruence].
      destruct (interchange d i (i + 1) left); discriminate.
    + rewrite IH. split; intros H; [constructor; auto | inversion H; auto].
    + split; [discriminate | intros H; inversion H; congruence].
Qed.

Lemma normalize_scan_app_None (left : bool) (d : Diagram) (a b : list Z) :
  normalize_scan left d a = None -> normalize_scan left d b = None ->
  normalize_scan left d (a ++ b) = None.
Proof.
  rewrite !normalize_scan_None. intros Ha Hb. apply Forall_app. auto.
Qed.

(** A yield of the scan hands over the diagram it yields, in a pass that
    has made a move. *)
Lemma normalize_scan_Yield (left : bool) (d : Diagram) (rest : list Z)
    (y : Diagram) (st : NormState) :
  normalize_scan left d rest = Some (Yield y st) ->
  ns_diagram st = y /\ ns_no_more_moves st = false.
Proof.
  induction rest as [|i rest IH]; simpl; [discriminate|].
  destruct (normalize_test left d i) as [[|]|e]; auto; [|discriminate].
  destruct (interchange d i (i + 1) left); [|discriminate].
  intros H. inversion H. subst. auto.
Qed.

Lemma normalize_next_Yield (left : bool) (st st' : NormState) (y : Diagram) :
  normalize_next left st = Yield y st' ->
  ns_diagram st' = y /\ ns_no_more_moves st' = false.
Proof.
  unfold normalize_next.
  destruct (normalize_scan left (ns_diagram st) (ns_rest st)) as [s|] eqn:S1.
  - intros ->. eapply normalize_scan_Yield; eauto.
  - destruct (ns_no_more_moves st); [discriminate|].
    destruct (normalize_scan left (ns_diagram st)
                (range (Diagram_len (ns_diagram st) - 1))) as [s|] eqn:S2;
      [|discriminate].
    intros ->. eapply normalize_scan_Yield; eauto.
Qed.

Lemma pass_so_far_start (left : bool) (d : Diagram) :
  pass_so_far left (normalize_start d).
Proof. intros _. exists []. split; reflexivity. Qed.

Lemma pass_so_far_Yield (left : bool) (st st' : NormState) (y : Diagram) :
  normalize_next left st = Yield y st' -> pass_so_far left st'.
Proof.
  intros H. apply normalize_next_Yield in H. destruct H as [_ H].
  intros N. congruence.
Qed.

Lemma normalize_scan_not_Stop (left : bool) (d : Diagram) (rest : list Z) :
  normalize_scan left d rest <> Some Stop.
Proof.
  induction rest as [|i rest IH]; simpl.
  - discriminate.
  - destruct (normalize_test left d i) as [[|]|e]; auto.
    + destruct (interchange d i (i + 1) left); discriminate.
    + discriminate.
Qed.

(** When the generator stops, its diagram is a fixed point. *)
Lemma normalize_next_Stop (left : bool) (st : NormState) :
  pass_so_far left st -> normalize_next left st = Stop ->
  no_more_moves left (ns_diagram st).
Proof.
  unfold normalize_next, no_more_moves. intros P.
  destruct (normalize_scan left (ns_diagram st) (ns_rest st)) as [s|] eqn:S1.
  - intros ->. exfalso. exact (normalize_scan_not_Stop _ _ _ S1).
  - destruct (ns_no_more_moves st) eqn:N.
    + intros _. destruct (P N) as (visited & -> & V).
      apply normalize_scan_app_None; assumption.
    + destruct (normalize_scan left (ns_diagram st)
                  (range (Diagram_len (ns_diagram st) - 1))) as [s|] eqn:S2;
        [|reflexivity].
      intros ->. exfalso. exact (normalize_scan_not_Stop _ _ _ S2).
Qed.

(** On a fixed point the generator stops at once. *)
Lemma normalize_fixed_point (left : bool) (d : Diagram) :
  no_more_moves left d -> normalize_next left (normalize_start d) = Stop.
Proof.
  unfold no_more_moves, normalize_next, normalize_start. simpl.
  intros ->. reflexivity.
Qed.

Lemma normal_form_loop_fixed (fuel : nat) (left : bool) (st : NormState)
    (diagram n : Diagram) (cache : list Diagram) :
  pass_so_far left st -> ns_diagram st = diagram ->
  normal_form_loop fuel left st diagram cache = Some (Ok n) ->
  no_more_moves left n.
Proof.
  revert st diagram cache. induction fuel as [|fuel IH];
    intros st diagram cache P E; simpl; [discriminate|].
  destruct (normalize_next left st) as [y st'| |e] eqn:X.
  - destruct (in_cache y cache); [discriminate|].
    apply IH.
    + eapply pass_so_far_Yield; eauto.
    + apply (normalize_next_Yield left st st' y X).
  - intros H. inversion H; subst n. rewrite <- E.
    apply normalize_next_Stop; assumption.
  - discriminate.
Qed.

(** C6: whenever [normal_form] returns, for whatever number of steps it
    took, the result [n] is a fixed point: its [normalize] sequence makes
    no interchange and stops at once, and [n.normal_form()] returns [n],
    so [d.normal_form().normal_form() == d.normal_form()]. *)
Theorem normal_form_idempotent (fuel : nat) (left : bool) (d n : Diagram) :
  normal_form fuel left d = Some (Ok n) ->
  no_more_moves left n
  /\ normalize_next left (normalize_start n) = Stop
  /\ forall fuel' : nat,
       normal_form (S fuel') left n = Some (Ok n)
       /\ Diagram_eq n n = true.
Proof.
  intros H.
  assert (F : no_more_moves left n).
  { eapply normal_form_loop_fixed; [| |exact H].
    - apply pass_so_far_start.
    - reflexivity. }
  split; [exact F|]. split; [apply normalize_fixed_point; exact F|].
  intros fuel'. split; [|apply Diagram_eq_refl].
  unfold normal_form. simpl.
  rewrite (normalize_fixed_point left n F). reflexivity.
Qed.

Lemma normal_form_idempotent_witness :
  no_more_moves false three_boxes
  /\ normal_form 1 false three_boxes = Some (Ok three_boxes).
Proof.
  assert (H : normal_form 1 false three_boxes = Some (Ok three_boxes))
    by reflexivity.
  destruct (normal_form_idempotent 1 false three_boxes three_boxes H)
    as (F & _ & G).
  split; [exact F | exact (proj1 (G 0%nat))].
Defined.

Lemma normalize_nth_S (left : bool) (st st' : NormState) (y : Diagram) (n : nat) :
  normalize_next left st = Yield y st' ->
  normalize_nth left st (S n) = normalize_nth left st' n
  /\ normalize_nth left st 0 = Some y.
Proof. intros H. simpl. rewrite H. auto. Qed.

Lemma normalize_nth_Some (left : bool) (st : NormState) (n : nat) (b : Diagram) :
  normalize_nth left st n = Some b ->
  exists y st', normalize_next left st = Yield y st'.
Proof.
  destruct n; simpl; destruct (normalize_next left st) as [y st'| |e];
    try discriminate; eauto.
Qed.

(** If the [n]-th yield is in the cache, or equal to an earlier yield,
    the loop of [normal_form] raises within [n + 1] turns. *)
Lemma normal_form_loop_repeat (left : bool) (b : Diagram) (n : nat) :
  forall (st : NormState) (diagram : Diagram) (cache : list Diagram),
  normalize_nth left st n = Some b ->
  (in_cache b cache = true
   \/ exists m a, (m < n)%nat /\ normalize_nth left st m = Some a
                  /\ Diagram_eq b a = true) ->
  forall fuel, (n < fuel)%nat ->
  normal_form_loop fuel left st diagram cache = Some (Raise NotImplementedError).
Proof.
  induction n as [|n IH]; intros st diagram cache N R fuel F;
    destruct fuel as [|fuel]; try lia;
    destruct (normalize_nth_Some left st _ b N) as (y & st' & X);
    simpl; rewrite X.
  - destruct (normalize_nth_S left st st' y 0 X) as [_ N0].
    rewrite N0 in N. inversion N; subst y.
    destruct R as [R|(m & a & L & _)]; [|lia]. rewrite R. reflexivity.
  - destruct (normalize_nth_S left st st' y n X) as [NS N0].
    destruct (in_cache y cache) eqn:C; [reflexivity|].
    rewrite NS in N. apply IH; [exact N | | lia].
    destruct R as [R|(m & a & L & Na & E)].
    + left. unfold in_cache in *. simpl. rewrite R. apply orb_true_r.
    + destruct m as [|m].
      * left. rewrite N0 in Na. inversion Na; subst a.
        unfold in_cache. simpl. rewrite E. reflexivity.
      * right. exists m, a. split; [lia|].
        destruct (normalize_nth_S left st st' y m X) as [NS' _].
        rewrite NS' in Na. auto.
Qed.

(** If the generator stops after [n] yields, none of them in the cache or
    equal to an earlier one, the loop returns the diagram it stopped on. *)
Lemma normal_form_loop_stops (left : bool) (st_end : NormState) (n : nat) :
  forall (st : NormState) (diagram : Diagram) (cache : list Diagram),
  normalize_after left st n = Some st_end ->
  normalize_next left st_end = Stop ->
  ns_diagram st = diagram ->
  (forall j b, (j < n)%nat -> normalize_nth left st j = Some b ->
     in_cache b cache = false
     /\ forall i a, (i < j)%nat -> normalize_nth left st i = Some a ->
                    Diagram_eq b a = false) ->
  forall fuel, (n < fuel)%nat ->
  normal_form_loop fuel left st diagram cache = Some (Ok (ns_diagram st_end)).
Proof.
  induction n as [|n IH]; intros st diagram cache A E D U fuel F;
    destruct fuel as [|fuel]; try lia; simpl in *.
  - inversion A; subst st_end. rewrite E, D. reflexivity.
  - destruct (normalize_next left st) as [y st'| |e] eqn:X; try discriminate.
    destruct (normalize_nth_S left st st' y 0 X) as [_ N0].
    destruct (U 0%nat y ltac:(lia) N0) as [C _]. rewrite C.
    apply IH; auto; [apply (normalize_next_Yield left st st' y X) | | lia].
    intros j b L Nj.
    destruct (normalize_nth_S left st st' y j X) as [NS _].
    rewrite <- NS in Nj.
    destruct (U (S j) b ltac:(lia) Nj) as [Cb Ub]. split.
    + unfold in_cache in *. simpl. rewrite Cb.
      rewrite (Ub 0%nat y ltac:(lia) N0). reflexivity.
    + intros i a Li Ni.
      destruct (normalize_nth_S left st st' y i X) as [NS' _].
      rewrite <- NS' in Ni. apply (Ub (S i) a ltac:(lia) Ni).
Qed.

Lemma pass_so_far_after (left : bool) (n : nat) :
  forall st st', pass_so_far left st ->
  normalize_after left st n = Some st' -> pass_so_far left st'.
Proof.
  induction n as [|n IH]; intros st st' P A; simpl in A.
  - inversion A; subst; exact P.
  - destruct (normalize_next left st) as [y s| |e] eqn:X; try discriminate.
    apply (IH s st'); [|exact A]. eapply pass_so_far_Yield; eauto.
Qed.

(** C3.  With [normalize_nth] the sequence of diagrams that [normalize]
    yields on [d]: (1) if some yield equals an earlier one, [normal_form]
    raises [NotImplementedError], after at most as many turns as it takes
    to reach the later one; (2) this is so for the tensor [s0 @ s1] of two
    boxes without domain and codomain, whose third yield equals the first;
    (3) if the generator stops after [n] yields, no yield being equal to an
    earlier one, [normal_form] returns the diagram the generator stopped
    on, on which a full pass makes no move. *)
Theorem normal_form_raises_or_returns_fixed_point (left : bool) (d : Diagram) :
  (forall (m n : nat) (a b : Diagram),
      (m < n)%nat ->
      normalize_nth left (normalize_start d) m = Some a ->
      normalize_nth left (normalize_start d) n = Some b ->
      Diagram_eq b a = true ->
      forall fuel, (n < fuel)%nat ->
        normal_form fuel left d = Some (Raise NotImplementedError))
  /\ (forall (s0 s1 : Box) (t : Diagram),
        dom s0 = [] -> cod s0 = [] -> dom s1 = [] -> cod s1 = [] ->
        tensor (Box_diagram s0) (Box_diagram s1) = Ok t ->
        forall fuel, (2 < fuel)%nat ->
          normal_form fuel left t = Some (Raise NotImplementedError))
  /\ (forall (n : nat) (st : NormState),
        normalize_after left (normalize_start d) n = Some st ->
        normalize_next left st = Stop ->
        (forall (i j : nat) (a b : Diagram),
            (i < j)%nat ->
            normalize_nth left (normalize_start d) i = Some a ->
            normalize_nth left (normalize_start d) j = Some b ->
            Diagram_eq b a = false) ->
        no_more_moves left (ns_diagram st)
        /\ forall fuel, (n < fuel)%nat ->
             normal_form fuel left d = Some (Ok (ns_diagram st))).
Proof.
  split; [|split].
  - intros m n a b L Na Nb E fuel F. unfold normal_form.
    apply (normal_form_loop_repeat left b n); auto.
    right. exists m, a. auto.
  - intros s0 s1 t D0 C0 D1 C1 T fuel F.
    destruct s0 as [n0 d0 c0 x0 g0], s1 as [n1 d1 c1 x1 g1].
    simpl in D0, C0, D1, C1. subst d0 c0 d1 c1.
    cbv in T. inversion T; subst t; clear T.
    unfold normal_form.
    match goal with
    | |- normal_form_loop _ _ (normalize_start ?t) _ _ = _ =>
        assert (N0 : exists a, normalize_nth left (normalize_start t) 0 = Some a
                     /\ normalize_nth left (normalize_start t) 2 = Some a)
    end.
    { destruct left; eexists; split; reflexivity. }
    destruct N0 as (a & N0 & N2).
    apply (normal_form_loop_repeat left a 2); auto.
    right. exists 0%nat, a. split; [lia|]. split; [exact N0|].
    apply Diagram_eq_refl.
  - intros n st A E U. split.
    + apply normalize_next_Stop; [|exact E].
      apply (pass_so_far_after left n (normalize_start d)); auto.
      apply pass_so_far_start.
    + intros fuel F. unfold normal_form.
      apply (normal_form_loop_stops left st n); auto.
      intros j b L Nj. split; [reflexivity|].
      intros i a Li Ni. apply (U i j a b); auto.
Qed.

Lemma normal_form_raises_or_returns_fixed_point_witness :
  normal_form 2 false right_box_first = Some (Ok left_box_first)
  /\ (exists t, tensor (Box_diagram (box "s0" [] [])) (Box_diagram (box "s1" [] []))
                = Ok t
                /\ normal_form 3 false t = Some (Raise NotImplementedError)).
Proof.
  split.
  - destruct (normal_form_raises_or_returns_fixed_point false right_box_first)
      as (_ & _ & H).
    refine (proj2 (H 1%nat (mkNorm left_box_first [] false) _ _ _) 2%nat _).
    + reflexivity.
    + reflexivity.
    + intros i j a b L Ni Nj. destruct j as [|[|j]]; [lia| |];
        vm_compute in Nj; discriminate Nj.
    + lia.
  - eexists. split; [reflexivity|].
    destruct (normal_form_raises_or_returns_fixed_point false right_box_first)
      as (_ & H & _).
    apply (H (box "s0" [] []) (box "s1" [] [])); try reflexivity. lia.
Defined.

(* ================================================================== *)
(** * Foliation and depth *)
(* ================================================================== *)

Lemma Diagram_len_boxes (d e : Diagram) :
  length (boxes d) = length (boxes e) -> Diagram_len d = Diagram_len e.
Proof. unfold Diagram_len, len. intros ->. reflexivity. Qed.

(** Any successful interchange keeps the diagram well formed, with its
    domain, its codomain and its number of boxes. *)
Lemma interchange_preserves (left : bool) (d r : Diagram) (i j : Z) :
  wf d -> interchange d i j left = Ok r ->
  wf r /\ d_dom r = d_dom d /\ d_cod r = d_cod d
  /\ Diagram_len r = Diagram_len d.
Proof.
  intros W H.
  destruct (Z_lt_dec i 0) as [Li|Li];
    [rewrite interchange_unfold in H; unfold interchange_body in H;
     revert H; bool_by_lia; discriminate|].
  destruct (Z_lt_dec i (Diagram_len d)) as [Ui|Ui];
    [|rewrite interchange_unfold in H; unfold interchange_body in H;
      revert H; bool_by_lia; rewrite andb_false_r; discriminate].
  destruct (Z_lt_dec j 0) as [Lj|Lj];
    [rewrite interchange_unfold in H; unfold interchange_body in H;
     revert H; bool_by_lia; cbn [andb negb orb]; discriminate|].
  destruct (Z_lt_dec j (Diagram_len d)) as [Uj|Uj];
    [|rewrite interchange_unfold in H; unfold interchange_body in H;
      revert H; bool_by_lia; cbn [andb negb orb]; discriminate].
  destruct (Z.eq_dec i j) as [E|NE].
  - rewrite interchange_unfold in H; unfold interchange_body in H.
    revert H. bool_by_lia. cbn [andb negb orb]. intros H.
    inversion H; subst r. auto.
  - destruct (Z_lt_dec (i + 1) j) as [Up|NUp].
    + rewrite interchange_far_up in H by lia.
      destruct (swaps_up_boxes left d i (Z.to_nat (j - i)) W) with (r := r)
        as (Wr & Dr & Cr & Br); auto; try lia.
      repeat (split; [assumption|]).
      apply Diagram_len_boxes. rewrite Br. apply list_move_length.
    + destruct (Z_lt_dec j (i - 1)) as [Dn|NDn].
      * rewrite interchange_far_down in H by lia.
        destruct (swaps_down_boxes left d i (Z.to_nat (i - j)) W) with (r := r)
          as (Wr & Dr & Cr & Br); auto; try lia.
        repeat (split; [assumption|]).
        apply Diagram_len_boxes. rewrite Br. apply list_move_length.
      * assert (A : exists k, 0 <= k /\ k + 1 < Diagram_len d
                              /\ interchange d k (k + 1) left = Ok r).
        { destruct (Z.eq_dec j (i + 1)) as [->|].
          - exists i. repeat split; auto; lia.
          - exists j. assert (i = j + 1) by lia. subst i.
            rewrite interchange_unit_sym in H. repeat split; auto; lia. }
        destruct A as (k & K0 & K1 & I).
        destruct (nth_error_in_range (boxes d) k) as [x Nx];
          [unfold Diagram_len in K1; lia|].
        destruct (list_move_step (boxes d) (Z.to_nat k) (Z.to_nat k) x Nx)
          as (P & y & Q & LP & E1 & E2).
        { unfold Diagram_len, len in K1. lia. }
        rewrite list_move_same in E1.
        destruct (interchange_unit_boxes left d r k P Q x y W E1)
          as (Wr & Br & Dr & Cr); auto.
        { unfold len. lia. }
        repeat (split; [assumption|]).
        apply Diagram_len_boxes. rewrite Br, E1, !length_app. reflexivity.
Qed.

Lemma except_InterchangerError_Some (m : result (option Diagram)) (d : Diagram) :
  except_InterchangerError m = Ok (Some d) -> m = Ok (Some d).
Proof. destruct m as [o|e]; simpl; auto. destruct e; discriminate. Qed.

Lemma move_in_slice_eq (first : Z) (n : nat) (k : Z) (diagram : Diagram) :
  move_in_slice first n k diagram =
  except_InterchangerError (
    res <- (if negb (k =? first + Z.of_nat n + 1)
            then interchange diagram k (first + Z.of_nat n + 1) false
            else Ok diagram) ;;
    side <- is_right_of (first + Z.of_nat n) res ;;
    match side with
    | None => Ok None
    | Some true => Ok (Some res)
    | Some false =>
        res <- interchange res (first + Z.of_nat n + 1) (first + Z.of_nat n)
                 false ;;
        match n with
        | O => Ok (Some res)
        | S n' => move_in_slice first n' (first + Z.of_nat n) res
        end
    end).
Proof. destruct n; reflexivity. Qed.

Lemma move_tail_preserves (last : Z)
    (cont : Diagram -> result (option Diagram)) (d1 r : Diagram) :
  (forall d2 r', wf d2 -> cont d2 = Ok (Some r') ->
     wf r' /\ Diagram_len r' = Diagram_len d2) ->
  wf d1 ->
  (side <- is_right_of last d1 ;;
   match side with
   | None => Ok None
   | Some true => Ok (Some d1)
   | Some false =>
       res <- interchange d1 (last + 1) last false ;; cont res
   end) = Ok (Some r) ->
  wf r /\ Diagram_len r = Diagram_len d1.
Proof.
  intros C W1 X.
  destruct (is_right_of last d1) as [[[|]|]|e]; cbn [bind] in X;
    try discriminate.
  - inversion X; subst r. auto.
  - destruct (interchange d1 (last + 1) last false) as [d2|e] eqn:I2;
      [|discriminate].
    destruct (interchange_preserves false d1 d2 _ _ W1 I2) as (W2 & _ & _ & L2).
    cbn [bind] in X. destruct (C d2 r W2 X) as [Wr Lr].
    split; [auto | congruence].
Qed.

Lemma move_in_slice_preserves (first : Z) (n : nat) :
  forall (k : Z) (d r : Diagram),
  wf d -> move_in_slice first n k d = Ok (Some r) ->
  wf r /\ Diagram_len r = Diagram_len d.
Proof.
  induction n as [|n IH]; intros k d r W H;
    rewrite move_in_slice_eq in H;
    apply except_InterchangerError_Some in H;
    (destruct (negb (k =? first + Z.of_nat _ + 1));
     [ destruct (interchange d k (first + Z.of_nat _ + 1) false) as [d1|e] eqn:I1;
       [|discriminate];
       destruct (interchange_preserves false d d1 _ _ W I1) as (W1 & _ & _ & L1);
       cbn [bind] in H; rewrite <- L1
     | cbn [bind] in H; rename d into d1; rename W into W1 ]);
    eapply move_tail_preserves; try exact H; auto.
  - intros d2 r' W2 X. inversion X; subst r'. auto.
  - intros d2 r' W2 X. inversion X; subst r'. auto.
  - intros d2 r' W2 X. apply (IH _ d2 r' W2 X).
  - intros d2 r' W2 X. apply (IH _ d2 r' W2 X).
Qed.

Lemma foliate_for_preserves (start : Z) (ks : list Z) :
  forall (n : nat) (d : Diagram) (ys : list Diagram)
         (n' : nat) (d' : Diagram) (ys' : list Diagram),
  wf d -> foliate_for start ks n d ys = Ok (n', d', ys') ->
  wf d' /\ Diagram_len d' = Diagram_len d.
Proof.
  induction ks as [|k ks IH]; intros n d ys n' d' ys' W H; simpl in H.
  - inversion H; subst. auto.
  - destruct (move_in_slice start n k d) as [[r|]|e] eqn:M; simpl in H;
      [| |discriminate].
    + destruct (move_in_slice_preserves start n k d r W M) as [Wr Lr].
      destruct (IH _ _ _ _ _ _ Wr H) as [W' L']. split; [auto | congruence].
    + apply (IH _ _ _ _ _ _ W H).
Qed.

(** The [while] loop of [foliate] ends within as many turns as there are
    boxes from [start] on. *)
Lemma foliate_while_total (fuel : nat) :
  forall (start : Z) (d : Diagram) (slices ys : list Diagram),
  wf d -> Diagram_len d - start <= Z.of_nat fuel ->
  foliate_while fuel start d slices ys <> None.
Proof.
  induction fuel as [|fuel IH]; intros start d slices ys W F; simpl.
  - destruct (start <? Diagram_len d) eqn:E; [|discriminate].
    apply Z.ltb_lt in E. lia.
  - destruct (start <? Diagram_len d) eqn:E; [|discriminate].
    destruct (foliate_for start (range2 (start + 1) (Diagram_len d)) 0 d ys)
      as [[[n d'] ys']|e] eqn:FF; [|discriminate].
    destruct (foliate_for_preserves _ _ _ _ _ _ _ _ W FF) as [W' L'].
    destruct (Diagram_getslice d' _) as [s|e]; [|discriminate].
    apply IH; auto. lia.
Qed.

Lemma py_index_ok {A} (l : list A) (i : Z) :
  - len l <= i < len l -> exists x, py_index l i = Ok x.
Proof.
  unfold len, py_index. intros H. cbv zeta.
  set (n := Z.of_nat (length l)) in *.
  set (k := if i <? 0 then n + i else i).
  assert (K : 0 <= k < n).
  { subst k. destruct (i <? 0) eqn:E;
      [apply Z.ltb_lt in E | apply Z.ltb_ge in E]; lia. }
  replace (k <? 0) with false by (symmetry; apply Z.ltb_ge; lia).
  replace (n <=? k) with false by (symmetry; apply Z.leb_gt; lia).
  cbn [orb].
  destruct (nth_error l (Z.to_nat k)) eqn:N; [eauto|].
  apply nth_error_None in N. lia.
Qed.

(** Slicing an arrow or a diagram by a range never raises. *)
Lemma cat_getslice_range (f : Arrow) (a b : option Z) :
  exists ls, cat_getslice f (mkSlice a b None) = Ok ls.
Proof.
  unfold cat_getslice. cbn [s_step s_start negb Z.eqb].
  cbv iota. rewrite py_getslice_step1. cbn [bind].
  destruct (py_slice (a_boxes f) a b) as [|x bs]; [|eexists; reflexivity].
  cbv zeta. set (start := match a with None => 0 | Some s => s end).
  destruct (len (a_boxes f) <=? start) eqn:E1; [eexists; reflexivity|].
  destruct (start <=? - len (a_boxes f)) eqn:E2; [eexists; reflexivity|].
  apply Z.leb_gt in E1, E2.
  destruct (py_index_ok (a_boxes f) start) as [l ->]; [lia|].
  cbn [bind]. eexists. reflexivity.
Qed.

Lemma Diagram_getslice_range (d : Diagram) (a b : option Z) :
  exists s, Diagram_getslice d (mkSlice a b None) = Ok s.
Proof.
  unfold Diagram_getslice.
  destruct (cat_getslice_range (layers d) a b) as [ls ->]. cbn [bind].
  rewrite Diagram_init_given by (rewrite !length_map; reflexivity).
  eauto.
Qed.

(** The last turn of the [while] loop: the slice is closed and, no box
    being left, the slices are returned. *)
Lemma foliate_while_last (fuel : nat) (start : Z) (d d' : Diagram) (n : nat)
    (slices ys ys' : list Diagram) :
  start < Diagram_len d ->
  foliate_for start (range2 (start + 1) (Diagram_len d)) 0 d ys
    = Ok (n, d', ys') ->
  Diagram_len d' <= start + Z.of_nat n + 1 ->
  exists s, foliate_while (S fuel) start d slices ys
            = Some (Ok (ys', slices ++ [s])).
Proof.
  intros L F E. simpl.
  replace (start <? Diagram_len d) with true by (symmetry; apply Z.ltb_lt; lia).
  rewrite F.
  destruct (Diagram_getslice_range d' (Some start) (Some (start + Z.of_nat n + 1)))
    as [s ->].
  exists s. destruct fuel; simpl;
    replace (start + Z.of_nat n + 1 <? Diagram_len d') with false
      by (symmetry; apply Z.ltb_ge; lia); reflexivity.
Qed.

Lemma foliate_while_S (fuel : nat) (start : Z) (d : Diagram)
    (slices ys : list Diagram) :
  foliate_while (S fuel) start d slices ys =
  if start <? Diagram_len d then
    match foliate_for start (range2 (start + 1) (Diagram_len d)) 0 d ys with
    | Raise e => Some (Raise e)
    | Ok (n, d', ys') =>
        match Diagram_getslice d'
                (mkSlice (Some start) (Some (start + Z.of_nat n + 1)) None) with
        | Raise e => Some (Raise e)
        | Ok s =>
            foliate_while fuel (start + Z.of_nat n + 1) d' (slices ++ [s]) ys'
        end
    end
  else Some (Ok (ys, slices)).
Proof. reflexivity. Qed.

Lemma is_right_of_two (t : Diagram) (l0 l1 : Layer) :
  wf t -> a_boxes (layers t) = [l0; l1] ->
  is_right_of 0 t =
  Ok (if len (l_left l1) + len (dom (l_box l1)) <=? len (l_left l0)
      then Some false
      else if len (l_left l0) + len (cod (l_box l0)) <=? len (l_left l1)
      then Some true else None).
Proof.
  intros W E. unfold is_right_of.
  rewrite <- (wf_offsets t W), <- (wf_boxes t W), E. cbn [map].
  change (py_index [len (l_left l0); len (l_left l1)] 0)
    with (Ok (A := Z) (len (l_left l0))).
  change (py_index [len (l_left l0); len (l_left l1)] (0 + 1))
    with (Ok (A := Z) (len (l_left l1))).
  change (py_index [l_box l0; l_box l1] 0) with (Ok (l_box l0)).
  change (py_index [l_box l0; l_box l1] (0 + 1)) with (Ok (l_box l1)).
  cbn [bind].
  destruct (len (l_left l1) + len (dom (l_box l1)) <=? len (l_left l0)); auto.
  destruct (len (l_left l0) + len (cod (l_box l0)) <=? len (l_left l1)); auto.
Qed.

(** The depth of a well-formed diagram of two boxes: one slice when the
    boxes are wire-disjoint, two slices otherwise. *)
Lemma depth_two_layers (t : Diagram) (l0 l1 : Layer) :
  wf t -> a_boxes (layers t) = [l0; l1] ->
  depth t =
  Some (Ok (if (len (l_left l1) + len (dom (l_box l1)) <=? len (l_left l0))
               || (len (l_left l0) + len (cod (l_box l0)) <=? len (l_left l1))
            then 1 else 2)).
Proof.
  intros W E.
  assert (Hb : boxes t = [l_box l0; l_box l1])
    by (rewrite <- (wf_boxes t W), E; reflexivity).
  assert (L : Diagram_len t = 2) by (unfold Diagram_len; rewrite Hb; reflexivity).
  pose proof (is_right_of_two t l0 l1 W E) as IR.
  assert (M : move_in_slice 0 0 1 t =
              except_InterchangerError (
                side <- is_right_of 0 t ;;
                match side with
                | None => Ok None
                | Some true => Ok (Some t)
                | Some false =>
                    res <- interchange t 1 0 false ;; Ok (Some res)
                end)) by reflexivity.
  rewrite IR in M.
  unfold depth, foliate. rewrite Hb. cbn [length].
  destruct (len (l_left l1) + len (dom (l_box l1)) <=? len (l_left l0)) eqn:R.
  - (* box1 left of box0: the two are interchanged *)
    cbn [bind orb] in M |- *.
    apply Z.leb_le in R.
    pose proof (interchange_unit false t [] [] l0 l1 W E) as I.
    rewrite (interchange_move_right _ _ _ _ R) in I. cbn [bind] in I.
    change (interchange t (len []) (len [] + 1) false)
      with (interchange t 0 (0 + 1) false) in I.
    rewrite <- interchange_unit_sym in I.
    change (interchange t (0 + 1) 0 false) with (interchange t 1 0 false) in I.
    rewrite I in M. cbn [bind except_InterchangerError] in M.
    match type of M with _ = Ok (Some ?x) => set (r := x) in * end.
    destruct (interchange_preserves false t r 1 0 W I) as (Wr & _ & _ & Lr).
    destruct (foliate_while_last 1 0 t r 1 [] [] ([] ++ [r])) as [s F].
    + lia.
    + rewrite L. change (range2 (0 + 1) 2) with [1].
      cbn [foliate_for]. rewrite M. reflexivity.
    + lia.
    + rewrite F. reflexivity.
  - destruct (len (l_left l0) + len (cod (l_box l0)) <=? len (l_left l1)) eqn:Lf.
    + (* box1 right of box0: it joins the slice where it is *)
      cbn [bind orb except_InterchangerError] in M |- *.
      destruct (foliate_while_last 1 0 t t 1 [] [] ([] ++ [t])) as [s F].
      * lia.
      * rewrite L. change (range2 (0 + 1) 2) with [1].
        cbn [foliate_for]. rewrite M. reflexivity.
      * lia.
      * rewrite F. reflexivity.
    + (* the boxes share wires: the slice closes *)
      cbn [bind orb except_InterchangerError] in M |- *.
      destruct (Diagram_getslice_range t (Some 0) (Some (0 + Z.of_nat 0 + 1)))
        as [s1 G1].
      destruct (foliate_while_last 0 (0 + Z.of_nat 0 + 1) t t 0 ([] ++ [s1]) [] [])
        as [s2 F].
      * lia.
      * rewrite L. reflexivity.
      * lia.
      * rewrite foliate_while_S, L. change (0 <? 2) with true. cbv iota.
        change (range2 (0 + 1) 2) with [1].
        cbn [foliate_for]. rewrite M. cbn [bind]. rewrite G1, F. reflexivity.
Qed.

(** C8, as stated, fails: for [f : x -> ()] and [g : () -> y], of matching
    type, [f >> g] is [Diagram(x, y, [f, g], [0, 0])], where [g] is
    right of no wire of [f]: the two boxes make one slice, and
    [(f >> g).depth() == 1]. *)
Lemma depth_of_composite_can_be_one :
  exists t,
    then_ (Box_diagram (box "f" ["x"] [])) (Box_diagram (box "g" [] ["y"]))
      = Ok t
    /\ cod (box "f" ["x"] []) = dom (box "g" [] ["y"])
    /\ depth t = Some (Ok 1)
    /\ depth t <> Some (Ok 2).
Proof.
  eexists. split; [reflexivity|]. split; [reflexivity|].
  split; [reflexivity|]. vm_compute. discriminate.
Qed.

Lemma then_Box_types (f g : Box) (t : Diagram) :
  then_ (Box_diagram f) (Box_diagram g) = Ok t -> cod f = dom g.
Proof.
  unfold then_, cat_then. simpl.
  destruct (Ty_eq (cod f) (dom g)) eqn:E; [|discriminate].
  intros _. apply Ty_eq_eq. exact E.
Qed.

(** C8, amended.  [depth] returns, for every well-formed diagram, the
    number of slices that [foliate] yields last; it is [0] for every
    identity diagram, [1] for every single box, [1] for the tensor of two
    single boxes, and for the composite [f >> g] of two single boxes of
    matching type it is [2] when that type is not empty and [1] when it is
    empty. *)
Theorem depth_counts_slices (d : Diagram) (x : Ty) (f g : Box) :
  wf d ->
  (exists r, depth d = Some r
             /\ forall ys slices, foliate d 0 = Some (Ok (ys, slices)) ->
                                  r = Ok (len slices))
  /\ depth (Id x) = Some (Ok 0)
  /\ depth (Box_diagram f) = Some (Ok 1)
  /\ (forall t, tensor (Box_diagram f) (Box_diagram g) = Ok t ->
                depth t = Some (Ok 1))
  /\ (forall t, then_ (Box_diagram f) (Box_diagram g) = Ok t ->
                cod f = dom g
                /\ (dom g <> [] -> depth t = Some (Ok 2))
                /\ (dom g = [] -> depth t = Some (Ok 1))).
Proof.
  intros W. split; [|split; [|split; [|split]]].
  - pose proof (foliate_while_total (length (boxes d)) 0 d [] [] W) as T.
    unfold depth, foliate in *.
    destruct (foliate_while (length (boxes d)) 0 d [] []) as [[[ys sl]|e]|].
    + exists (Ok (len sl)). split; [reflexivity|].
      intros ys' sl' H. inversion H. reflexivity.
    + exists (Raise e). split; [reflexivity|]. intros ys' sl' H. discriminate.
    + exfalso. apply T; [|reflexivity]. unfold Diagram_len, len. lia.
  - reflexivity.
  - reflexivity.
  - intros t T.
    pose proof (tensor_wf _ _ t (wf_Box_diagram f) (wf_Box_diagram g) T) as Wt.
    rewrite tensor_ok in T by apply wf_Box_diagram.
    inversion T as [Et]. rewrite Et.
    rewrite (depth_two_layers t
               (mkLayer [] f (Ty_tensor [] (dom g)))
               (mkLayer (Ty_tensor (cod f) []) g [])); auto.
    + cbn [l_left l_box]. unfold Ty_tensor. rewrite app_nil_r.
      replace (len [] + len (cod f) <=? len (cod f)) with true
        by (symmetry; apply Z.leb_le; unfold len; simpl; lia).
      rewrite orb_true_r. reflexivity.
    + rewrite <- Et. reflexivity.
  - intros t T. pose proof (then_Box_types f g t T) as E.
    pose proof (then_wf _ _ t (wf_Box_diagram f) (wf_Box_diagram g) T) as Wt.
    rewrite then_ok in T by (auto using wf_Box_diagram).
    inversion T as [Et]. rewrite Et.
    split; [exact E|].
    assert (D : depth t =
                Some (Ok (if (len (@nil Ob) + len (dom g) <=? len (@nil Ob))
                             || (len (@nil Ob) + len (cod f) <=? len (@nil Ob))
                          then 1 else 2))).
    { apply (depth_two_layers t (mkLayer [] f []) (mkLayer [] g [])); auto.
      rewrite <- Et. reflexivity. }
    rewrite E in D. split; intros N.
    + rewrite D. destruct (dom g) as [|a l]; [contradiction|].
      replace (len (@nil Ob) + len (a :: l) <=? len (@nil Ob)) with false
        by (symmetry; apply Z.leb_gt; unfold len; simpl length; lia).
      reflexivity.
    + rewrite D, N. reflexivity.
Qed.

Lemma depth_counts_slices_witness :
  depth (Box_diagram f0_xy) = Some (Ok 1)
  /\ (forall t, then_ (Box_diagram f0_xy) (Box_diagram (box "g" ["y"] ["x"])) = Ok t ->
                depth t = Some (Ok 2)).
Proof.
  destruct (depth_counts_slices three_boxes xyz f0_xy (box "g" ["y"] ["x"])
              wf_three_boxes) as (_ & _ & A & _ & B).
  split; [exact A|].
  intros t T. destruct (B t T) as (_ & C & _). apply C. discriminate.
Defined.

(* ================================================================== *)
(** * Monoidal functors are homomorphisms *)
(* ================================================================== *)

Lemma then_fields (d e : Diagram) :
  wf d -> wf e -> d_cod d = d_dom e ->
  exists r, then_ d e = Ok r /\ wf r
    /\ d_dom r = d_dom d /\ d_cod r = d_cod e
    /\ boxes r = boxes d ++ boxes e
    /\ offsets r = offsets d ++ offsets e.
Proof.
  intros Wd We E. pose proof (then_ok d e Wd We E) as T.
  eexists. split; [exact T|].
  split; [apply (then_wf d e _ Wd We T)|]. simpl. auto.
Qed.

Lemma tensor_fields (d e : Diagram) :
  wf d -> wf e ->
  exists r, tensor d e = Ok r /\ wf r
    /\ d_dom r = d_dom d ++ d_dom e /\ d_cod r = d_cod d ++ d_cod e
    /\ boxes r = boxes d ++ boxes e
    /\ offsets r = offsets d ++ map (fun n => n + len (d_cod d)) (offsets e).
Proof.
  intros Wd We. pose proof (tensor_ok d e Wd We) as T.
  eexists. split; [exact T|].
  split; [apply (tensor_wf d e _ Wd We T)|]. simpl. auto.
Qed.

Lemma ob_images_defined (F : MonoidalFunctor) (t : Ty) :
  defined_on_Ty F t -> ob_images F t = Ok (map (ob_image F) t).
Proof.
  induction 1 as [|x t [y Hy] _ IH]; simpl; auto.
  rewrite Hy. cbn [bind]. rewrite IH. cbn [bind].
  unfold ob_image. rewrite Hy. reflexivity.
Qed.

Lemma ob_images_Ok (F : MonoidalFunctor) (t : Ty) (ys : list Ty) :
  ob_images F t = Ok ys -> defined_on_Ty F t.
Proof.
  revert ys. induction t as [|x t IH]; intros ys H; simpl in *.
  - constructor.
  - destruct (ob F x) as [y|e] eqn:Hx; [|discriminate]. cbn [bind] in H.
    destruct (ob_images F t) as [zs|e] eqn:Ez; [|discriminate].
    constructor; [exists y; exact Hx | apply (IH zs eq_refl)].
Qed.

(** The image of a type is the tensor of the images of its objects. *)
Lemma F_Ty_defined (F : MonoidalFunctor) (t : Ty) :
  defined_on_Ty F t -> F_Ty F t = Ok (Ty_image F t).
Proof.
  intros D. unfold F_Ty. rewrite (ob_images_defined F t D). cbn [bind].
  rewrite Ty_sum_repeat_nil. reflexivity.
Qed.

Lemma F_Ty_Ok (F : MonoidalFunctor) (t t' : Ty) :
  F_Ty F t = Ok t' -> defined_on_Ty F t /\ t' = Ty_image F t.
Proof.
  intros H. assert (D : defined_on_Ty F t).
  { unfold F_Ty in H. destruct (ob_images F t) as [ys|e] eqn:E; [|discriminate].
    eapply ob_images_Ok; eauto. }
  split; [exact D|]. rewrite (F_Ty_defined F t D) in H. congruence.
Qed.

Lemma Ty_image_app (F : MonoidalFunctor) (s t : Ty) :
  Ty_image F (s ++ t) = Ty_image F s ++ Ty_image F t.
Proof. unfold Ty_image. rewrite map_app, concat_app. reflexivity. Qed.

Lemma defined_on_Ty_app (F : MonoidalFunctor) (s t : Ty) :
  defined_on_Ty F (s ++ t) <-> defined_on_Ty F s /\ defined_on_Ty F t.
Proof. apply Forall_app. Qed.

Lemma box_typed_image (F : MonoidalFunctor) (f : Box) :
  box_typed F f ->
  ar F f = Ok (ar_image F f) /\ wf (ar_image F f)
  /\ d_dom (ar_image F f) = Ty_image F (dom f)
  /\ d_cod (ar_image F f) = Ty_image F (cod f)
  /\ defined_on_Ty F (dom f) /\ defined_on_Ty F (cod f).
Proof.
  intros (fb & A & W & D & C). unfold ar_image. rewrite A.
  destruct (F_Ty_Ok F _ _ D) as [DD ED]. destruct (F_Ty_Ok F _ _ C) as [DC EC].
  split; [reflexivity|]. split; [exact W|]. split; [exact ED|].
  split; [exact EC|]. split; assumption.
Qed.

(** The loop of the functor over the layers of a well-formed diagram:
    it composes the images of the layers onto [res]. *)
Lemma F_scan_layers (F : MonoidalFunctor) (ls : list Layer) :
  forall (scan c : Ty) (res : Diagram),
  chain scan ls c ->
  defined_on_Ty F scan ->
  Forall (box_typed F) (map l_box ls) ->
  wf res -> d_cod res = Ty_image F scan ->
  exists r,
    F_scan F scan res (map (fun l => (l_box l, len (l_left l))) ls) = Ok r
    /\ wf r /\ d_dom r = d_dom res /\ d_cod r = Ty_image F c
    /\ defined_on_Ty F c
    /\ boxes r = boxes res ++ image_boxes F ls
    /\ offsets r = offsets res ++ image_offsets F ls.
Proof.
  induction ls as [|l ls IH]; intros scan c res Ch D T W E.
  - simpl in Ch. subst c. exists res. simpl.
    rewrite !app_nil_r. repeat (split; [auto|]). reflexivity.
  - destruct Ch as [Ch1 Ch2]. inversion T as [|? ? Tb Tl]; subst.
    destruct l as [left box right]. cbn [l_box l_left l_right] in *.
    unfold Layer_dom, Layer_cod, Ty_tensor in *. cbn [l_box l_left l_right] in *.
    destruct (box_typed_image F box Tb) as (A & Wb & Db & Cb & DD & DC).
    apply defined_on_Ty_app in D. destruct D as [D12 Dr].
    apply defined_on_Ty_app in D12. destruct D12 as [Dl _].
    cbn [map F_scan l_box l_left l_right].
    assert (S1 : slice_to ((left ++ dom box) ++ right) (len left) = left).
    { rewrite <- app_assoc. apply slice_to_at. reflexivity. }
    assert (S2 : slice_from ((left ++ dom box) ++ right)
                            (len left + len (dom box)) = right).
    { apply slice_from_at. rewrite len_app. reflexivity. }
    rewrite S1, S2.
    rewrite (F_Ty_defined F left Dl), (F_Ty_defined F right Dr). cbn [bind].
    unfold F_Box. rewrite A. cbn [bind].
    destruct (tensor_fields (Id (Ty_image F left)) (ar_image F box)
                (wf_Id _) Wb) as (lb & T1 & W1 & D1 & C1 & B1 & O1).
    rewrite T1. cbn [bind].
    destruct (tensor_fields lb (Id (Ty_image F right)) W1 (wf_Id _))
      as (lbr & T2 & W2 & D2 & C2 & B2 & O2).
    rewrite T2. cbn [bind].
    destruct (then_fields res lbr W W2) as (res' & T3 & W3 & D3 & C3 & B3 & O3).
    { rewrite E, D2, D1, Db, !Ty_image_app. reflexivity. }
    rewrite T3. cbn [bind].
    destruct (IH ((left ++ cod box) ++ right) c res') as
      (r & S & Wr & Dmr & Cdr & Dc & Br & Or); auto.
    { repeat (apply defined_on_Ty_app; split); auto. }
    { rewrite C3, C2, C1, Cb, !Ty_image_app. reflexivity. }
    exists r. rewrite <- app_assoc in S. rewrite S.
    split; [reflexivity|]. split; [exact Wr|].
    split; [congruence|]. split; [exact Cdr|]. split; [exact Dc|].
    split.
    + rewrite Br, B3, B2, B1. simpl. rewrite app_nil_r, <- app_assoc.
      reflexivity.
    + rewrite Or, O3, O2, O1. simpl. rewrite app_nil_r, <- app_assoc.
      reflexivity.
Qed.

Lemma combine_layers (ls : list Layer) :
  combine (map l_box ls) (map (fun l => len (l_left l)) ls)
  = map (fun l => (l_box l, len (l_left l))) ls.
Proof. induction ls as [|l ls IH]; simpl; congruence. Qed.

(** The image of a well-formed diagram on which the functor is defined
    and typed. *)
Lemma F_Diagram_layers (F : MonoidalFunctor) (d : Diagram) :
  wf d -> functor_on F d ->
  exists r,
    F_Diagram F d = Ok r /\ wf r
    /\ d_dom r = Ty_image F (d_dom d) /\ d_cod r = Ty_image F (d_cod d)
    /\ defined_on_Ty F (d_cod d)
    /\ boxes r = image_boxes F (a_boxes (layers d))
    /\ offsets r = image_offsets F (a_boxes (layers d)).
Proof.
  intros W [D T]. unfold F_Diagram.
  rewrite (F_Ty_defined F _ D). cbn [bind].
  rewrite <- (wf_boxes d W), <- (wf_offsets d W), combine_layers.
  destruct (F_scan_layers F (a_boxes (layers d)) (d_dom d) (d_cod d)
              (Id (Ty_image F (d_dom d))))
    as (r & S & Wr & Dr & Cr & Dc & Br & Or); auto.
  - apply (wf_chain d W).
  - rewrite (wf_boxes d W). exact T.
  - apply wf_Id.
  - exists r. repeat (split; [assumption|]). assumption.
Qed.

Lemma image_boxes_app (F : MonoidalFunctor) (ls1 ls2 : list Layer) :
  image_boxes F (ls1 ++ ls2) = image_boxes F ls1 ++ image_boxes F ls2.
Proof. apply flat_map_app. Qed.

Lemma image_offsets_app (F : MonoidalFunctor) (ls1 ls2 : list Layer) :
  image_offsets F (ls1 ++ ls2) = image_offsets F ls1 ++ image_offsets F ls2.
Proof. apply flat_map_app. Qed.

Lemma image_boxes_pad (F : MonoidalFunctor) (g : Layer -> Layer) (ls : list Layer) :
  (forall l, l_box (g l) = l_box l) ->
  image_boxes F (map g ls) = image_boxes F ls.
Proof.
  intros H. unfold image_boxes.
  induction ls as [|l ls IH]; [reflexivity|].
  cbn [map flat_map]. rewrite H, IH. reflexivity.
Qed.

Lemma image_offsets_pad_right (F : MonoidalFunctor) (t : Ty) (ls : list Layer) :
  image_offsets F
    (map (fun l => mkLayer (l_left l) (l_box l) (Ty_tensor (l_right l) t)) ls)
  = image_offsets F ls.
Proof.
  unfold image_offsets.
  induction ls as [|l ls IH]; [reflexivity|].
  cbn [map flat_map l_left l_box]. rewrite IH. reflexivity.
Qed.

Lemma image_offsets_pad_left (F : MonoidalFunctor) (t : Ty) (ls : list Layer) :
  image_offsets F
    (map (fun l => mkLayer (Ty_tensor t (l_left l)) (l_box l) (l_right l)) ls)
  = map (fun n => n + len (Ty_image F t)) (image_offsets F ls).
Proof.
  unfold image_offsets.
  induction ls as [|l ls IH]; [reflexivity|].
  cbn [map flat_map l_left l_box]. rewrite IH, map_app, map_map.
  f_equal. apply map_ext. intros n.
  unfold Ty_tensor. rewrite Ty_image_app, len_app. lia.
Qed.

(** On a single box the loop gives the image that the direct lookup
    gives. *)
Lemma F_Diagram_Box (F : MonoidalFunctor) (f : Box) :
  box_typed F f ->
  exists r fb,
    F_Diagram F (Box_diagram f) = Ok r /\ F_Box F f = Ok fb
    /\ Diagram_eq r fb = true.
Proof.
  intros T. destruct (box_typed_image F f T) as (A & Wb & Db & Cb & DD & DC).
  destruct (F_Diagram_layers F (Box_diagram f) (wf_Box_diagram f))
    as (r & E & Wr & Dr & Cr & _ & Br & Or).
  { split; [exact DD|]. constructor; [exact T | constructor]. }
  exists r, (ar_image F f). split; [exact E|]. split; [exact A|].
  apply Diagram_eq_iff. simpl in *.
  split; [congruence|]. split; [congruence|].
  rewrite Br, Or, !app_nil_r. split; [reflexivity|].
  rewrite <- (map_id (offsets (ar_image F f))) at 2.
  apply map_ext. intros n. unfold Ty_image, len. simpl. lia.
Qed.

(** C7, as stated, fails: the functor checks neither its mappings nor its
    argument.  With a generator mapping that does not respect types, here
    [f0 : x -> y] sent to [g : x -> ()], [F(f0 @ f1)] raises [AxiomError]
    while [F(f0) @ F(f1)] returns: the loop goes on with the wires
    [f0.cod], not with those of the image.  And on a diagram that is not
    well formed, here [Diagram(xyz, xyz, [f], [-2])], the identity mappings
    give an [F(Id(a) @ d)] that raises while [F(Id(a)) @ F(d)] returns. *)
Lemma functor_is_not_homomorphism_on_every_input :
  (exists t r1 r2 r,
      tensor (Box_diagram f0_xy) (Box_diagram f1_zw) = Ok t
      /\ F_Diagram ill_typed_functor t = Raise AxiomError
      /\ F_Box ill_typed_functor f0_xy = Ok r1
      /\ F_Box ill_typed_functor f1_zw = Ok r2
      /\ tensor r1 r2 = Ok r)
  /\ (exists t r1 r2 r,
        tensor (Id ["a"]) negative_offset_diagram = Ok t
        /\ F_Diagram identity_functor t = Raise AxiomError
        /\ F_Diagram identity_functor (Id ["a"]) = Ok r1
        /\ F_Diagram identity_functor negative_offset_diagram = Ok r2
        /\ tensor r1 r2 = Ok r).
Proof.
  split; do 4 eexists; repeat split; reflexivity.
Qed.

(** C7, amended.  Let [F] be defined and typed on the well-formed diagrams
    [d1], [d2] (each object has an image and each box [f] is mapped to a
    well-formed diagram from [F(f.dom)] to [F(f.cod)]).  Then the image of
    a type is the tensor, in order, of the images of its objects, and it
    preserves the tensor of types; if [d1 >> d2] is defined then
    [F(d1 >> d2) == F(d1) >> F(d2)]; and [F(d1 @ d2) == F(d1) @ F(d2)]. *)
Theorem functor_is_homomorphism (F : MonoidalFunctor) (d1 d2 : Diagram) :
  wf d1 -> wf d2 -> functor_on F d1 -> functor_on F d2 ->
  (forall t : Ty, defined_on_Ty F t ->
     F_Ty F t = Ok (concat (map (ob_image F) t))
     /\ forall s, defined_on_Ty F s ->
          exists fs ft, F_Ty F s = Ok fs /\ F_Ty F t = Ok ft
                        /\ F_Ty F (Ty_tensor s t) = Ok (Ty_tensor fs ft))
  /\ (forall t, then_ d1 d2 = Ok t ->
        exists ft r1 r2 r,
          F_Diagram F t = Ok ft /\ F_Diagram F d1 = Ok r1
          /\ F_Diagram F d2 = Ok r2 /\ then_ r1 r2 = Ok r
          /\ Diagram_eq ft r = true)
  /\ (exists t ft r1 r2 r,
        tensor d1 d2 = Ok t
        /\ F_Diagram F t = Ok ft /\ F_Diagram F d1 = Ok r1
        /\ F_Diagram F d2 = Ok r2 /\ tensor r1 r2 = Ok r
        /\ Diagram_eq ft r = true).
Proof.
  intros W1 W2 [D1 T1] [D2 T2].
  destruct (F_Diagram_layers F d1 W1 (conj D1 T1))
    as (r1 & E1 & Wr1 & Dr1 & Cr1 & Dc1 & Br1 & Or1).
  destruct (F_Diagram_layers F d2 W2 (conj D2 T2))
    as (r2 & E2 & Wr2 & Dr2 & Cr2 & Dc2 & Br2 & Or2).
  split; [|split].
  - intros t Dt. split; [apply (F_Ty_defined F t Dt)|].
    intros s Ds. exists (Ty_image F s), (Ty_image F t).
    split; [apply (F_Ty_defined F s Ds)|].
    split; [apply (F_Ty_defined F t Dt)|].
    unfold Ty_tensor. rewrite F_Ty_defined, Ty_image_app; auto.
    apply defined_on_Ty_app. auto.
  - intros t T.
    assert (Et : d_cod d1 = d_dom d2).
    { unfold then_, cat_then in T.
      destruct (Ty_eq (a_cod (layers d1)) (a_dom (layers d2))) eqn:Q;
        [|discriminate].
      apply Ty_eq_eq in Q. rewrite (wf_cod d1 W1), (wf_dom d2 W2) in Q. exact Q. }
    pose proof (then_wf d1 d2 t W1 W2 T) as Wt.
    rewrite then_ok in T by auto. inversion T as [Ht]. clear T. subst t.
    destruct (F_Diagram_layers F _ Wt) as (ft & E & Wf & Df & Cf & _ & Bf & Of).
    { split; [exact D1|]. simpl. apply Forall_app. auto. }
    destruct (then_fields r1 r2 Wr1 Wr2) as (r & Tr & Wr & Dr & Cr & Bx & Ox).
    { rewrite Cr1, Dr2, Et. reflexivity. }
    exists ft, r1, r2, r. repeat (split; [assumption|]).
    apply Diagram_eq_iff. simpl in Df, Cf, Bf, Of.
    split; [congruence|]. split; [congruence|]. split.
    + rewrite Bf, Bx, Br1, Br2. apply image_boxes_app.
    + rewrite Of, Ox, Or1, Or2. apply image_offsets_app.
  - pose proof (tensor_ok d1 d2 W1 W2) as T.
    match type of T with _ = Ok ?x => set (t := x) in * end.
    pose proof (tensor_wf d1 d2 t W1 W2 T) as Wt.
    destruct (F_Diagram_layers F t Wt) as (ft & E & Wf & Df & Cf & _ & Bf & Of).
    { split; simpl.
      - apply defined_on_Ty_app. auto.
      - apply Forall_app. auto. }
    destruct (tensor_fields r1 r2 Wr1 Wr2) as (r & Tr & Wr & Dr & Cr & Bx & Ox).
    exists t, ft, r1, r2, r. repeat (split; [assumption|]).
    apply Diagram_eq_iff. simpl in Df, Cf, Bf, Of.
    split; [rewrite Df, Dr, Dr1, Dr2; apply Ty_image_app|].
    split; [rewrite Cf, Cr, Cr1, Cr2; apply Ty_image_app|].
    split.
    + rewrite Bf, Bx, Br1, Br2, image_boxes_app.
      rewrite !image_boxes_pad by reflexivity. reflexivity.
    + rewrite Of, Ox, Or1, Or2, image_offsets_app.
      rewrite image_offsets_pad_right, image_offsets_pad_left, Cr1.
      reflexivity.
Qed.

Lemma identity_functor_defined (t : Ty) : defined_on_Ty identity_functor t.
Proof. induction t; constructor; auto. exists [a]. reflexivity. Qed.

Lemma identity_functor_Ty (t : Ty) : Ty_image identity_functor t = t.
Proof.
  unfold Ty_image. induction t as [|x t IH]; simpl; auto. rewrite IH. reflexivity.
Qed.

Lemma identity_functor_typed (f : Box) : box_typed identity_functor f.
Proof.
  exists (Box_diagram f). split; [reflexivity|]. split; [apply wf_Box_diagram|].
  rewrite !F_Ty_defined by apply identity_functor_defined.
  rewrite !identity_functor_Ty. auto.
Qed.

Lemma identity_functor_on (d : Diagram) : functor_on identity_functor d.
Proof.
  split; [apply identity_functor_defined|].
  apply Forall_forall. intros f _. apply identity_functor_typed.
Qed.

Lemma swap_functor_on (f : Box) :
  f = f0_xy \/ f = f1_zw -> functor_on swap_functor (Box_diagram f).
Proof.
  intros [->| ->]; split.
  - repeat constructor. eexists. reflexivity.
  - repeat constructor. exists (Box_diagram f1_zw).
    split; [reflexivity|]. split; [apply wf_Box_diagram|].
    split; reflexivity.
  - repeat constructor. eexists. reflexivity.
  - repeat constructor. exists (Box_diagram f0_xy).
    split; [reflexivity|]. split; [apply wf_Box_diagram|].
    split; reflexivity.
Qed.

Lemma functor_is_homomorphism_witness :
  exists t ft r1 r2 r,
    tensor (Box_diagram f0_xy) (Box_diagram f1_zw) = Ok t
    /\ F_Diagram swap_functor t = Ok ft
    /\ F_Diagram swap_functor (Box_diagram f0_xy) = Ok r1
    /\ F_Diagram swap_functor (Box_diagram f1_zw) = Ok r2
    /\ tensor r1 r2 = Ok r
    /\ Diagram_eq ft r = true.
Proof.
  exact (proj2 (proj2 (functor_is_homomorphism swap_functor
                         (Box_diagram f0_xy) (Box_diagram f1_zw)
                         (wf_Box_diagram f0_xy) (wf_Box_diagram f1_zw)
                         (swap_functor_on f0_xy (or_introl eq_refl))
                         (swap_functor_on f1_zw (or_intror eq_refl))))).
Defined.

(* ================================================================== *)
(** * Further properties: composition and tensor *)
(* ================================================================== *)

(** X1: Identities are units for [>>]: [Id(d.dom) >> d == d == d >> Id(d.cod)]
    for a well-formed [d], as the docstring of [Id] asserts for a box. *)
Theorem then_Id_unit (d : Diagram) :
  wf d ->
  exists l r,
    then_ (Id (d_dom d)) d = Ok l /\ then_ d (Id (d_cod d)) = Ok r
    /\ Diagram_eq l d = true /\ Diagram_eq r d = true
    /\ wf l /\ wf r.
Proof.
  intros W.
  destruct (then_fields (Id (d_dom d)) d (wf_Id _) W eq_refl)
    as (l & Tl & Wl & Dl & Cl & Bl & Ol).
  destruct (then_fields d (Id (d_cod d)) W (wf_Id _) eq_refl)
    as (r & Tr & Wr & Dr & Cr & Br & Or).
  exists l, r. split; [exact Tl|]. split; [exact Tr|].
  split; [|split; [|split; assumption]]; apply Diagram_eq_iff.
  - rewrite Dl, Cl, Bl, Ol. simpl. auto.
  - rewrite Dr, Cr, Br, Or. simpl. rewrite !app_nil_r. auto.
Qed.

Lemma then_Id_unit_witness :
  exists l r,
    then_ (Id (d_dom three_boxes)) three_boxes = Ok l
    /\ then_ three_boxes (Id (d_cod three_boxes)) = Ok r
    /\ Diagram_eq l three_boxes = true /\ Diagram_eq r three_boxes = true
    /\ wf l /\ wf r.
Proof. exact (then_Id_unit three_boxes wf_three_boxes). Defined.

(** X2: [>>] on well-formed diagrams is defined exactly when the codomain of
    the first is the domain of the second, it raises [AxiomError]
    otherwise, and it is associative: [(d >> e) >> f == d >> (e >> f)]. *)
Theorem then_defined_and_associative (d e f : Diagram) :
  wf d -> wf e -> wf f ->
  ((exists r, then_ d e = Ok r) <-> d_cod d = d_dom e)
  /\ (d_cod d <> d_dom e -> then_ d e = Raise AxiomError)
  /\ (d_cod d = d_dom e -> d_cod e = d_dom f ->
      exists de ef l r,
        then_ d e = Ok de /\ then_ e f = Ok ef
        /\ then_ de f = Ok l /\ then_ d ef = Ok r
        /\ Diagram_eq l r = true).
Proof.
  intros Wd We Wf. split; [|split].
  - split.
    + intros [r H]. destruct (list_eq_dec string_dec (d_cod d) (d_dom e)) as [E|N];
        auto.
      rewrite (then_mismatch d e Wd We N) in H. discriminate.
    + intros E. eexists. apply (then_ok d e Wd We E).
  - apply (then_mismatch d e Wd We).
  - intros E1 E2.
    destruct (then_fields d e Wd We E1) as (de & T1 & W1 & D1 & C1 & B1 & O1).
    destruct (then_fields e f We Wf E2) as (ef & T2 & W2 & D2 & C2 & B2 & O2).
    destruct (then_fields de f W1 Wf) as (l & T3 & W3 & D3 & C3 & B3 & O3);
      [congruence|].
    destruct (then_fields d ef Wd W2) as (r & T4 & W4 & D4 & C4 & B4 & O4);
      [congruence|].
    exists de, ef, l, r. repeat (split; [assumption|]).
    apply Diagram_eq_iff.
    rewrite D3, C3, B3, O3, D4, C4, B4, O4, B1, O1, B2, O2, D1, C2.
    rewrite !app_assoc. auto.
Qed.

Lemma then_defined_and_associative_witness :
  then_ (Box_diagram f0_xy) (Box_diagram f1_zw) = Raise AxiomError.
Proof.
  refine (proj1 (proj2 (then_defined_and_associative
                          (Box_diagram f0_xy) (Box_diagram f1_zw) three_boxes
                          (wf_Box_diagram _) (wf_Box_diagram _) wf_three_boxes)) _).
  discriminate.
Defined.

Lemma map_add_zero (l : list Z) : map (fun n => n + 0) l = l.
Proof.
  rewrite <- (map_id l) at 2. apply map_ext. intros n. lia.
Qed.

(** X3: [Id(Ty())] is a unit for [@], [@] is associative, and a tensor is
    the composite of its two whiskerings:
    [d @ e == d @ Id(e.dom) >> Id(d.cod) @ e], as the docstring of
    [tensor] asserts for two boxes. *)
Theorem tensor_laws (d e f : Diagram) :
  wf d -> wf e -> wf f ->
  (exists l r,
      tensor (Id []) d = Ok l /\ tensor d (Id []) = Ok r
      /\ Diagram_eq l d = true /\ Diagram_eq r d = true)
  /\ (exists de ef l r,
        tensor d e = Ok de /\ tensor e f = Ok ef
        /\ tensor de f = Ok l /\ tensor d ef = Ok r
        /\ Diagram_eq l r = true)
  /\ (exists de dI Ie r,
        tensor d e = Ok de /\ tensor d (Id (d_dom e)) = Ok dI
        /\ tensor (Id (d_cod d)) e = Ok Ie /\ then_ dI Ie = Ok r
        /\ Diagram_eq de r = true /\ wf de).
Proof.
  intros Wd We Wf. split; [|split].
  - destruct (tensor_fields (Id []) d (wf_Id _) Wd)
      as (l & Tl & Wl & Dl & Cl & Bl & Ol).
    destruct (tensor_fields d (Id []) Wd (wf_Id _))
      as (r & Tr & Wr & Dr & Cr & Br & Or).
    exists l, r. split; [exact Tl|]. split; [exact Tr|].
    split; apply Diagram_eq_iff.
    + rewrite Dl, Cl, Bl, Ol. simpl. rewrite map_add_zero. auto.
    + rewrite Dr, Cr, Br, Or. simpl. rewrite !app_nil_r. auto.
  - destruct (tensor_fields d e Wd We) as (de & T1 & W1 & D1 & C1 & B1 & O1).
    destruct (tensor_fields e f We Wf) as (ef & T2 & W2 & D2 & C2 & B2 & O2).
    destruct (tensor_fields de f W1 Wf) as (l & T3 & W3 & D3 & C3 & B3 & O3).
    destruct (tensor_fields d ef Wd W2) as (r & T4 & W4 & D4 & C4 & B4 & O4).
    exists de, ef, l, r. repeat (split; [assumption|]).
    apply Diagram_eq_iff.
    rewrite D3, C3, B3, O3, D4, C4, B4, O4, B1, O1, B2, O2, D1, C1, D2, C2.
    rewrite <- !app_assoc, map_app, map_map.
    repeat split; auto.
    do 2 f_equal. apply map_ext. intros n. rewrite len_app. lia.
  - destruct (tensor_fields d e Wd We) as (de & T1 & W1 & D1 & C1 & B1 & O1).
    destruct (tensor_fields d (Id (d_dom e)) Wd (wf_Id _))
      as (dI & T2 & W2 & D2 & C2 & B2 & O2).
    destruct (tensor_fields (Id (d_cod d)) e (wf_Id _) We)
      as (Ie & T3 & W3 & D3 & C3 & B3 & O3).
    destruct (then_fields dI Ie W2 W3) as (r & T4 & W4 & D4 & C4 & B4 & O4);
      [rewrite C2, D3; reflexivity|].
    exists de, dI, Ie, r. repeat (split; [assumption|]).
    split; [|exact W1]. apply Diagram_eq_iff.
    rewrite D1, C1, B1, O1, D4, C4, B4, O4, D2, C3, B2, B3, O2, O3. simpl.
    rewrite !app_nil_r. auto.
Qed.

Lemma tensor_laws_witness :
  exists l r,
    tensor (Id []) three_boxes = Ok l /\ tensor three_boxes (Id []) = Ok r
    /\ Diagram_eq l three_boxes = true /\ Diagram_eq r three_boxes = true.
Proof.
  exact (proj1 (tensor_laws three_boxes (Box_diagram f0_xy) (Box_diagram f1_zw)
                  wf_three_boxes (wf_Box_diagram _) (wf_Box_diagram _))).
Defined.

(* ================================================================== *)
(** * Further properties: construction *)
(* ================================================================== *)

Lemma then_layer_Ok (f ls : Arrow) (l : Layer) :
  then_layer f l = Ok ls ->
  Layer_dom l = a_cod f
  /\ ls = mkArrow (a_dom f) (Layer_cod l) (a_boxes f ++ [l]).
Proof.
  unfold then_layer, cat_then. simpl.
  destruct (Ty_eq (a_cod f) (Layer_dom l)) eqn:E; [|discriminate].
  apply Ty_eq_eq in E. intros H. inversion H. auto.
Qed.

Lemma scan_of_acc (dom0 : Ty) (acc : Arrow) :
  (a_boxes acc = [] -> a_cod acc = dom0) ->
  match a_boxes acc with [] => dom0 | _ => a_cod acc end = a_cod acc.
Proof. destruct (a_boxes acc); auto. intros H. symmetry. auto. Qed.

(** The loop of [__init__] on the boxes and offsets of a chain of layers
    rebuilds these layers. *)
Lemma scan_layers_chain (dom0 : Ty) (ls : list Layer) :
  forall (acc : Arrow) (c : Ty),
  (a_boxes acc = [] -> a_cod acc = dom0) ->
  chain (a_cod acc) ls c ->
  scan_layers dom0 acc (map (fun l => (l_box l, len (l_left l))) ls)
  = Ok (mkArrow (a_dom acc) c (a_boxes acc ++ ls)).
Proof.
  induction ls as [|l ls IH]; intros acc c I Ch.
  - simpl in *. subst c. rewrite app_nil_r. destruct acc; reflexivity.
  - destruct Ch as [Ch1 Ch2]. cbn [map scan_layers].
    rewrite (scan_of_acc dom0 acc I), <- Ch1.
    destruct l as [left b right]. cbn [l_box l_left].
    unfold Layer_dom at 1 2, Ty_tensor. cbn [l_box l_left l_right].
    assert (S1 : slice_to ((left ++ dom b) ++ right) (len left) = left).
    { rewrite <- app_assoc. apply slice_to_at. reflexivity. }
    assert (S2 : slice_from ((left ++ dom b) ++ right) (len left + len (dom b))
                 = right).
    { apply slice_from_at. rewrite len_app. reflexivity. }
    rewrite S1, S2. unfold then_layer.
    rewrite cat_then_ok by (simpl; congruence). cbn [bind].
    rewrite (IH _ c); simpl.
    + rewrite <- app_assoc. reflexivity.
    + intros H. destruct (a_boxes acc); discriminate.
    + exact Ch2.
Qed.

(** What the loop of [__init__] builds when it does not raise and the
    offsets fit: a chain of layers with the given boxes and offsets. *)
Lemma scan_layers_fits (dom0 : Ty) (bo : list (Box * Z)) :
  forall (acc res : Arrow),
  (a_boxes acc = [] -> a_cod acc = dom0) ->
  scan_layers dom0 acc bo = Ok res ->
  fits (a_cod acc) bo = true ->
  exists ls,
    res = mkArrow (a_dom acc) (a_cod res) (a_boxes acc ++ ls)
    /\ chain (a_cod acc) ls (a_cod res)
    /\ map l_box ls = map fst bo
    /\ map (fun l => len (l_left l)) ls = map snd bo.
Proof.
  induction bo as [|[b off] bo IH]; intros acc res I S F.
  - simpl in S. inversion S; subst res. exists []. rewrite app_nil_r.
    destruct acc; simpl; auto.
  - cbn [scan_layers] in S. rewrite (scan_of_acc dom0 acc I) in S.
    cbn [fits] in F. apply andb_true_iff in F. destruct F as [F1 F3].
    apply andb_true_iff in F1. destruct F1 as [F1 F2].
    apply Z.leb_le in F1, F2.
    set (l := mkLayer (slice_to (a_cod acc) off) b
                      (slice_from (a_cod acc) (off + len (dom b)))) in *.
    destruct (then_layer acc l) as [acc'|e] eqn:T; [|discriminate].
    cbn [bind] in S. apply then_layer_Ok in T. destruct T as [T1 T2].
    destruct (IH acc' res) as (ls & R & Ch & Bx & Of); auto.
    + subst acc'. simpl. intros H. destruct (a_boxes acc); discriminate.
    + subst acc'. simpl. unfold Layer_cod, Ty_tensor, l. simpl.
      rewrite <- app_assoc. exact F3.
    + exists (l :: ls). subst acc'. simpl in *.
      split; [rewrite <- app_assoc in R; exact R|].
      split; [split; [exact T1 | exact Ch]|].
      split; [rewrite Bx; reflexivity|].
      rewrite Of. f_equal. unfold l. simpl.
      pose proof (len_nonneg (dom b)).
      rewrite slice_to_nat by lia. unfold len.
      rewrite length_firstn. unfold len in *. lia.
Qed.

Lemma map_fst_combine {A B} (l : list A) (l' : list B) :
  length l = length l' -> map fst (combine l l') = l.
Proof.
  revert l'. induction l as [|x l IH]; intros [|y l'] H; simpl in *;
    try discriminate; auto.
  rewrite IH; auto.
Qed.

Lemma map_snd_combine {A B} (l : list A) (l' : list B) :
  length l = length l' -> map snd (combine l l') = l'.
Proof.
  revert l'. induction l as [|x l IH]; intros [|y l'] H; simpl in *;
    try discriminate; auto.
  rewrite IH; auto.
Qed.

(** X4: [Diagram.__init__] without given layers: boxes and offsets of unequal
    length raise [ValueError]; and when the offsets fit the wires and the
    construction does not raise, the diagram is well formed, with the
    domain, codomain, boxes and offsets given. *)
Theorem Diagram_init_sound (dom0 cod0 : Ty) (bs : list Box) (offs : list Z)
    (d : Diagram) :
  (length bs <> length offs ->
   Diagram_init dom0 cod0 bs offs None = Raise ValueError)
  /\ (Diagram_init dom0 cod0 bs offs None = Ok d ->
      fits dom0 (combine bs offs) = true ->
      wf d /\ d_dom d = dom0 /\ d_cod d = cod0
      /\ boxes d = bs /\ offsets d = offs).
Proof.
  split.
  - intros N. unfold Diagram_init.
    apply Nat.eqb_neq in N. rewrite N. reflexivity.
  - unfold Diagram_init. intros H F.
    destruct (length bs =? length offs)%nat eqn:L; [|discriminate].
    apply Nat.eqb_eq in L. cbn [negb] in H.
    destruct (scan_layers dom0 (cat_Id dom0) (combine bs offs)) as [ls|e] eqn:S;
      [|discriminate].
    cbn [bind] in H.
    destruct (scan_layers_fits dom0 (combine bs offs) (cat_Id dom0) ls)
      as (lys & R & Ch & Bx & Of); auto.
    unfold cat_then in H. cbn [cat_Id a_dom a_cod a_boxes] in H.
    destruct (Ty_eq (a_cod ls) cod0) eqn:E; [|discriminate].
    apply Ty_eq_eq in E. cbn [bind] in H. inversion H; subst d; clear H.
    rewrite R in *. simpl in *. rewrite app_nil_r.
    rewrite map_fst_combine in Bx by exact L.
    rewrite map_snd_combine in Of by exact L.
    split; [|auto]. constructor; simpl; auto. rewrite <- E. exact Ch.
Qed.

Lemma Diagram_init_sound_witness :
  wf three_boxes /\ offsets three_boxes = [0; 1; 2].
Proof.
  destruct (proj2 (Diagram_init_sound xyz xyz (boxes three_boxes) [0; 1; 2]
                     three_boxes) eq_refl eq_refl) as (W & _ & _ & _ & O).
  split; [exact W | exact O].
Defined.

Lemma fits_chain (ls : list Layer) :
  forall (scan c : Ty),
  chain scan ls c ->
  fits scan (map (fun l => (l_box l, len (l_left l))) ls) = true.
Proof.
  induction ls as [|l ls IH]; intros scan c Ch; [reflexivity|].
  destruct Ch as [Ch1 Ch2]. destruct l as [left b right].
  cbn [map fits l_box l_left]. rewrite <- Ch1.
  unfold Layer_dom, Layer_cod, Ty_tensor in *. cbn [l_box l_left l_right] in *.
  assert (S1 : slice_to ((left ++ dom b) ++ right) (len left) = left).
  { rewrite <- app_assoc. apply slice_to_at. reflexivity. }
  assert (S2 : slice_from ((left ++ dom b) ++ right) (len left + len (dom b))
               = right).
  { apply slice_from_at. rewrite len_app. reflexivity. }
  rewrite S1, S2, app_assoc, (IH _ c Ch2), andb_true_r.
  apply andb_true_iff. split; apply Z.leb_le.
  - apply len_nonneg.
  - rewrite !len_app. pose proof (len_nonneg right). lia.
Qed.

Lemma Diagram_init_of_wf_layers (d : Diagram) :
  wf d ->
  Diagram_init (d_dom d) (d_cod d) (boxes d) (offsets d) None = Ok d.
Proof.
  intros W. pose proof (wf_chain d W) as Ch.
  destruct d as [dd dc db doo [ad ac ab]]. destruct W as [Wd Wc _ Wb Wo].
  simpl in *. subst.
  unfold Diagram_init. rewrite !length_map, Nat.eqb_refl. cbn [negb].
  rewrite combine_layers.
  rewrite (scan_layers_chain dd _ (cat_Id dd) dc); auto.
  cbn [bind]. rewrite cat_then_ok by reflexivity. cbn [bind].
  simpl. rewrite app_nil_r. reflexivity.
Qed.

(** X5: Round trip: the layers that [then], [tensor] and [interchange] hand
    over are those that [__init__] computes.  For a well-formed diagram
    the offsets fit the wires, and constructing a diagram from its domain,
    codomain, boxes and offsets gives the diagram back, layers included. *)
Theorem Diagram_init_of_wf (d : Diagram) :
  wf d ->
  fits (d_dom d) (combine (boxes d) (offsets d)) = true
  /\ Diagram_init (d_dom d) (d_cod d) (boxes d) (offsets d) None = Ok d.
Proof.
  intros W. split; [|apply Diagram_init_of_wf_layers, W].
  rewrite <- (wf_boxes d W), <- (wf_offsets d W), combine_layers.
  apply (fits_chain _ _ _ (wf_chain d W)).
Qed.

Lemma Diagram_init_of_wf_witness :
  Diagram_init xyz xyz (boxes three_boxes) [0; 1; 2] None = Ok three_boxes.
Proof. exact (proj2 (Diagram_init_of_wf three_boxes wf_three_boxes)). Defined.

(* ================================================================== *)
(** * Further properties: types *)
(* ================================================================== *)

Lemma py_index_raises {A} (l : list A) (i : Z) (e : Error) :
  py_index l i = Raise e -> e = IndexError /\ (i < - len l \/ len l <= i).
Proof.
  unfold py_index, len. intros H.
  destruct (i <? 0) eqn:N; [apply Z.ltb_lt in N | apply Z.ltb_ge in N].
  - destruct ((Z.of_nat (length l) + i <? 0)
              || (Z.of_nat (length l) <=? Z.of_nat (length l) + i)) eqn:T.
    + inversion H. split; [reflexivity|].
      apply orb_true_iff in T. destruct T as [T|T];
        [apply Z.ltb_lt in T | apply Z.leb_le in T]; lia.
    + apply orb_false_iff in T. destruct T as [T1 T2].
      apply Z.ltb_ge in T1. apply Z.leb_gt in T2.
      destruct (nth_error l (Z.to_nat (Z.of_nat (length l) + i))) eqn:E;
        [discriminate|].
      apply nth_error_None in E. lia.
  - destruct ((i <? 0) || (Z.of_nat (length l) <=? i)) eqn:T.
    + inversion H. split; [reflexivity|].
      apply orb_true_iff in T. destruct T as [T|T];
        [apply Z.ltb_lt in T | apply Z.leb_le in T]; lia.
    + apply orb_false_iff in T. destruct T as [T1 T2].
      apply Z.ltb_ge in T1. apply Z.leb_gt in T2.
      destruct (nth_error l (Z.to_nat i)) eqn:E; [discriminate|].
      apply nth_error_None in E. lia.
Qed.

Lemma py_index_out_of_range {A} (l : list A) (i : Z) :
  i < - len l \/ len l <= i -> py_index l i = Raise IndexError.
Proof.
  unfold py_index, len. intros H.
  destruct (i <? 0) eqn:N; [apply Z.ltb_lt in N | apply Z.ltb_ge in N].
  - replace (Z.of_nat (length l) + i <? 0) with true; [reflexivity|].
    symmetry. apply Z.ltb_lt. lia.
  - replace (Z.of_nat (length l) <=? i) with true;
      [rewrite orb_true_r; reflexivity|].
    symmetry. apply Z.leb_le. lia.
Qed.

Lemma py_index_negative {A} (l : list A) (i : Z) :
  - len l <= i < 0 -> py_index l i = py_index l (i + len l).
Proof.
  unfold py_index, len. intros H.
  replace (i <? 0) with true by (symmetry; apply Z.ltb_lt; lia).
  replace (i + Z.of_nat (length l) <? 0) with false
    by (symmetry; apply Z.ltb_ge; lia).
  rewrite (Z.add_comm i). reflexivity.
Qed.

(** X6: [Ty.__getitem__] at an integer: the only exception is [IndexError],
    raised exactly for an index outside [-len(t) .. len(t) - 1]; a
    negative index in range gives the object that the index counted from
    the front gives. *)
Theorem Ty_getitem_index_range (t : Ty) (i : Z) :
  (Ty_getitem t (KInt i) = Raise IndexError <-> (i < - len t \/ len t <= i))
  /\ (forall e, Ty_getitem t (KInt i) = Raise e -> e = IndexError)
  /\ (- len t <= i < 0 ->
      Ty_getitem t (KInt i) = Ty_getitem t (KInt (i + len t))
      /\ exists x, Ty_getitem t (KInt i) = Ok (ItemOb x)).
Proof.
  unfold Ty_getitem. split; [split|split].
  - intros H. destruct (py_index t i) as [x|e] eqn:E; [discriminate|].
    apply py_index_raises in E. tauto.
  - intros H. rewrite (py_index_out_of_range t i H). reflexivity.
  - intros e H. destruct (py_index t i) as [x|e'] eqn:E; [discriminate|].
    apply py_index_raises in E. simpl in H. inversion H. subst. tauto.
  - intros H. rewrite (py_index_negative t i H). split; [reflexivity|].
    destruct (py_index_nth t (i + len t)) as (x & _ & P); [lia|].
    rewrite P. exists x. reflexivity.
Qed.

Lemma Ty_getitem_index_range_witness :
  Ty_getitem xyz (KInt (-1)) = Ty_getitem xyz (KInt 2)
  /\ Ty_getitem xyz (KInt 3) = Raise IndexError
  /\ Ty_getitem xyz (KInt (-4)) = Raise IndexError.
Proof.
  destruct (Ty_getitem_index_range xyz (-1)) as (_ & _ & N).
  destruct (Ty_getitem_index_range xyz 3) as ((_ & R1) & _).
  destruct (Ty_getitem_index_range xyz (-4)) as ((_ & R2) & _).
  split; [|split].
  - apply N. vm_compute. split; [discriminate | reflexivity].
  - apply R1. right. vm_compute. discriminate.
  - apply R2. left. vm_compute. reflexivity.
Defined.

Lemma py_slice_to {A} (l : list A) (k : Z) :
  py_slice l None (Some k) = slice_to l k.
Proof.
  unfold py_slice, slice_to. rewrite Nat.sub_0_r. reflexivity.
Qed.

Lemma py_slice_from {A} (l : list A) (k : Z) :
  py_slice l (Some k) None = slice_from l k.
Proof.
  unfold py_slice, slice_from. apply firstn_all2.
  rewrite length_skipn. lia.
Qed.

(** X7: [Ty.__getitem__] at the slices [[:k]] and [[k:]]: they never raise,
    whatever the integer [k], and cut the type in two parts whose tensor
    is the type again. *)
Theorem Ty_getitem_slices_partition (t : Ty) (k : Z) :
  exists a b : Ty,
    Ty_getitem t (KSlice (mkSlice None (Some k) None)) = Ok (ItemTy a)
    /\ Ty_getitem t (KSlice (mkSlice (Some k) None None)) = Ok (ItemTy b)
    /\ Ty_eq (Ty_tensor a b) t = true
    /\ len a + len b = len t
    /\ (0 <= k <= len t -> len a = k)
    /\ (len t <= k -> a = t /\ b = [])
    /\ (k <= - len t -> a = [] /\ b = t).
Proof.
  exists (slice_to t k), (slice_from t k). unfold Ty_getitem.
  rewrite !py_getslice_step1, py_slice_to, py_slice_from. cbn [bind].
  split; [reflexivity|]. split; [reflexivity|].
  split; [apply Ty_eq_eq; apply slice_to_from|].
  split; [rewrite <- len_app; unfold Ty; rewrite slice_to_from; reflexivity|].
  split; [|split].
  - intros H. rewrite slice_to_nat by exact H. unfold len in *.
    rewrite length_firstn. lia.
  - intros H. unfold slice_to, slice_from, py_clip, len in *.
    replace (k <? 0) with false by (symmetry; apply Z.ltb_ge; lia).
    rewrite Z.min_r by lia. rewrite Nat2Z.id.
    split; [apply firstn_all | apply skipn_all].
  - intros H. unfold slice_to, slice_from, py_clip, len in *.
    destruct (k <? 0) eqn:N.
    + rewrite Z.max_l by lia. split; reflexivity.
    + apply Z.ltb_ge in N. assert (length t = 0%nat) by lia.
      destruct t; [|discriminate]. split; [apply firstn_nil | apply skipn_nil].
Qed.

Lemma Ty_getitem_slices_partition_witness :
  exists a b : Ty,
    Ty_getitem xyz (KSlice (mkSlice None (Some (-1)) None)) = Ok (ItemTy a)
    /\ Ty_getitem xyz (KSlice (mkSlice (Some (-1)) None None)) = Ok (ItemTy b)
    /\ Ty_eq (Ty_tensor a b) xyz = true.
Proof.
  destruct (Ty_getitem_slices_partition xyz (-1)) as (a & b & A & B & E & _).
  exists a, b. split; [exact A|]. split; [exact B | exact E].
Defined.

Lemma concat_repeat_app {A} (t : list A) (m n : nat) :
  concat (repeat t (m + n)) = concat (repeat t m) ++ concat (repeat t n).
Proof. rewrite repeat_app, concat_app. reflexivity. Qed.

Lemma len_concat_repeat {A} (t : list A) (n : nat) :
  len (concat (repeat t n)) = Z.of_nat n * len t.
Proof.
  induction n as [|n IH].
  - reflexivity.
  - change (repeat t (S n)) with (t :: repeat t n).
    change (concat (t :: repeat t n)) with (t ++ concat (repeat t n)).
    rewrite len_app, IH. lia.
Qed.

(** X8: [Ty.__pow__] at an integer: [OverflowError] is raised exactly for
    an exponent outside the machine word; [t ** 0] is the unit and
    [t ** 1] is [t]; and whenever the powers at the natural exponents [m],
    [n] and [m + n] return, the exponents add up under the tensor and
    [t ** m] has [m * len(t)] objects. *)
Theorem Ty_pow_laws (t : Ty) (m n : Z) (a b c : Ty) :
  (Ty_pow t (KInt m) = Raise OverflowError
   <-> (m < - PY_SSIZE_T_MAX - 1 \/ PY_SSIZE_T_MAX < m))
  /\ Ty_pow t (KInt 0) = Ok [] /\ Ty_pow t (KInt 1) = Ok t
  /\ (0 <= m -> 0 <= n ->
      Ty_pow t (KInt m) = Ok a -> Ty_pow t (KInt n) = Ok b ->
      Ty_pow t (KInt (m + n)) = Ok c ->
      c = Ty_tensor a b /\ len a = m * len t).
Proof.
  split; [split|split; [|split]].
  - intros E. destruct (Ty_pow_cases t m) as [[_ P]|[O _]]; [|exact O].
    rewrite P in E. discriminate E.
  - apply Ty_pow_out_of_word.
  - reflexivity.
  - rewrite Ty_pow_in_word by (unfold PY_SSIZE_T_MAX; lia).
    simpl. rewrite app_nil_r. reflexivity.
  - intros Hm Hn A B C.
    destruct (Ty_pow_cases t m) as [[_ Pm]|[_ Pm]]; rewrite Pm in A;
      [|discriminate A].
    destruct (Ty_pow_cases t n) as [[_ Pn]|[_ Pn]]; rewrite Pn in B;
      [|discriminate B].
    destruct (Ty_pow_cases t (m + n)) as [[_ Pc]|[_ Pc]]; rewrite Pc in C;
      [|discriminate C].
    inversion A; inversion B; inversion C; subst a b c.
    rewrite Z2Nat.inj_add by lia. unfold Ty in *. split.
    + apply concat_repeat_app.
    + rewrite len_concat_repeat, Z2Nat.id by lia. reflexivity.
Qed.

Lemma Ty_pow_laws_witness :
  Ty_pow ["x"] (KInt (2 + 3)) = Ok (Ty_tensor ["x"; "x"] ["x"; "x"; "x"])
  /\ len ["x"; "x"] = 2 * len ["x"].
Proof.
  destruct (proj2 (proj2 (proj2
              (Ty_pow_laws ["x"] 2 3 ["x"; "x"] ["x"; "x"; "x"]
                 ["x"; "x"; "x"; "x"; "x"])))) as [E L];
    try reflexivity; try lia.
  split; [rewrite <- E; reflexivity | exact L].
Defined.

Lemma range_map_nth {A} (l : list A) (g : Z -> result A) :
  (forall k x, nth_error l k = Some x -> g (Z.of_nat k) = Ok x) ->
  map g (range (len l)) = map Ok l.
Proof.
  unfold range, len. rewrite Nat2Z.id, map_map.
  induction l as [|x l IH] using rev_ind; intros H; [reflexivity|].
  rewrite length_app, Nat.add_comm. cbn [length Nat.add].
  rewrite seq_S, !map_app. cbn [map Nat.add]. f_equal.
  - apply IH. intros k y E. apply H.
    rewrite nth_error_app1; [exact E|]. apply nth_error_Some. congruence.
  - f_equal. apply H. rewrite nth_error_app2 by lia.
    rewrite Nat.sub_diag. reflexivity.
Qed.

(** X9: [Ty.__iter__] yields the objects of the type in order: none of its
    index look-ups raises. *)
Theorem Ty_iter_objects (t : Ty) :
  Ty_iter t = map (fun x => Ok (ItemOb x)) t.
Proof.
  unfold Ty_iter.
  rewrite <- (map_map Ok (fun r => x <- r ;; Ok (ItemOb x)) t) at 1.
  rewrite <- (range_map_nth t (py_index t)).
  - rewrite map_map. reflexivity.
  - intros k x E.
    destruct (py_index_nth t (Z.of_nat k)) as (y & N & P).
    + split; [lia|]. unfold len. apply Nat2Z.inj_lt.
      apply nth_error_Some. congruence.
    + rewrite Nat2Z.id in N. congruence.
Qed.

(* ================================================================== *)
(** * Further properties: interchange *)
(* ================================================================== *)

Lemma list_move_Permutation {A} (l : list A) (i j : nat) :
  Permutation l (list_move l i j).
Proof.
  unfold list_move. destruct (nth_error l i) as [x|] eqn:E;
    [|apply Permutation_refl].
  apply nth_error_split in E. destruct E as (l1 & l2 & -> & L). subst i.
  assert (F : firstn (length l1) (l1 ++ x :: l2) = l1).
  { rewrite firstn_app, Nat.sub_diag, firstn_all, firstn_O, app_nil_r.
    reflexivity. }
  assert (K : skipn (S (length l1)) (l1 ++ x :: l2) = l2).
  { rewrite skipn_app, skipn_all2 by lia.
    replace (S (length l1) - length l1)%nat with 1%nat by lia. reflexivity. }
  rewrite F, K.
  apply Permutation_trans with (x :: (l1 ++ l2)).
  - apply Permutation_sym, Permutation_middle.
  - rewrite <- (firstn_skipn j (l1 ++ l2)) at 1. apply Permutation_middle.
Qed.

Lemma interchange_index_error (d : Diagram) (i j : Z) (left : bool) :
  ~ (0 <= i < Diagram_len d /\ 0 <= j < Diagram_len d) ->
  interchange d i j left = Raise IndexError.
Proof.
  intros H. rewrite interchange_unfold. unfold interchange_body. cbv zeta.
  destruct (negb ((0 <=? i) && (i <? Diagram_len d))
            || negb ((0 <=? j) && (j <? Diagram_len d))) eqn:T; [reflexivity|].
  exfalso. apply H. apply orb_false_iff in T. destruct T as [T1 T2].
  apply negb_false_iff in T1, T2. apply andb_true_iff in T1, T2.
  destruct T1 as [A B], T2 as [C D].
  apply Z.leb_le in A, C. apply Z.ltb_lt in B, D. lia.
Qed.

Lemma interchange_adjacent_outcome (left : bool) (d : Diagram) (k : Z) :
  wf d -> 0 <= k -> k + 1 < Diagram_len d ->
  (exists r, interchange d k (k + 1) left = Ok r /\ wf r
             /\ d_dom r = d_dom d /\ d_cod r = d_cod d
             /\ Permutation (boxes d) (boxes r))
  \/ (exists b0 b1,
        interchange d k (k + 1) left = Raise (InterchangerError b0 b1)).
Proof.
  intros W K0 K1.
  destruct (interchange_unit_cases left d k W K0 K1)
    as (pre & l0 & l1 & post & E & P & [(moved & M & I & Wr)|(M & I)]).
  - left. exists (spliced d pre post l0 l1 moved).
    destruct (spliced_boxes d pre post l0 l1 moved) as (B & Dm & Cd).
    split; [exact I|]. split; [exact Wr|]. split; [exact Dm|].
    split; [exact Cd|].
    rewrite B, <- (wf_boxes d W), E, map_app. cbn [map].
    apply Permutation_app_head, perm_swap.
  - right. exists (l_box l0), (l_box l1). exact I.
Qed.

(** On a well-formed diagram and indices in range, [interchange] either
    returns a well-formed diagram of the same type whose boxes are those
    of the diagram in another order, or raises [InterchangerError]. *)
Lemma interchange_in_range (left : bool) (d : Diagram) (i j : Z) :
  wf d -> 0 <= i < Diagram_len d -> 0 <= j < Diagram_len d ->
  (exists r, interchange d i j left = Ok r /\ wf r
             /\ d_dom r = d_dom d /\ d_cod r = d_cod d
             /\ Permutation (boxes d) (boxes r))
  \/ (exists b0 b1,
        interchange d i j left = Raise (InterchangerError b0 b1)).
Proof.
  intros W Hi Hj.
  destruct (Z.eq_dec i j) as [E|NE].
  { left. exists d. subst j. rewrite interchange_unfold.
    unfold interchange_body. cbv zeta. bool_by_lia. cbn [andb negb orb].
    auto using Permutation_refl. }
  destruct (Z_lt_dec (i + 1) j) as [Up|NUp].
  { rewrite interchange_far_up by lia.
    destruct (swaps_up left d i (Z.to_nat (j - i))) as [r|e] eqn:Sw.
    - left. exists r.
      destruct (swaps_up_boxes left d i (Z.to_nat (j - i)) W) with (r := r)
        as (Wr & Dr & Cr & Br); auto; try lia.
      split; [reflexivity|]. split; [exact Wr|]. split; [exact Dr|].
      split; [exact Cr|]. rewrite Br. apply list_move_Permutation.
    - right. apply swaps_up_raise in Sw.
      destruct Sw as (m & d' & M & Sm & I).
      destruct (swaps_up_boxes left d i m W) with (r := d')
        as (Wd & _ & _ & Bd); auto; try lia.
      assert (L : Diagram_len d' = Diagram_len d)
        by (apply Diagram_len_boxes; rewrite Bd; apply list_move_length).
      destruct (interchange_adjacent_outcome left d' (i + Z.of_nat m) Wd)
        as [(r & I' & _)|(b0 & b1 & I')]; try lia.
      + rewrite I' in I. discriminate I.
      + exists b0, b1. rewrite I' in I. inversion I. reflexivity. }
  destruct (Z_lt_dec j (i - 1)) as [Dn|NDn].
  { rewrite interchange_far_down by lia.
    destruct (swaps_down left d i (Z.to_nat (i - j))) as [r|e] eqn:Sw.
    - left. exists r.
      destruct (swaps_down_boxes left d i (Z.to_nat (i - j)) W) with (r := r)
        as (Wr & Dr & Cr & Br); auto; try lia.
      split; [reflexivity|]. split; [exact Wr|]. split; [exact Dr|].
      split; [exact Cr|]. rewrite Br. apply list_move_Permutation.
    - right. apply swaps_down_raise in Sw.
      destruct Sw as (m & d' & M & Sm & I).
      destruct (swaps_down_boxes left d i m W) with (r := d')
        as (Wd & _ & _ & Bd); auto; try lia.
      assert (L : Diagram_len d' = Diagram_len d)
        by (apply Diagram_len_boxes; rewrite Bd; apply list_move_length).
      replace (i - Z.of_nat m) with (i - Z.of_nat m - 1 + 1) in I at 1 by lia.
      rewrite interchange_unit_sym in I.
      destruct (interchange_adjacent_outcome left d' (i - Z.of_nat m - 1) Wd)
        as [(r & I' & _)|(b0 & b1 & I')]; try lia.
      + rewrite I' in I. discriminate I.
      + exists b0, b1. rewrite I' in I. inversion I. reflexivity. }
  destruct (Z.eq_dec j (i + 1)) as [->|NJ].
  - apply interchange_adjacent_outcome; auto; lia.
  - assert (i = j + 1) by lia. subst i. rewrite interchange_unit_sym.
    apply interchange_adjacent_outcome; auto; lia.
Qed.

(** X10: [Diagram.interchange] on a well-formed diagram: [IndexError] is raised
    exactly when an index is outside [0 .. len - 1], a negative index
    included; the only other exception is [InterchangerError]; and a
    diagram returned is well formed, of the same domain and codomain, with
    the same boxes in another order. *)
Theorem interchange_outcomes (d : Diagram) (i j : Z) (left : bool) :
  wf d ->
  (interchange d i j left = Raise IndexError
   <-> ~ (0 <= i < Diagram_len d /\ 0 <= j < Diagram_len d))
  /\ (forall e, interchange d i j left = Raise e ->
        e = IndexError \/ exists b0 b1, e = InterchangerError b0 b1)
  /\ (forall r, interchange d i j left = Ok r ->
        wf r /\ d_dom r = d_dom d /\ d_cod r = d_cod d
        /\ Diagram_len r = Diagram_len d
        /\ Permutation (boxes d) (boxes r)).
Proof.
  intros W.
  assert (D : (0 <= i < Diagram_len d /\ 0 <= j < Diagram_len d)
              \/ ~ (0 <= i < Diagram_len d /\ 0 <= j < Diagram_len d)) by lia.
  destruct D as [[Hi Hj]|N].
  - destruct (interchange_in_range left d i j W Hi Hj)
      as [(r & I & Wr & Dr & Cr & P)|(b0 & b1 & I)]; rewrite I.
    + split; [split; [discriminate | intros N; exfalso; apply N; auto]|].
      split; [discriminate|].
      intros r' R. inversion R; subst r'.
      split; [exact Wr|]. split; [exact Dr|]. split; [exact Cr|].
      split; [|exact P].
      apply Diagram_len_boxes. symmetry. apply Permutation_length, P.
    + split; [split; [discriminate | intros N; exfalso; apply N; auto]|].
      split; [|discriminate].
      intros e R. inversion R. right. exists b0, b1. reflexivity.
  - rewrite (interchange_index_error d i j left N).
    split; [split; auto|]. split; [|discriminate].
    intros e R. inversion R. left. reflexivity.
Qed.

Lemma interchange_outcomes_witness :
  interchange three_boxes 0 5 false = Raise IndexError
  /\ interchange three_boxes (-1) 0 false = Raise IndexError.
Proof.
  split.
  - apply (proj1 (interchange_outcomes three_boxes 0 5 false wf_three_boxes)).
    unfold Diagram_len, len. simpl. lia.
  - apply (proj1 (interchange_outcomes three_boxes (-1) 0 false wf_three_boxes)).
    unfold Diagram_len, len. simpl. lia.
Defined.

Lemma interchange_move_flag (off0 off1 : Z) (l0 l1 : Layer) :
  ~ (off0 + len (cod (l_box l0)) <= off1
     /\ off1 + len (dom (l_box l1)) <= off0) ->
  interchange_move true off0 off1 l0 l1 = interchange_move false off0 off1 l0 l1.
Proof.
  intros H. unfold interchange_move. cbn [andb].
  destruct (off0 + len (cod (l_box l0)) <=? off1) eqn:A;
    destruct (off1 + len (dom (l_box l1)) <=? off0) eqn:B; try reflexivity.
  exfalso. apply H. apply Z.leb_le in A, B. auto.
Qed.

(** X11: The flag [left] of a unit interchange matters only when both tests of
    disjointness hold.  With one of them failing, both values of the flag
    give the same outcome; with both holding, the first box has no output
    wire, the second no input wire, they sit at the same offset, and the
    flag decides which of the two is moved past the other's wires. *)
Theorem interchange_left_flag (d : Diagram) (i : Z) (off0 off1 : Z)
    (box0 box1 : Box) :
  wf d -> 0 <= i -> i + 1 < Diagram_len d ->
  pair_at d i off0 off1 box0 box1 ->
  (~ (off0 + len (cod box0) <= off1 /\ off1 + len (dom box1) <= off0) ->
   interchange d i (i + 1) true = interchange d i (i + 1) false)
  /\ (off0 + len (cod box0) <= off1 -> off1 + len (dom box1) <= off0 ->
      cod box0 = [] /\ dom box1 = [] /\ off0 = off1
      /\ exists r1 r2,
           interchange d i (i + 1) true = Ok r1
           /\ interchange d i (i + 1) false = Ok r2
           /\ nth_error (offsets r1) (Z.to_nat i) = Some (off1 + len (dom box0))
           /\ nth_error (offsets r1) (S (Z.to_nat i)) = Some off0
           /\ nth_error (offsets r2) (Z.to_nat i) = Some off1
           /\ nth_error (offsets r2) (S (Z.to_nat i))
              = Some (off0 + len (cod box1))).
Proof.
  intros W H0 H1 PA.
  destruct (wf_split_pair d i off0 off1 box0 box1 W H0 H1 PA)
    as (pre & l0 & l1 & post & E & P & B0 & B1 & O0 & O1).
  subst i box0 box1 off0 off1.
  rewrite !(interchange_unit _ d pre post l0 l1 W E).
  split.
  - intros N. rewrite (interchange_move_flag _ _ l0 l1 N). reflexivity.
  - intros A B.
    pose proof (len_nonneg (cod (l_box l0))) as C0.
    pose proof (len_nonneg (dom (l_box l1))) as D1.
    assert (Z0 : len (cod (l_box l0)) = 0) by lia.
    assert (Z1 : len (dom (l_box l1)) = 0) by lia.
    split; [apply len_zero_nil; exact Z0|].
    split; [apply len_zero_nil; exact Z1|].
    split; [lia|].
    exists (spliced d pre post l0 l1
              (box0_left_of_box1 (len (l_left l0)) (len (l_left l1)) l0 l1)),
           (spliced d pre post l0 l1
              (box0_right_of_box1 (len (l_left l0)) (len (l_left l1)) l0 l1)).
    assert (Lp : Z.to_nat (len pre)
                 = length (map (fun l => len (l_left l)) pre)).
    { unfold len. rewrite Nat2Z.id, length_map. reflexivity. }
    split; [|split].
    + unfold interchange_move. cbn [andb]. bool_by_lia. reflexivity.
    + unfold interchange_move. cbn [andb]. bool_by_lia. reflexivity.
    + unfold box0_left_of_box1, box0_right_of_box1, spliced.
      cbn [offsets]. rewrite Lp.
      change ([?a; ?b] ++ ?l) with (a :: b :: l).
      rewrite !nth_error_mid, !nth_error_mid2.
      repeat split; f_equal; lia.
Qed.

Lemma interchange_left_flag_witness :
  interchange three_boxes 0 (0 + 1) true = interchange three_boxes 0 (0 + 1) false.
Proof.
  refine (proj1 (interchange_left_flag three_boxes 0 0 1
                   (box "f0" ["x"] ["x"]) (box "f1" ["y"] ["y"])
                   wf_three_boxes _ _ _) _).
  - lia.
  - reflexivity.
  - repeat split.
  - simpl. unfold len. simpl. lia.
Defined.

(* ================================================================== *)
(** * Further properties: normalisation *)
(* ================================================================== *)

Lemma range_Forall (n : Z) : Forall (fun i => 0 <= i < n) (range n).
Proof.
  unfold range. apply Forall_forall. intros x H.
  apply in_map_iff in H. destruct H as (k & <- & K).
  apply in_seq in K. lia.
Qed.

Lemma Permutation_Diagram_len (d e : Diagram) :
  Permutation (boxes d) (boxes e) -> Diagram_len e = Diagram_len d.
Proof.
  intros P. apply Diagram_len_boxes. symmetry. apply Permutation_length, P.
Qed.

(** The test of [normalize] at the layers [l0], [l1]. *)
Lemma normalize_test_layers (left : bool) (d : Diagram)
    (pre post : list Layer) (l0 l1 : Layer) :
  wf d -> a_boxes (layers d) = pre ++ l0 :: l1 :: post ->
  normalize_test left d (len pre) =
  Ok (left && (len (l_left l0) + len (cod (l_box l0)) <=? len (l_left l1))
      || negb left
         && (len (l_left l1) + len (dom (l_box l1)) <=? len (l_left l0))).
Proof.
  intros W E. unfold normalize_test.
  rewrite <- (wf_boxes d W), <- (wf_offsets d W), E, !map_app. cbn [map].
  rewrite (py_index_at (map l_box pre)) by (rewrite len_map; reflexivity).
  rewrite (py_index_at2 (map l_box pre)) by (rewrite len_map; reflexivity).
  rewrite (py_index_at (map (fun l => len (l_left l)) pre))
    by (rewrite len_map; reflexivity).
  rewrite (py_index_at2 (map (fun l => len (l_left l)) pre))
    by (rewrite len_map; reflexivity).
  reflexivity.
Qed.

(** Where the test of [normalize] holds, the interchange it asks for
    does not raise. *)
Lemma normalize_test_step (left : bool) (d : Diagram) (i : Z) :
  wf d -> 0 <= i -> i + 1 < Diagram_len d ->
  normalize_test left d i = Ok false
  \/ (normalize_test left d i = Ok true
      /\ exists r, interchange d i (i + 1) left = Ok r /\ wf r
                   /\ d_dom r = d_dom d /\ d_cod r = d_cod d
                   /\ Permutation (boxes d) (boxes r)).
Proof.
  intros W H0 H1.
  destruct (wf_split d i W H0 H1) as (pre & l0 & l1 & post & E & P).
  rewrite <- P. rewrite (normalize_test_layers left d pre post l0 l1 W E).
  destruct (left && (len (l_left l0) + len (cod (l_box l0)) <=? len (l_left l1))
            || negb left
               && (len (l_left l1) + len (dom (l_box l1)) <=? len (l_left l0)))
    eqn:T; [right | left; reflexivity].
  split; [reflexivity|]. rewrite P.
  destruct (interchange_adjacent_outcome left d i W H0 H1)
    as [R|(b0 & b1 & I)]; [exact R|].
  exfalso. rewrite <- P in I.
  rewrite (interchange_unit left d pre post l0 l1 W E) in I.
  unfold interchange_move in I.
  destruct left; cbn [andb negb orb] in T, I.
  - rewrite orb_false_r in T. rewrite T in I. discriminate I.
  - rewrite T in I. discriminate I.
Qed.

Lemma normalize_scan_ok (left : bool) (d0 d : Diagram) (rest : list Z) :
  wf d -> d_dom d = d_dom d0 -> d_cod d = d_cod d0 ->
  Permutation (boxes d0) (boxes d) ->
  Forall (fun i => 0 <= i /\ i + 1 < Diagram_len d0) rest ->
  normalize_scan left d rest = None
  \/ exists y st', normalize_scan left d rest = Some (Yield y st')
                   /\ ns_diagram st' = y /\ normalize_state_ok d0 st'.
Proof.
  intros W Dm Cd P. induction rest as [|i rest IH]; intros F.
  - left. reflexivity.
  - inversion F as [|? ? [I0 I1] F']; subst. cbn [normalize_scan].
    pose proof (Permutation_Diagram_len d0 d P) as L.
    destruct (normalize_test_step left d i W) as [T|(T & r & I & Wr & Dr & Cr & Pr)];
      try lia; rewrite T.
    + apply IH. exact F'.
    + right. rewrite I. eexists. eexists. split; [reflexivity|].
      split; [reflexivity|].
      split; [exact Wr|]. cbn [ns_diagram ns_rest].
      split; [congruence|]. split; [congruence|].
      split; [eapply Permutation_trans; eauto | exact F'].
Qed.

Lemma normalize_next_ok (left : bool) (d0 : Diagram) (st : NormState) :
  normalize_state_ok d0 st ->
  normalize_next left st = Stop
  \/ exists y st', normalize_next left st = Yield y st'
                   /\ ns_diagram st' = y /\ normalize_state_ok d0 st'.
Proof.
  intros (W & Dm & Cd & P & F). unfold normalize_next.
  destruct (normalize_scan_ok left d0 (ns_diagram st) (ns_rest st) W Dm Cd P F)
    as [N|(y & st' & Y & R)].
  - rewrite N. destruct (ns_no_more_moves st); [left; reflexivity|].
    destruct (normalize_scan_ok left d0 (ns_diagram st)
                (range (Diagram_len (ns_diagram st) - 1)) W Dm Cd P)
      as [N'|(y & st' & Y & R)].
    + rewrite (Permutation_Diagram_len d0 _ P).
      eapply Forall_impl; [|apply range_Forall]. cbv beta. intros a H. lia.
    + rewrite N'. left. reflexivity.
    + rewrite Y. right. exists y, st'. auto.
  - rewrite Y. right. exists y, st'. auto.
Qed.

Lemma normalize_start_ok (d : Diagram) :
  wf d -> normalize_state_ok d (normalize_start d).
Proof.
  intros W. unfold normalize_state_ok, normalize_start.
  cbn [ns_diagram ns_rest].
  split; [exact W|]. split; [reflexivity|]. split; [reflexivity|].
  split; [apply Permutation_refl|].
  eapply Forall_impl; [|apply range_Forall]. cbv beta. intros a H. lia.
Qed.

Lemma normalize_after_ok (left : bool) (d0 : Diagram) (n : nat) :
  forall st st', normalize_state_ok d0 st ->
  normalize_after left st n = Some st' -> normalize_state_ok d0 st'.
Proof.
  induction n as [|n IH]; intros st st' K A.
  - inversion A. subst. exact K.
  - cbn [normalize_after] in A.
    destruct (normalize_next_ok left d0 st K) as [S|(y & st1 & Y & _ & K1)].
    + rewrite S in A. discriminate A.
    + rewrite Y in A. apply (IH st1 st' K1 A).
Qed.

(** X12: [Diagram.normalize] on a well-formed diagram never raises: whatever
    the number of diagrams already yielded, the next step yields or ends.
    Every diagram it goes through is well formed, of the same domain and
    codomain, with the same boxes in another order. *)
Theorem normalize_never_raises (left : bool) (d : Diagram) (n : nat)
    (st : NormState) :
  wf d ->
  normalize_after left (normalize_start d) n = Some st ->
  wf (ns_diagram st)
  /\ d_dom (ns_diagram st) = d_dom d /\ d_cod (ns_diagram st) = d_cod d
  /\ Permutation (boxes d) (boxes (ns_diagram st))
  /\ (forall e, normalize_next left st <> Throw e)
  /\ (forall y st', normalize_next left st = Yield y st' ->
        ns_diagram st' = y /\ wf y /\ Diagram_len y = Diagram_len d).
Proof.
  intros W A.
  pose proof (normalize_after_ok left d n _ _ (normalize_start_ok d W) A) as K.
  destruct K as (Ws & Dm & Cd & P & F).
  split; [exact Ws|]. split; [exact Dm|]. split; [exact Cd|].
  split; [exact P|].
  destruct (normalize_next_ok left d st (conj Ws (conj Dm (conj Cd (conj P F)))))
    as [S|(y & st1 & Y & E & K1)].
  - rewrite S. split; [discriminate|]. intros y st' H. discriminate H.
  - rewrite Y. split; [discriminate|]. intros y' st' H.
    inversion H; subst y' st'. destruct K1 as (W1 & _ & _ & P1 & _).
    rewrite E in *. split; [reflexivity|]. split; [exact W1|].
    apply Permutation_Diagram_len, P1.
Qed.

Lemma normalize_never_raises_witness :
  exists y st',
    normalize_next false (normalize_start right_box_first) = Yield y st'
    /\ wf y /\ Diagram_len y = Diagram_len right_box_first.
Proof.
  assert (W : wf right_box_first) by wf_by_computation.
  destruct (normalize_never_raises false right_box_first 0
              (normalize_start right_box_first) W eq_refl)
    as (_ & _ & _ & _ & _ & Y).
  eexists. eexists. split; [reflexivity|].
  exact (proj2 (Y _ _ eq_refl)).
Defined.

Lemma normal_form_loop_ok (left : bool) (d0 : Diagram) (fuel : nat) :
  forall (st : NormState) (diagram : Diagram) (cache : list Diagram),
  normalize_state_ok d0 st -> ns_diagram st = diagram ->
  (forall e, normal_form_loop fuel left st diagram cache = Some (Raise e) ->
             e = NotImplementedError)
  /\ (forall r, normal_form_loop fuel left st diagram cache = Some (Ok r) ->
        wf r /\ d_dom r = d_dom d0 /\ d_cod r = d_cod d0
        /\ Permutation (boxes d0) (boxes r)).
Proof.
  induction fuel as [|fuel IH]; intros st diagram cache K E.
  - cbn [normal_form_loop]. split; intros ? H; discriminate H.
  - cbn [normal_form_loop].
    destruct (normalize_next_ok left d0 st K) as [S|(y & st1 & Y & E1 & K1)].
    + rewrite S. split; [intros e H; discriminate H|].
      intros r H. inversion H; subst r. subst diagram.
      destruct K as (W & Dm & Cd & P & _). auto.
    + rewrite Y. destruct (in_cache y cache).
      * split; [|intros r H; discriminate H].
        intros e H. inversion H. reflexivity.
      * apply IH; auto.
Qed.

(** X13: [Diagram.normal_form] on a well-formed diagram: the only exception it
    raises is [NotImplementedError], and a diagram it returns is well
    formed, of the same domain and codomain, with the same boxes in
    another order. *)
Theorem normal_form_outcomes (fuel : nat) (left : bool) (d : Diagram) :
  wf d ->
  (forall e, normal_form fuel left d = Some (Raise e) ->
             e = NotImplementedError)
  /\ (forall r, normal_form fuel left d = Some (Ok r) ->
        wf r /\ d_dom r = d_dom d /\ d_cod r = d_cod d
        /\ Diagram_len r = Diagram_len d
        /\ Permutation (boxes d) (boxes r)).
Proof.
  intros W. unfold normal_form.
  destruct (normal_form_loop_ok left d fuel (normalize_start d) d []
              (normalize_start_ok d W) eq_refl) as [R O].
  split; [exact R|]. intros r H.
  destruct (O r H) as (Wr & Dm & Cd & P).
  split; [exact Wr|]. split; [exact Dm|]. split; [exact Cd|].
  split; [apply Permutation_Diagram_len, P | exact P].
Qed.

Lemma normal_form_outcomes_witness :
  wf left_box_first
  /\ Permutation (boxes right_box_first) (boxes left_box_first).
Proof.
  assert (W : wf right_box_first) by wf_by_computation.
  destruct (proj2 (normal_form_outcomes 2 false right_box_first W)
              left_box_first eq_refl) as (Wr & _ & _ & _ & P).
  split; [exact Wr | exact P].
Defined.

(* ================================================================== *)
(** * Further properties: dagger, slicing and equality *)
(* ================================================================== *)

(** X14: The dagger reverses sequential composition:
    [(d >> e)[::-1] == e[::-1] >> d[::-1]], and the dagger of an identity
    is that identity. *)
Theorem dagger_then (d e : Diagram) (x : Ty) :
  wf d -> wf e -> d_cod d = d_dom e ->
  dagger (Id x) = Ok (Id x)
  /\ exists de r dd ed l,
       then_ d e = Ok de /\ dagger de = Ok r
       /\ dagger d = Ok dd /\ dagger e = Ok ed /\ then_ ed dd = Ok l
       /\ wf r /\ Diagram_eq r l = true.
Proof.
  intros Wd We T. split; [rewrite dagger_layers; reflexivity|].
  destruct (then_fields d e Wd We T) as (de & Tde & Wde & D1 & C1 & B1 & O1).
  destruct (dagger_fields de Wde) as (r & Dr & Wr & D2 & C2 & B2 & O2).
  destruct (dagger_fields d Wd) as (dd & Ddd & Wdd & D3 & C3 & B3 & O3).
  destruct (dagger_fields e We) as (ed & Ded & Wed & D4 & C4 & B4 & O4).
  destruct (then_fields ed dd Wed Wdd) as (l & Tl & Wl & D5 & C5 & B5 & O5);
    [congruence|].
  exists de, r, dd, ed, l.
  repeat (split; [assumption|]).
  apply Diagram_eq_iff.
  split; [congruence|]. split; [congruence|]. split.
  - rewrite B2, B5, B1, B3, B4, rev_app_distr, map_app. reflexivity.
  - rewrite O2, O5, O1, O3, O4, rev_app_distr. reflexivity.
Qed.

Lemma dagger_then_witness :
  exists de r dd ed l,
    then_ three_boxes three_boxes = Ok de /\ dagger de = Ok r
    /\ dagger three_boxes = Ok dd /\ dagger three_boxes = Ok ed
    /\ then_ ed dd = Ok l /\ Diagram_eq r l = true.
Proof.
  destruct (proj2 (dagger_then three_boxes three_boxes []
                     wf_three_boxes wf_three_boxes eq_refl))
    as (de & r & dd & ed & l & A & B & C & D & E & _ & F).
  exists de, r, dd, ed, l. repeat (split; [assumption|]). exact F.
Defined.

(** The layers cut at [len pre], as [layers[:i]] and [layers[i:]] give
    them, the cases of an empty part included. *)
Lemma cat_getslice_split (f : Arrow) (pre rest : list Layer) (m : Ty) :
  chain (a_dom f) pre m -> chain m rest (a_cod f) ->
  a_boxes f = pre ++ rest ->
  cat_getslice f (mkSlice None (Some (len pre)) None)
    = Ok (mkArrow (a_dom f) m pre)
  /\ cat_getslice f (mkSlice (Some (len pre)) None None)
    = Ok (mkArrow m (a_cod f) rest).
Proof.
  intros C1 C2 E.
  assert (C : chain (a_dom f) (a_boxes f) (a_cod f)).
  { rewrite E. apply chain_app. exists m. auto. }
  split.
  - destruct rest as [|l rest].
    + simpl in C2. subst m. rewrite app_nil_r in E.
      unfold cat_getslice. cbn [s_step s_start negb Z.eqb]. cbv iota.
      rewrite py_getslice_step1, E.
      pose proof (py_slice_prefix pre []) as S. rewrite app_nil_r in S.
      rewrite S. cbn [bind].
      destruct pre as [|p pre].
      * simpl in C1. rewrite C1. reflexivity.
      * rewrite (chain_last pre p (a_dom f) (a_cod f) p C1).
        destruct C1 as [-> _]. reflexivity.
    + rewrite (cat_getslice_prefix f pre rest l C E).
      destruct C2 as [-> _]. reflexivity.
  - destruct pre as [|p pre].
    + simpl in C1. subst m. cbn [app] in E.
      unfold cat_getslice. cbn [s_step s_start negb Z.eqb]. cbv iota.
      rewrite py_getslice_step1, E.
      pose proof (py_slice_suffix [] rest) as S. cbn [app] in S.
      rewrite S. cbn [bind].
      destruct rest as [|r rest].
      * simpl in C2. rewrite C2. reflexivity.
      * rewrite (chain_last rest r (a_dom f) (a_cod f) r C2).
        destruct C2 as [-> _]. reflexivity.
    + apply (cat_getslice_suffix f (p :: pre) rest m C2 E). discriminate.
Qed.

(** X15: [Diagram.__getitem__] at the slices [[:i]] and [[i:]] of a
    well-formed diagram, for [0 <= i <= len]: two well-formed diagrams,
    the first with [i] boxes, which compose to a diagram equal to the one
    that was cut. *)
Theorem Diagram_getslice_partition (d : Diagram) (i : Z) :
  wf d -> 0 <= i <= Diagram_len d ->
  exists a b r,
    Diagram_getslice d (mkSlice None (Some i) None) = Ok a
    /\ Diagram_getslice d (mkSlice (Some i) None None) = Ok b
    /\ wf a /\ wf b
    /\ Diagram_len a = i /\ Diagram_len b = Diagram_len d - i
    /\ d_dom a = d_dom d /\ d_cod b = d_cod d
    /\ then_ a b = Ok r /\ Diagram_eq r d = true.
Proof.
  intros W H.
  pose proof (wf_chain d W) as C.
  destruct (wf_lengths d W) as [L _].
  set (ls := a_boxes (layers d)) in *.
  assert (Hl : len ls = Diagram_len d)
    by (unfold Diagram_len, len; rewrite L; reflexivity).
  set (pre := firstn (Z.to_nat i) ls). set (rest := skipn (Z.to_nat i) ls).
  assert (E : ls = pre ++ rest) by (symmetry; apply firstn_skipn).
  assert (P : len pre = i).
  { unfold pre, len in *. rewrite length_firstn. lia. }
  rewrite E in C. apply chain_app in C. destruct C as (m & C1 & C2).
  destruct (cat_getslice_split (layers d) pre rest m) as [G1 G2].
  { rewrite (wf_dom d W). exact C1. }
  { rewrite (wf_cod d W). exact C2. }
  { exact E. }
  rewrite P in G1, G2. rewrite (wf_dom d W) in G1. rewrite (wf_cod d W) in G2.
  set (a := mkDiagram (d_dom d) m (map l_box pre)
              (map (fun l => len (l_left l)) pre) (mkArrow (d_dom d) m pre)).
  set (b := mkDiagram m (d_cod d) (map l_box rest)
              (map (fun l => len (l_left l)) rest) (mkArrow m (d_cod d) rest)).
  assert (Wa : wf a) by (constructor; simpl; auto).
  assert (Wb : wf b) by (constructor; simpl; auto).
  exists a, b.
  exists (mkDiagram (d_dom a) (d_cod b) (boxes a ++ boxes b)
            (offsets a ++ offsets b)
            (mkArrow (d_dom a) (d_cod b)
               (a_boxes (layers a) ++ a_boxes (layers b)))).
  split; [unfold Diagram_getslice; rewrite G1; cbn [bind a_dom a_cod a_boxes];
          apply Diagram_init_given; rewrite !length_map; reflexivity|].
  split; [unfold Diagram_getslice; rewrite G2; cbn [bind a_dom a_cod a_boxes];
          apply Diagram_init_given; rewrite !length_map; reflexivity|].
  split; [exact Wa|]. split; [exact Wb|].
  split; [unfold Diagram_len; simpl; rewrite len_map; exact P|].
  split.
  { unfold Diagram_len at 1. simpl. rewrite len_map, <- Hl, E, len_app. lia. }
  split; [reflexivity|]. split; [reflexivity|].
  split; [apply then_ok; auto|].
  apply Diagram_eq_iff. simpl.
  split; [reflexivity|]. split; [reflexivity|].
  rewrite <- !map_app, <- E.
  split; [apply (wf_boxes d W) | apply (wf_offsets d W)].
Qed.

Lemma Diagram_getslice_partition_witness :
  exists a b r,
    Diagram_getslice three_boxes (mkSlice None (Some 1) None) = Ok a
    /\ Diagram_getslice three_boxes (mkSlice (Some 1) None None) = Ok b
    /\ then_ a b = Ok r /\ Diagram_eq r three_boxes = true.
Proof.
  destruct (Diagram_getslice_partition three_boxes 1 wf_three_boxes)
    as (a & b & r & A & B & _ & _ & _ & _ & _ & _ & T & E).
  - unfold Diagram_len, len. simpl. lia.
  - exists a, b, r. repeat (split; [assumption|]). exact E.
Defined.

(** X16: [Diagram.__eq__] compares domain, codomain, boxes and offsets, and
    nothing else: two diagrams are equal exactly when these four agree,
    whatever their layers; it is an equivalence. *)
Theorem Diagram_eq_equivalence (d e f : Diagram) :
  (Diagram_eq d e = true <->
   d_dom d = d_dom e /\ d_cod d = d_cod e /\ boxes d = boxes e
   /\ offsets d = offsets e)
  /\ Diagram_eq d d = true
  /\ Diagram_eq d e = Diagram_eq e d
  /\ (Diagram_eq d e = true -> Diagram_eq e f = true -> Diagram_eq d f = true)
  /\ (wf d -> wf e -> Diagram_eq d e = true -> d = e).
Proof.
  split; [apply Diagram_eq_iff|]. split; [apply Diagram_eq_refl|].
  split; [apply Diagram_eq_sym|]. split; [apply Diagram_eq_trans|].
  intros Wd We H. apply Diagram_eq_iff in H. destruct H as (D & C & B & O).
  pose proof (Diagram_init_of_wf_layers d Wd) as Ld.
  pose proof (Diagram_init_of_wf_layers e We) as Le.
  rewrite D, C, B, O in Ld. rewrite Ld in Le. inversion Le. reflexivity.
Qed.

Lemma Diagram_eq_equivalence_witness :
  Diagram_eq three_boxes three_boxes = true.
Proof.
  exact (proj1 (proj2 (Diagram_eq_equivalence three_boxes three_boxes three_boxes))).
Defined.

(** X17: [Box.__eq__] against a well-formed diagram agrees with
    [Diagram.__eq__] of that diagram against the box: the offset of the
    only box, which [Box.__eq__] does not look at, is then [0]. *)
Theorem Box_eq_Diagram_agrees (f : Box) (d : Diagram) :
  wf d ->
  Box_eq_Diagram f d = Diagram_eq d (Box_diagram f)
  /\ (Box_eq_Diagram f d = true <-> Diagram_eq (Box_diagram f) d = true).
Proof.
  intros W.
  assert (A : Box_eq_Diagram f d = Diagram_eq d (Box_diagram f)).
  { destruct (Diagram_eq d (Box_diagram f)) eqn:E.
    - apply Diagram_eq_iff in E. simpl in E. destruct E as (D & C & B & O).
      unfold Box_eq_Diagram, Diagram_len. rewrite B, D, C. cbn.
      rewrite !Ty_eq_refl. rewrite (proj2 (Box_eq_eq f f) eq_refl). reflexivity.
    - destruct (Box_eq_Diagram f d) eqn:H; [|reflexivity].
      rewrite <- E. symmetry. apply Diagram_eq_iff. simpl.
      unfold Box_eq_Diagram in H.
      apply andb_true_iff in H. destruct H as [H H3].
      apply andb_true_iff in H. destruct H as [H1 H2].
      apply andb_true_iff in H3. destruct H3 as [H3 H4].
      apply Z.eqb_eq in H1. apply Ty_eq_eq in H3, H4.
      unfold Diagram_len, len in H1.
      destruct (boxes d) as [|b [|b' bs]] eqn:B; simpl in H1; try lia;
        try discriminate.
      apply Box_eq_eq in H2. subst b.
      split; [exact H3|]. split; [exact H4|]. split; [reflexivity|].
      pose proof (wf_boxes d W) as Wb. pose proof (wf_chain d W) as Ch.
      rewrite B in Wb. rewrite <- (wf_offsets d W).
      destruct (a_boxes (layers d)) as [|l [|l' ls]]; try discriminate.
      simpl in Wb. inversion Wb as [Lb]. destruct Ch as [Ch _].
      unfold Layer_dom, Ty_tensor in Ch. rewrite Lb, H3 in Ch.
      apply (f_equal (@length Ob)) in Ch. rewrite !length_app in Ch.
      simpl. f_equal. unfold len. lia. }
  split; [exact A|]. rewrite A, Diagram_eq_sym. tauto.
Qed.

Lemma Box_eq_Diagram_agrees_witness :
  Box_eq_Diagram f0_xy (Box_diagram f0_xy) = true.
Proof.
  apply (proj2 (Box_eq_Diagram_agrees f0_xy (Box_diagram f0_xy)
                  (wf_Box_diagram f0_xy))).
  reflexivity.
Defined.

(* ================================================================== *)
(** * Further properties: width *)
(* ================================================================== *)

Lemma max_wires_init (ls : list Layer) (a b : Z) :
  max_wires ls (Z.max a b) = Z.max a (max_wires ls b).
Proof.
  unfold max_wires. revert b. induction ls as [|l ls IH]; intros b; simpl.
  - reflexivity.
  - rewrite <- Z.max_assoc. apply IH.
Qed.

Lemma max_wires_ge (ls : list Layer) (w : Z) : w <= max_wires ls w.
Proof.
  unfold max_wires. revert w. induction ls as [|l ls IH]; intros w; simpl.
  - lia.
  - specialize (IH (Z.max w (len (Layer_cod l)))). lia.
Qed.

Lemma max_wires_app (ls1 ls2 : list Layer) (w : Z) :
  max_wires (ls1 ++ ls2) w = max_wires ls2 (max_wires ls1 w).
Proof. unfold max_wires. apply fold_left_app. Qed.

Lemma max_wires_cod (ls : list Layer) :
  forall (s c : Ty) (w : Z),
  chain s ls c -> len s <= w -> len c <= max_wires ls w.
Proof.
  induction ls as [|l ls IH]; intros s c w Ch H.
  - simpl in *. subst. exact H.
  - destruct Ch as [_ Ch]. change (max_wires (l :: ls) w)
      with (max_wires ls (Z.max w (len (Layer_cod l)))).
    apply (IH (Layer_cod l) c); [exact Ch | lia].
Qed.

Lemma max_wires_shift (g : Layer -> Layer) (k : Z) (ls : list Layer) :
  (forall l, len (Layer_cod (g l)) = len (Layer_cod l) + k) ->
  forall w, max_wires (map g ls) (w + k) = max_wires ls w + k.
Proof.
  intros G. induction ls as [|l ls IH]; intros w.
  - reflexivity.
  - change (max_wires (map g (l :: ls)) (w + k))
      with (max_wires (map g ls) (Z.max (w + k) (len (Layer_cod (g l))))).
    change (max_wires (l :: ls) w)
      with (max_wires ls (Z.max w (len (Layer_cod l)))).
    rewrite G, Z.add_max_distr_r. apply IH.
Qed.

(** The loop of [width] on the boxes and offsets of a chain of layers. *)
Lemma width_scan (ls : list Layer) :
  forall (scan c : Ty) (w : Z),
  chain scan ls c ->
  fold_left
    (fun '(scan, w) '(box, off) =>
       let scan' := slice_to scan off ++ cod box
                    ++ slice_from scan (off + len (dom box)) in
       (scan', Z.max w (len scan')))
    (map (fun l => (l_box l, len (l_left l))) ls) (scan, w)
  = (c, max_wires ls w).
Proof.
  induction ls as [|l ls IH]; intros scan c w Ch.
  - simpl in *. subst. reflexivity.
  - destruct Ch as [Ch1 Ch2]. destruct l as [left b right].
    cbn [map fold_left l_box l_left]. rewrite <- Ch1.
    unfold Layer_dom, Ty_tensor. cbn [l_box l_left l_right].
    assert (S1 : slice_to ((left ++ dom b) ++ right) (len left) = left).
    { rewrite <- app_assoc. apply slice_to_at. reflexivity. }
    assert (S2 : slice_from ((left ++ dom b) ++ right) (len left + len (dom b))
                 = right).
    { apply slice_from_at. rewrite len_app. reflexivity. }
    cbv zeta. rewrite S1, S2, app_assoc.
    apply (IH _ c _ Ch2).
Qed.

Lemma width_layers (d : Diagram) :
  wf d -> width d = max_wires (a_boxes (layers d)) (len (d_dom d)).
Proof.
  intros W. unfold width.
  rewrite <- (wf_boxes d W), <- (wf_offsets d W), combine_layers.
  rewrite (width_scan _ _ _ _ (wf_chain d W)). reflexivity.
Qed.

(** X18: [Diagram.width] on well-formed diagrams: it is at least the number of
    wires of the domain and of the codomain; an identity has the width of
    its type; the width of [d >> e] is the greater of the two widths; and
    in [d @ e] the wires of [e.dom] run beside [d] and those of [d.cod]
    beside [e]. *)
Theorem width_laws (d e : Diagram) (x : Ty) :
  wf d -> wf e ->
  width (Id x) = len x
  /\ len (d_dom d) <= width d /\ len (d_cod d) <= width d
  /\ (forall r, then_ d e = Ok r -> width r = Z.max (width d) (width e))
  /\ (forall r, tensor d e = Ok r ->
        width r = Z.max (width d + len (d_dom e)) (len (d_cod d) + width e)).
Proof.
  intros Wd We.
  pose proof (width_layers d Wd) as Hd. pose proof (width_layers e We) as He.
  assert (Cd : len (d_cod d) <= width d).
  { rewrite Hd. apply (max_wires_cod _ (d_dom d)); [apply (wf_chain d Wd) | lia]. }
  split; [reflexivity|].
  split; [rewrite Hd; apply max_wires_ge|]. split; [exact Cd|]. split.
  - intros r T.
    assert (E : d_cod d = d_dom e).
    { destruct (list_eq_dec string_dec (d_cod d) (d_dom e)) as [E|N]; [exact E|].
      rewrite (then_mismatch d e Wd We N) in T. discriminate T. }
    pose proof (then_wf d e r Wd We T) as Wr.
    rewrite (then_ok d e Wd We E) in T. inversion T; subst r; clear T.
    rewrite (width_layers _ Wr). cbn [layers a_boxes d_dom].
    rewrite max_wires_app, <- Hd, He, <- E.
    rewrite <- (Z.max_l (width d) (len (d_cod d))) at 1 by exact Cd.
    apply max_wires_init.
  - intros r T.
    pose proof (tensor_wf d e r Wd We T) as Wr.
    rewrite (tensor_ok d e Wd We) in T. inversion T; subst r; clear T.
    rewrite (width_layers _ Wr). cbn [layers a_boxes d_dom].
    rewrite max_wires_app, len_app.
    rewrite (max_wires_shift _ (len (d_dom e)));
      [|intros l; unfold Layer_cod, Ty_tensor; cbn [l_left l_box l_right];
        rewrite !len_app; lia].
    rewrite <- Hd.
    replace (width d + len (d_dom e))
      with (Z.max (width d + len (d_dom e)) (len (d_dom e) + len (d_cod d)))
      at 1 by lia.
    rewrite max_wires_init.
    rewrite (max_wires_shift _ (len (d_cod d)));
      [|intros l; unfold Layer_cod, Ty_tensor; cbn [l_left l_box l_right];
        rewrite !len_app; lia].
    rewrite <- He. f_equal. lia.
Qed.

Lemma width_laws_witness :
  len (d_dom three_boxes) <= width three_boxes
  /\ forall r, tensor three_boxes three_boxes = Ok r ->
       width r = Z.max (width three_boxes + len (d_dom three_boxes))
                       (len (d_cod three_boxes) + width three_boxes).
Proof.
  destruct (width_laws three_boxes three_boxes [] wf_three_boxes wf_three_boxes)
    as (_ & A & _ & _ & B).
  split; [exact A | exact B].
Defined.

(* ================================================================== *)
(** * Further properties: the layers of a diagram as diagrams *)
(* ================================================================== *)

Lemma wf_layer_slice (l : Layer) : wf (layer_slice l).
Proof. constructor; simpl; auto. Qed.

Lemma layer_diagram_ok (l : Layer) : layer_diagram l = Ok (layer_slice l).
Proof.
  destruct l as [left b right]. unfold layer_diagram. cbn [l_left l_box l_right].
  pose proof (tensor_ok (Id left) (Box_diagram b) (wf_Id left)
                (wf_Box_diagram b)) as T1.
  destruct (tensor (Id left) (Box_diagram b)) as [lb|] eqn:E1; [|discriminate].
  pose proof (tensor_wf _ _ lb (wf_Id left) (wf_Box_diagram b) E1) as W1.
  cbn [bind]. rewrite (tensor_ok lb (Id right) W1 (wf_Id right)).
  inversion T1; subst lb; clear T1. simpl.
  unfold layer_slice, Layer_dom, Layer_cod, Ty_tensor. simpl.
  rewrite !app_nil_r. reflexivity.
Qed.

Lemma compose_layer_slices (ls : list Layer) :
  forall (acc : Diagram) (c : Ty),
  wf acc -> chain (d_cod acc) ls c ->
  fold_left (fun res x => a <- res ;; then_ a x) (map layer_slice ls) (Ok acc)
  = Ok (mkDiagram (d_dom acc) c (boxes acc ++ map l_box ls)
          (offsets acc ++ map (fun l => len (l_left l)) ls)
          (mkArrow (d_dom acc) c (a_boxes (layers acc) ++ ls))).
Proof.
  induction ls as [|l ls IH]; intros acc c W Ch.
  - simpl in *. subst c. rewrite !app_nil_r.
    destruct acc as [dd dc bs os [ad ac ab]]. destruct W as [Wd Wc _ _ _].
    simpl in *. subst. reflexivity.
  - destruct Ch as [Ch1 Ch2]. cbn [map fold_left bind].
    pose proof (then_ok acc (layer_slice l) W (wf_layer_slice l)
                  (eq_sym Ch1)) as T.
    pose proof (then_wf acc (layer_slice l) _ W (wf_layer_slice l) T) as W'.
    rewrite T, (IH _ c W' Ch2).
    cbn [d_dom boxes offsets layers a_boxes layer_slice map].
    rewrite <- !app_assoc. reflexivity.
Qed.

(** X19: [Diagram.__iter__] and [Diagram.__getitem__] at an integer, on a
    well-formed diagram: iterating raises nowhere and yields one
    well-formed diagram of one box for each layer; composing what it
    yields, from the identity of the domain on, gives a diagram equal to
    the one iterated over; and [diagram[i]] is the [i]-th of them, with
    [IndexError] outside [-len .. len - 1]. *)
Theorem Diagram_iter_layers (d : Diagram) :
  wf d ->
  exists items,
    Diagram_iter d = map Ok items
    /\ Forall (fun x => wf x /\ Diagram_len x = 1) items
    /\ map boxes items = map (fun b => [b]) (boxes d)
    /\ (exists r,
          fold_left (fun res x => a <- res ;; then_ a x) items
                    (Ok (Id (d_dom d))) = Ok r
          /\ Diagram_eq r d = true)
    /\ (forall i, 0 <= i < Diagram_len d ->
          exists x, Diagram_getitem d i = Ok x
                    /\ nth_error items (Z.to_nat i) = Some x)
    /\ (forall i, i < - Diagram_len d \/ Diagram_len d <= i ->
          Diagram_getitem d i = Raise IndexError).
Proof.
  intros W. exists (map layer_slice (a_boxes (layers d))).
  destruct (wf_lengths d W) as [L _].
  assert (Hl : len (a_boxes (layers d)) = Diagram_len d)
    by (unfold Diagram_len, len; rewrite L; reflexivity).
  split; [unfold Diagram_iter; rewrite map_map; apply map_ext;
          apply layer_diagram_ok|].
  split; [apply Forall_forall; intros x H; apply in_map_iff in H;
          destruct H as (l & <- & _); split;
          [apply wf_layer_slice | reflexivity]|].
  split; [rewrite <- (wf_boxes d W), !map_map; reflexivity|].
  split.
  - eexists. split.
    + apply (compose_layer_slices _ (Id (d_dom d)) (d_cod d) (wf_Id _)).
      apply (wf_chain d W).
    + apply Diagram_eq_iff. simpl.
      split; [reflexivity|]. split; [reflexivity|].
      split; [apply (wf_boxes d W) | apply (wf_offsets d W)].
  - split.
    + intros i H. unfold Diagram_getitem.
      destruct (py_index_nth (a_boxes (layers d)) i) as (l & N & P); [lia|].
      rewrite P. cbn [bind]. exists (layer_slice l).
      split; [apply layer_diagram_ok|].
      rewrite nth_error_map, N. reflexivity.
    + intros i H. unfold Diagram_getitem.
      rewrite py_index_out_of_range by lia. reflexivity.
Qed.

Lemma Diagram_iter_layers_witness :
  exists items r,
    Diagram_iter three_boxes = map Ok items
    /\ fold_left (fun res x => a <- res ;; then_ a x) items
                 (Ok (Id (d_dom three_boxes))) = Ok r
    /\ Diagram_eq r three_boxes = true.
Proof.
  destruct (Diagram_iter_layers three_boxes wf_three_boxes)
    as (items & I & _ & _ & (r & F & E) & _).
  exists items, r. split; [exact I|]. split; [exact F | exact E].
Defined.

(* ================================================================== *)
(** * Further properties: functors and flattening *)
(* ================================================================== *)

Lemma flat_map_singleton {A B} (g : A -> B) (l : list A) :
  flat_map (fun x => [g x]) l = map g l.
Proof. induction l as [|x l IH]; simpl; congruence. Qed.

(** X20: [Diagram.flatten] on a well-formed diagram whose boxes are
    generators does not raise and gives the diagram back. *)
Theorem flatten_generators (d : Diagram) :
  wf d ->
  exists r, flatten d = Ok r /\ wf r /\ Diagram_eq r d = true.
Proof.
  intros W. unfold flatten.
  destruct (F_Diagram_layers identity_functor d W (identity_functor_on d))
    as (r & F & Wr & Dm & Cd & _ & B & O).
  exists r. split; [exact F|]. split; [exact Wr|].
  apply Diagram_eq_iff. rewrite identity_functor_Ty in Dm, Cd.
  split; [exact Dm|]. split; [exact Cd|]. split.
  - rewrite B, <- (wf_boxes d W). unfold image_boxes. simpl.
    apply flat_map_singleton.
  - rewrite O, <- (wf_offsets d W). unfold image_offsets. simpl.
    rewrite (flat_map_singleton
               (fun l => len (Ty_image identity_functor (l_left l)))).
    apply map_ext. intros l. rewrite identity_functor_Ty. reflexivity.
Qed.

Lemma flatten_generators_witness :
  exists r, flatten three_boxes = Ok r /\ Diagram_eq r three_boxes = true.
Proof.
  destruct (flatten_generators three_boxes wf_three_boxes) as (r & F & _ & E).
  exists r. split; [exact F | exact E].
Defined.

(** X21: A functor sends identities to identities, an exception of the object
    mapping on the domain is the exception of the call, and on a box the
    look-up of [Functor.__call__] and the loop over the one-box diagram
    agree. *)
Theorem functor_identity_and_box (F : MonoidalFunctor) (x : Ty) (f : Box) :
  (defined_on_Ty F x -> F_Diagram F (Id x) = Ok (Id (Ty_image F x)))
  /\ (forall (d : Diagram) (e : Error),
        F_Ty F (d_dom d) = Raise e -> F_Diagram F d = Raise e)
  /\ (box_typed F f ->
      exists r fb,
        F_Diagram F (Box_diagram f) = Ok r /\ F_Box F f = Ok fb
        /\ Diagram_eq r fb = true).
Proof.
  split; [|split].
  - intros D. unfold F_Diagram. cbn [Id d_dom boxes offsets combine].
    rewrite (F_Ty_defined F x D). reflexivity.
  - intros d e H. unfold F_Diagram. rewrite H. reflexivity.
  - apply F_Diagram_Box.
Qed.

Lemma functor_identity_and_box_witness :
  F_Diagram identity_functor (Id xyz) = Ok (Id (Ty_image identity_functor xyz)).
Proof.
  apply (proj1 (functor_identity_and_box identity_functor xyz f0_xy)).
  apply identity_functor_defined.
Defined.

(* ================================================================== *)
(** * Further properties: the spiral *)
(* ================================================================== *)

Lemma power_mid (t : Ty) (a c k : nat) :
  concat (repeat t a) ++ concat (repeat t k) ++ concat (repeat t c)
  = concat (repeat t (a + k + c)).
Proof.
  unfold Ty in *. rewrite <- !concat_repeat_app. f_equal. f_equal. lia.
Qed.

Lemma power_app (t : Ty) (a c : nat) :
  concat (repeat t a) ++ concat (repeat t c) = concat (repeat t (a + c)).
Proof. unfold Ty in *. symmetry. apply concat_repeat_app. Qed.

Lemma power_1 (t : Ty) : t = concat (repeat t 1).
Proof. simpl. rewrite app_nil_r. reflexivity. Qed.

Lemma power_2 (t : Ty) : Ty_tensor t t = concat (repeat t 2).
Proof. simpl. rewrite app_nil_r. reflexivity. Qed.

(** A line of [spiral] with exponents in the machine word, on a
    well-formed [r] whose codomain is [_type ** a @ b.dom @ _type ** c]. *)
Lemma spiral_layer_ok (r : Diagram) (t : Ty) (a c : Z) (b : Box) :
  wf r ->
  - PY_SSIZE_T_MAX - 1 <= a <= PY_SSIZE_T_MAX ->
  - PY_SSIZE_T_MAX - 1 <= c <= PY_SSIZE_T_MAX ->
  d_cod r = concat (repeat t (Z.to_nat a)) ++ dom b
            ++ concat (repeat t (Z.to_nat c)) ->
  exists r',
    spiral_layer (Ok r) t a b c = Ok r' /\ wf r'
    /\ d_dom r' = d_dom r
    /\ d_cod r' = concat (repeat t (Z.to_nat a)) ++ cod b
                  ++ concat (repeat t (Z.to_nat c))
    /\ Diagram_len r' = Diagram_len r + 1.
Proof.
  intros W Ha Hc C. unfold spiral_layer. cbn [bind].
  rewrite (Ty_pow_in_word t a Ha). cbn [bind].
  destruct (tensor_fields (Id (concat (repeat t (Z.to_nat a)))) (Box_diagram b)
              (wf_Id _) (wf_Box_diagram b))
    as (lb & T1 & W1 & D1 & C1 & B1 & _).
  rewrite T1. cbn [bind]. rewrite (Ty_pow_in_word t c Hc). cbn [bind].
  destruct (tensor_fields lb (Id (concat (repeat t (Z.to_nat c)))) W1 (wf_Id _))
    as (lbr & T2 & W2 & D2 & C2 & B2 & _).
  rewrite T2. cbn [bind].
  destruct (then_fields r lbr W W2) as (r' & T3 & W3 & D3 & C3 & B3 & _).
  { rewrite D2, D1, C. simpl. rewrite <- app_assoc. reflexivity. }
  exists r'. split; [exact T3|]. split; [exact W3|]. split; [exact D3|].
  split.
  - rewrite C3, C2, C1. simpl. rewrite <- app_assoc. reflexivity.
  - unfold Diagram_len. rewrite B3, B2, B1. simpl.
    rewrite !len_app. reflexivity.
Qed.

(** The first loop of [spiral] after [k] turns. *)
Lemma spiral_caps (t : Ty) (k : nat) :
  Z.of_nat k <= PY_SSIZE_T_MAX ->
  exists r,
    fold_left (fun res i => spiral_layer res t i
                              (box "cap" [] (Ty_tensor t t)) (i + 1))
              (range (Z.of_nat k)) (Ok (Box_diagram (box "unit" [] t))) = Ok r
    /\ wf r /\ d_dom r = []
    /\ d_cod r = concat (repeat t (2 * k + 1))
    /\ Diagram_len r = Z.of_nat k + 1.
Proof.
  induction k as [|k IH]; intros K.
  - exists (Box_diagram (box "unit" [] t)).
    split; [reflexivity|]. split; [apply wf_Box_diagram|].
    split; [reflexivity|]. split; [apply power_1 | reflexivity].
  - destruct IH as (r & F & W & D & C & L); [lia|].
    rewrite range_S, fold_left_app, F. cbn [fold_left].
    assert (P : 0 < PY_SSIZE_T_MAX) by reflexivity.
    destruct (spiral_layer_ok r t (Z.of_nat k) (Z.of_nat k + 1)
                (box "cap" [] (Ty_tensor t t)) W)
      as (r' & S & W' & D' & C' & L'); try lia.
    { rewrite C. cbn [dom box app].
      rewrite power_app. f_equal. f_equal. lia. }
    exists r'. split; [exact S|]. split; [exact W'|].
    split; [congruence|]. split.
    + rewrite C'. cbn [cod box]. rewrite power_2, power_mid.
      f_equal. f_equal. lia.
    + rewrite L', L. lia.
Qed.

(** The last loop of [spiral] after [k] turns, from a diagram [r2] with
    codomain [_type ** (2 * n_cups)] on. *)
Lemma spiral_cups (t : Ty) (n : nat) (r2 : Diagram) (k : nat) :
  Z.of_nat n <= PY_SSIZE_T_MAX ->
  wf r2 -> d_cod r2 = concat (repeat t (2 * n)) -> (k <= n)%nat ->
  exists r,
    fold_left (fun res i =>
                 spiral_layer res t (Z.of_nat n - i - 1)
                   (box "cup" (Ty_tensor t t) []) (Z.of_nat n - i - 1))
              (range (Z.of_nat k)) (Ok r2) = Ok r
    /\ wf r /\ d_dom r = d_dom r2
    /\ d_cod r = concat (repeat t (2 * (n - k)))
    /\ Diagram_len r = Diagram_len r2 + Z.of_nat k.
Proof.
  intros N W2 C2. induction k as [|k IH]; intros K.
  - exists r2. split; [reflexivity|]. split; [exact W2|].
    split; [reflexivity|]. split; [rewrite C2; f_equal; f_equal; lia | lia].
  - destruct IH as (r & F & W & D & C & L); [lia|].
    rewrite range_S, fold_left_app, F. cbn [fold_left].
    assert (P : 0 < PY_SSIZE_T_MAX) by reflexivity.
    destruct (spiral_layer_ok r t (Z.of_nat n - Z.of_nat k - 1)
                (Z.of_nat n - Z.of_nat k - 1)
                (box "cup" (Ty_tensor t t) []) W)
      as (r' & S & W' & D' & C' & L'); try lia.
    { rewrite C. cbn [dom box]. rewrite power_2, power_mid.
      f_equal. f_equal. lia. }
    exists r'. split; [exact S|]. split; [exact W'|].
    split; [congruence|]. split.
    + rewrite C'. cbn [cod box app].
      rewrite power_app. f_equal. f_equal. lia.
    + rewrite L', L. lia.
Qed.

Lemma range_to_nat (n : Z) : range n = range (Z.of_nat (Z.to_nat n)).
Proof. unfold range. rewrite Nat2Z.id. reflexivity. Qed.

(** [spiral] for a number of cups in the machine word. *)
Lemma spiral_in_word (n_cups : Z) (_type : Ty) :
  - PY_SSIZE_T_MAX - 1 <= n_cups <= PY_SSIZE_T_MAX ->
  exists d,
    spiral n_cups _type = Ok d /\ wf d
    /\ d_dom d = [] /\ d_cod d = []
    /\ Diagram_len d = 2 * Z.max 0 n_cups + 2.
Proof.
  intros H. unfold spiral. cbv zeta. rewrite (range_to_nat n_cups).
  set (n := Z.to_nat n_cups).
  assert (P : 0 < PY_SSIZE_T_MAX) by reflexivity.
  assert (Hn : Z.of_nat n <= PY_SSIZE_T_MAX) by (unfold n; lia).
  destruct (spiral_caps _type n Hn) as (r1 & F1 & W1 & D1 & C1 & L1).
  rewrite F1.
  destruct (spiral_layer_ok r1 _type n_cups n_cups (box "counit" _type []) W1
              H H)
    as (r2 & S2 & W2 & D2 & C2 & L2).
  { rewrite C1. cbn [dom box]. fold n.
    rewrite (power_1 _type) at 3. rewrite power_mid.
    f_equal. f_equal. lia. }
  rewrite S2.
  assert (C2' : d_cod r2 = concat (repeat _type (2 * n))).
  { rewrite C2. cbn [cod box app]. fold n.
    rewrite power_app. f_equal. f_equal. lia. }
  destruct (Z_le_dec 0 n_cups) as [Q|N].
  - assert (E : n_cups = Z.of_nat n) by (unfold n; lia).
    destruct (spiral_cups _type n r2 n Hn W2 C2' (le_n n))
      as (r & F & W & D & C & L).
    rewrite <- E in F. rewrite (range_to_nat n_cups) in F.
    exists r. split; [exact F|]. split; [exact W|].
    split; [congruence|]. split.
    + rewrite C, Nat.sub_diag. reflexivity.
    + rewrite L, L2, L1. lia.
  - assert (E : n = 0%nat) by (unfold n; lia).
    rewrite E in *. cbn [Z.of_nat range Z.to_nat seq map fold_left].
    exists r2. split; [reflexivity|]. split; [exact W2|].
    split; [congruence|]. split; [exact C2'|].
    rewrite L2, L1. lia.
Qed.

(** [spiral] for a number of cups below the machine word: the first
    loop is empty and [_type ** n_cups] raises. *)
Lemma spiral_below_word (n_cups : Z) (_type : Ty) :
  n_cups < - PY_SSIZE_T_MAX - 1 ->
  spiral n_cups _type = Raise OverflowError.
Proof.
  intros H. unfold spiral. cbv zeta.
  assert (P : 0 < PY_SSIZE_T_MAX) by reflexivity.
  assert (R : range n_cups = []).
  { unfold range. replace (Z.to_nat n_cups) with 0%nat by lia. reflexivity. }
  rewrite R. cbn [fold_left]. unfold spiral_layer. cbn [bind].
  rewrite Ty_pow_out_of_word by (left; exact H). reflexivity.
Qed.

(** X22: all the compositions of [spiral] type-check.  Whenever the
    powers [_type ** i] that it evaluates return, for [0 <= i <= n_cups]
    and for [n_cups] itself, [spiral] returns a well-formed diagram from
    the unit to the unit, with [2 * n_cups + 2] boxes for [n_cups >= 0]
    and the two boxes of [spiral(0)] below.  For [n_cups] below the
    machine word it raises the [OverflowError] of [_type ** n_cups]. *)
Theorem spiral_typed (n_cups : Z) (_type : Ty) :
  (n_cups < - PY_SSIZE_T_MAX - 1 ->
   spiral n_cups _type = Raise OverflowError)
  /\ ((forall i, 0 <= i <= n_cups \/ i = n_cups ->
         exists p, Ty_pow _type (KInt i) = Ok p) ->
      exists d,
        spiral n_cups _type = Ok d /\ wf d
        /\ d_dom d = [] /\ d_cod d = []
        /\ Diagram_len d = 2 * Z.max 0 n_cups + 2).
Proof.
  split; [apply spiral_below_word|].
  intros H. apply spiral_in_word.
  destruct (H n_cups (or_intror eq_refl)) as [p P].
  destruct (Ty_pow_cases _type n_cups) as [[W _]|[_ O]]; [exact W|].
  rewrite O in P. discriminate P.
Qed.

Lemma spiral_typed_witness :
  exists d,
    spiral 2 ["x"] = Ok d /\ wf d /\ d_dom d = [] /\ d_cod d = []
    /\ Diagram_len d = 6.
Proof.
  destruct (proj2 (spiral_typed 2 ["x"])) as (d & S & W & D & C & L).
  - intros i Hi. eexists. apply Ty_pow_in_word.
    unfold PY_SSIZE_T_MAX. lia.
  - exists d. repeat (split; [assumption|]). exact L.
Defined.

(* ================================================================== *)
(** * Further properties: foliation never raises *)
(* ================================================================== *)

Lemma is_right_of_ok (last : Z) (d : Diagram) :
  wf d -> 0 <= last -> last + 1 < Diagram_len d ->
  exists s, is_right_of last d = Ok s.
Proof.
  intros W H0 H1. destruct (wf_lengths d W) as [_ Lo].
  unfold Diagram_len, len in H1. unfold is_right_of.
  destruct (py_index_ok (offsets d) last) as [o0 ->];
    [unfold len; lia|].
  destruct (py_index_ok (offsets d) (last + 1)) as [o1 ->];
    [unfold len; lia|].
  destruct (py_index_ok (boxes d) last) as [b0 ->]; [unfold len; lia|].
  destruct (py_index_ok (boxes d) (last + 1)) as [b1 ->]; [unfold len; lia|].
  cbn [bind].
  destruct (o1 + len (dom b1) <=? o0); [eauto|].
  destruct (o0 + len (cod b0) <=? o1); eauto.
Qed.

(** The part of [move_in_slice] after the first interchange: whatever the
    side of the box, the handler leaves no exception. *)
Lemma move_tail_total (last : Z)
    (cont : Diagram -> result (option Diagram)) (d1 : Diagram) :
  wf d1 -> 0 <= last -> last + 1 < Diagram_len d1 ->
  (forall d2, wf d2 -> Diagram_len d2 = Diagram_len d1 ->
     exists o, cont d2 = Ok o) ->
  exists o,
    except_InterchangerError
      (side <- is_right_of last d1 ;;
       match side with
       | None => Ok None
       | Some true => Ok (Some d1)
       | Some false =>
           res <- interchange d1 (last + 1) last false ;; cont res
       end) = Ok o.
Proof.
  intros W H0 H1 C.
  destruct (is_right_of_ok last d1 W H0 H1) as [[[|]|] ->]; cbn [bind].
  - eexists. reflexivity.
  - destruct (interchange_in_range false d1 (last + 1) last W)
      as [(d2 & I & W2 & _ & _ & P)|(b0 & b1 & I)]; try lia; rewrite I.
    + cbn [bind].
      destruct (C d2 W2 (Permutation_Diagram_len d1 d2 P)) as [o ->].
      eexists. reflexivity.
    + eexists. reflexivity.
  - eexists. reflexivity.
Qed.

(** One level of [move_in_slice], [cont] being what follows the second
    interchange. *)
Lemma move_head_total (last k : Z)
    (cont : Diagram -> result (option Diagram)) (d : Diagram) :
  wf d -> 0 <= last -> last < k -> k < Diagram_len d ->
  (forall d2, wf d2 -> Diagram_len d2 = Diagram_len d ->
     exists o, cont d2 = Ok o) ->
  exists o,
    except_InterchangerError
      (res <- (if negb (k =? last + 1)
               then interchange d k (last + 1) false
               else Ok d) ;;
       side <- is_right_of last res ;;
       match side with
       | None => Ok None
       | Some true => Ok (Some res)
       | Some false =>
           res <- interchange res (last + 1) last false ;; cont res
       end) = Ok o.
Proof.
  intros W H0 H1 H2 C.
  destruct (negb (k =? last + 1)).
  - destruct (interchange_in_range false d k (last + 1) W)
      as [(d1 & I & W1 & _ & _ & P)|(b0 & b1 & I)]; try lia; rewrite I.
    + cbn [bind]. pose proof (Permutation_Diagram_len d d1 P) as L1.
      apply move_tail_total; auto; try lia.
      intros d2 W2 L2. apply C; auto. congruence.
    + eexists. reflexivity.
  - cbn [bind]. apply move_tail_total; auto; lia.
Qed.

Lemma move_in_slice_total (first : Z) (n : nat) :
  forall (k : Z) (d : Diagram),
  wf d -> 0 <= first -> first + Z.of_nat n < k -> k < Diagram_len d ->
  exists o, move_in_slice first n k d = Ok o.
Proof.
  induction n as [|n IH]; intros k d W H0 H1 H2; rewrite move_in_slice_eq.
  - apply (move_head_total (first + Z.of_nat 0) k
             (fun res => Ok (Some res)) d W); try lia.
    intros d2 W2 L2. eexists. reflexivity.
  - apply (move_head_total (first + Z.of_nat (S n)) k
             (fun res => move_in_slice first n (first + Z.of_nat (S n)) res)
             d W); try lia.
    intros d2 W2 L2. apply IH; auto; lia.
Qed.

(** The [for] loop of [foliate] over the indices [k0 .. len - 1], the
    slice ending before [k0]. *)
Lemma foliate_for_total (start : Z) (m : nat) :
  forall (k0 : Z) (n : nat) (d : Diagram) (ys : list Diagram),
  wf d -> 0 <= start -> start + Z.of_nat n < k0 ->
  k0 + Z.of_nat m = Diagram_len d ->
  exists n' d' ys',
    foliate_for start (map (fun j => k0 + Z.of_nat j) (seq 0 m)) n d ys
      = Ok (n', d', ys')
    /\ wf d' /\ Diagram_len d' = Diagram_len d
    /\ start + Z.of_nat n' < Diagram_len d.
Proof.
  induction m as [|m IH]; intros k0 n d ys W H0 H1 H2.
  - exists n, d, ys. split; [reflexivity|]. split; [exact W|].
    split; [reflexivity | lia].
  - cbn [seq map]. rewrite <- seq_shift, map_map.
    rewrite (map_ext (fun j => k0 + Z.of_nat (S j))
                     (fun j => k0 + 1 + Z.of_nat j)) by (intros; lia).
    change (Z.of_nat 0) with 0. rewrite Z.add_0_r. cbn [foliate_for].
    destruct (move_in_slice_total start n k0 d W H0 H1) as [[r|] M]; [lia| |];
      rewrite M; cbn [bind].
    + destruct (move_in_slice_preserves start n k0 d r W M) as [Wr Lr].
      destruct (IH (k0 + 1) (S n) r (ys ++ [r]) Wr H0) as (n' & d' & ys' & F & Wd & Ld & B);
        try lia.
      exists n', d', ys'. split; [exact F|]. split; [exact Wd|].
      split; [congruence | lia].
    + destruct (IH (k0 + 1) n d ys W H0) as (n' & d' & ys' & F & Wd & Ld & B);
        try lia.
      exists n', d', ys'. auto.
Qed.

Lemma range2_seq (a b : Z) :
  range2 a b = map (fun j => a + Z.of_nat j) (seq 0 (Z.to_nat (b - a))).
Proof. unfold range2, range. rewrite map_map. reflexivity. Qed.

(** The [while] loop of [foliate] on a well-formed diagram ends without
    an exception; each turn closes one slice and takes at least one box. *)
Lemma foliate_while_ok (fuel : nat) :
  forall (start : Z) (d : Diagram) (slices ys : list Diagram),
  wf d -> 0 <= start -> Diagram_len d - start <= Z.of_nat fuel ->
  exists ys' sl',
    foliate_while fuel start d slices ys = Some (Ok (ys', slices ++ sl'))
    /\ len sl' <= Z.max 0 (Diagram_len d - start)
    /\ (start < Diagram_len d -> 1 <= len sl').
Proof.
  induction fuel as [|fuel IH]; intros start d slices ys W H0 H1.
  - cbn [foliate_while].
    replace (start <? Diagram_len d) with false
      by (symmetry; apply Z.ltb_ge; lia).
    exists ys, []. rewrite app_nil_r. split; [reflexivity|].
    split; [unfold len; simpl; lia | lia].
  - rewrite foliate_while_S.
    destruct (start <? Diagram_len d) eqn:T;
      [apply Z.ltb_lt in T | apply Z.ltb_ge in T].
    + rewrite range2_seq.
      destruct (foliate_for_total start
                  (Z.to_nat (Diagram_len d - (start + 1))) (start + 1) 0 d ys W)
        as (n & d' & ys' & F & Wd & Ld & B); try lia.
      rewrite F.
      destruct (Diagram_getslice_range d' (Some start)
                  (Some (start + Z.of_nat n + 1))) as [s ->].
      destruct (IH (start + Z.of_nat n + 1) d' (slices ++ [s]) ys' Wd)
        as (ys2 & sl2 & R & B1 & B2); try lia.
      exists ys2, (s :: sl2). rewrite R, <- app_assoc.
      split; [reflexivity|].
      change (len (s :: sl2)) with (Z.of_nat (S (length sl2))).
      unfold len in *. split; lia.
    + exists ys, []. rewrite app_nil_r. split; [reflexivity|].
      split; [unfold len; simpl; lia | lia].
Qed.

(** X23: [Diagram.foliate] and [Diagram.depth] on a well-formed diagram never
    raise and return: the depth is the number of slices, at most the
    number of boxes, and [0] only for a diagram without boxes. *)
Theorem depth_total (d : Diagram) :
  wf d ->
  exists ys slices,
    foliate d 0 = Some (Ok (ys, slices))
    /\ depth d = Some (Ok (len slices))
    /\ 0 <= len slices <= Diagram_len d
    /\ (len slices = 0 <-> boxes d = []).
Proof.
  intros W. unfold depth, foliate.
  destruct (foliate_while_ok (length (boxes d)) 0 d [] [] W)
    as (ys & sl & F & B1 & B2); [lia | unfold Diagram_len, len; lia|].
  cbn [app] in F. exists ys, sl. rewrite F.
  split; [reflexivity|]. split; [reflexivity|].
  pose proof (len_nonneg sl) as P. pose proof (len_nonneg (boxes d)) as Q.
  unfold Diagram_len in *.
  split; [lia|]. rewrite <- (len_zero_nil (boxes d)). lia.
Qed.

Lemma depth_total_witness :
  exists ys slices,
    foliate three_boxes 0 = Some (Ok (ys, slices))
    /\ depth three_boxes = Some (Ok (len slices))
    /\ 0 <= len slices <= Diagram_len three_boxes.
Proof.
  destruct (depth_total three_boxes wf_three_boxes) as (ys & sl & F & D & B & _).
  exists ys, sl. split; [exact F|]. split; [exact D | exact B].
Defined.

(* ================================================================== *)
(** * Further properties: the interchange law on two boxes *)
(* ================================================================== *)

(** X24: The interchanger on [b0 @ b1] for any two boxes never raises.  It
    returns [Id(b0.dom) @ b1 >> b0 @ Id(b1.cod)], the second box first,
    except in one case: without the flag [left], when [b0] has no output
    wire and [b1] no input wire, it returns [b1 @ b0]. *)
Theorem interchange_tensor_boxes (b0 b1 : Box) (left : bool) :
  exists t r,
    tensor (Box_diagram b0) (Box_diagram b1) = Ok t
    /\ interchange t 0 1 left = Ok r /\ wf r
    /\ (left = true \/ cod b0 <> [] \/ dom b1 <> [] ->
        exists l1 l0 u,
          tensor (Id (dom b0)) (Box_diagram b1) = Ok l1
          /\ tensor (Box_diagram b0) (Id (cod b1)) = Ok l0
          /\ then_ l1 l0 = Ok u /\ Diagram_eq r u = true)
    /\ (left = false -> cod b0 = [] -> dom b1 = [] ->
        exists u, tensor (Box_diagram b1) (Box_diagram b0) = Ok u
                  /\ Diagram_eq r u = true).
Proof.
  destruct (tensor_fields (Box_diagram b0) (Box_diagram b1)
              (wf_Box_diagram b0) (wf_Box_diagram b1))
    as (t & T & Wt & Dt & Ct & Bt & Ot).
  pose proof T as T'. rewrite tensor_ok in T' by apply wf_Box_diagram.
  assert (Lt : a_boxes (layers t)
               = [] ++ mkLayer [] b0 (dom b1) :: mkLayer (cod b0) b1 [] :: []).
  { apply (f_equal (fun x => match x with
                             | Ok y => a_boxes (layers y)
                             | Raise _ => []
                             end)) in T'.
    simpl in T'. unfold Ty_tensor in T'. rewrite app_nil_r in T'.
    symmetry. exact T'. }
  clear T'. cbn [Box_diagram d_dom d_cod boxes offsets map app] in Dt, Ct, Bt, Ot.
  pose proof (interchange_unit left t [] [] _ _ Wt Lt) as I.
  change (len (@nil Layer)) with 0 in I. change (0 + 1) with 1 in I.
  cbn [l_left] in I. change (len (@nil Ob)) with 0 in I.
  pose proof (len_nonneg (cod b0)) as P0. pose proof (len_nonneg (dom b1)) as P1.
  destruct (tensor_fields (Id (dom b0)) (Box_diagram b1)
              (wf_Id _) (wf_Box_diagram b1))
    as (l1 & T1 & W1 & D1 & C1 & B1 & O1).
  destruct (tensor_fields (Box_diagram b0) (Id (cod b1))
              (wf_Box_diagram b0) (wf_Id _))
    as (l0 & T0 & W0 & D0 & C0 & B0 & O0).
  destruct (then_fields l1 l0 W1 W0) as (u & Tu & Wu & Du & Cu & Bu & Ou);
    [rewrite C1, D0; reflexivity|].
  destruct (tensor_fields (Box_diagram b1) (Box_diagram b0)
              (wf_Box_diagram b1) (wf_Box_diagram b0))
    as (v & Tv & Wv & Dv & Cv & Bv & Ov).
  cbn [Box_diagram Id d_dom d_cod boxes offsets map app] in *.
  assert (M : (left = true \/ cod b0 <> [] \/ dom b1 <> [] ->
               interchange_move left 0 (len (cod b0))
                 (mkLayer [] b0 (dom b1)) (mkLayer (cod b0) b1 [])
               = Ok (box0_left_of_box1 0 (len (cod b0))
                       (mkLayer [] b0 (dom b1))
                       (mkLayer (cod b0) b1 [])))
              /\ (left = false -> cod b0 = [] -> dom b1 = [] ->
                  interchange_move left 0 (len (cod b0))
                    (mkLayer [] b0 (dom b1)) (mkLayer (cod b0) b1 [])
                  = Ok (box0_right_of_box1 0 (len (cod b0))
                          (mkLayer [] b0 (dom b1))
                          (mkLayer (cod b0) b1 [])))).
  { unfold interchange_move. cbn [l_box]. split.
    - intros [->|[N|N]].
      + cbn [andb]. bool_by_lia. reflexivity.
      + assert (len (cod b0) <> 0) by (rewrite len_zero_nil; exact N).
        destruct left; cbn [andb]; bool_by_lia; reflexivity.
      + assert (len (dom b1) <> 0) by (rewrite len_zero_nil; exact N).
        destruct left; cbn [andb]; bool_by_lia; reflexivity.
    - intros -> E0 E1. rewrite E0, E1. reflexivity. }
  destruct M as [M1 M2].
  assert (R : exists r, interchange t 0 1 left = Ok r /\ wf r
                /\ d_dom r = d_dom t /\ d_cod r = d_cod t
                /\ boxes r = [b1; b0]
                /\ (left = true \/ cod b0 <> [] \/ dom b1 <> [] ->
                    offsets r = [len (dom b0); 0])
                /\ (left = false -> cod b0 = [] -> dom b1 = [] ->
                    offsets r = [0; len (cod b1)])).
  { destruct (interchange_move left 0 (len (cod b0))
                (mkLayer [] b0 (dom b1)) (mkLayer (cod b0) b1 []))
      as [moved|e] eqn:Mv.
    - cbn [bind] in I. eexists. split; [exact I|].
      split; [eapply (spliced_wf left); eauto; exact Mv|].
      destruct (spliced_boxes t [] [] (mkLayer [] b0 (dom b1))
                  (mkLayer (cod b0) b1 []) moved) as (B & Dm & Cd).
      split; [exact Dm|]. split; [exact Cd|]. split; [exact B|]. split.
      + intros H. specialize (M1 H). inversion M1; subst moved.
        unfold spliced, box0_left_of_box1. cbn. f_equal. lia.
      + intros H E0 E1. specialize (M2 H E0 E1). inversion M2; subst moved.
        unfold spliced, box0_right_of_box1. cbn. rewrite E0, E1. reflexivity.
    - exfalso. destruct left.
      + discriminate (M1 (or_introl eq_refl)).
      + destruct (cod b0) as [|o c] eqn:E0; [destruct (dom b1) as [|o c] eqn:E1|].
        * discriminate (M2 eq_refl eq_refl eq_refl).
        * assert (X : o :: c <> []) by discriminate.
          discriminate (M1 (or_intror (or_intror X))).
        * assert (X : o :: c <> []) by discriminate.
          discriminate (M1 (or_intror (or_introl X))). }
  destruct R as (r & Ir & Wr & Dr & Cr & Br & Or1 & Or2).
  exists t, r. split; [exact T|]. split; [exact Ir|]. split; [exact Wr|].
  split.
  - intros H. exists l1, l0, u. split; [exact T1|]. split; [exact T0|].
    split; [exact Tu|]. apply Diagram_eq_iff.
    split; [rewrite Dr, Dt, Du, D1; reflexivity|].
    split; [rewrite Cr, Ct, Cu, C0; reflexivity|].
    split; [rewrite Br, Bu, B1, B0; reflexivity|].
    rewrite (Or1 H), Ou, O1, O0. reflexivity.
  - intros H E0 E1. exists v. split; [exact Tv|]. apply Diagram_eq_iff.
    split; [rewrite Dr, Dt, Dv, E1, app_nil_r; reflexivity|].
    split; [rewrite Cr, Ct, Cv, E0, app_nil_r; reflexivity|].
    split; [rewrite Br, Bv; reflexivity|].
    rewrite (Or2 H E0 E1), Ov. reflexivity.
Qed.

Lemma interchange_tensor_boxes_witness :
  exists t r l1 l0 u,
    tensor (Box_diagram f0_xy) (Box_diagram f1_zw) = Ok t
    /\ interchange t 0 1 false = Ok r
    /\ tensor (Id (dom f0_xy)) (Box_diagram f1_zw) = Ok l1
    /\ tensor (Box_diagram f0_xy) (Id (cod f1_zw)) = Ok l0
    /\ then_ l1 l0 = Ok u /\ Diagram_eq r u = true.
Proof.
  destruct (interchange_tensor_boxes f0_xy f1_zw false)
    as (t & r & T & I & _ & A & _).
  destruct A as (l1 & l0 & u & T1 & T0 & Tu & E).
  - right. left. discriminate.
  - exists t, r, l1, l0, u. repeat (split; [assumption|]). exact E.
Defined.

(* ================================================================== *)
(** * Further properties: exceptions of the constructor, width of a dagger *)
(* ================================================================== *)

Lemma scan_layers_raises (dom0 : Ty) (bo : list (Box * Z)) :
  forall (acc : Arrow) (e : Error),
  scan_layers dom0 acc bo = Raise e -> e = AxiomError.
Proof.
  induction bo as [|[b off] bo IH]; intros acc e H.
  - discriminate H.
  - cbn [scan_layers] in H.
    destruct (then_layer acc _) as [acc'|e'] eqn:T; cbn [bind] in H.
    + apply (IH acc' e H).
    + unfold then_layer, cat_then in T.
      destruct (Ty_eq _ _); [discriminate T|]. congruence.
Qed.

(** X25: The exceptions of [Diagram.__init__] on typed arguments, without
    given layers: [ValueError], raised exactly when boxes and offsets
    differ in length, and otherwise [AxiomError], the composition mismatch
    of a layer that does not start on the wires before it or of a last
    layer that does not end on the codomain. *)
Theorem Diagram_init_errors (dom0 cod0 : Ty) (bs : list Box) (offs : list Z)
    (e : Error) :
  Diagram_init dom0 cod0 bs offs None = Raise e ->
  (e = ValueError /\ length bs <> length offs)
  \/ (e = AxiomError /\ length bs = length offs).
Proof.
  unfold Diagram_init. intros H.
  destruct (length bs =? length offs)%nat eqn:L; cbn [negb] in H.
  - right. apply Nat.eqb_eq in L. split; [|exact L].
    destruct (scan_layers dom0 (cat_Id dom0) (combine bs offs)) as [ls|e'] eqn:S;
      cbn [bind] in H.
    + unfold cat_then in H. destruct (Ty_eq _ _); cbn [bind] in H;
        [discriminate H | congruence].
    + apply scan_layers_raises in S. congruence.
  - left. apply Nat.eqb_neq in L. split; [congruence | exact L].
Qed.

Lemma Diagram_init_errors_witness :
  Diagram_init xyz [] [] [] None = Raise AxiomError
  /\ Diagram_init xyz xyz [f0_xy] [] None = Raise ValueError.
Proof.
  split.
  - destruct (Diagram_init_errors xyz [] [] [] AxiomError eq_refl)
      as [[E _]|[_ _]]; [discriminate E | reflexivity].
  - destruct (Diagram_init_errors xyz xyz [f0_xy] [] ValueError eq_refl)
      as [[_ _]|[E _]]; [reflexivity | discriminate E].
Defined.

Lemma max_wires_dagger (ls : list Layer) :
  forall (s c : Ty),
  chain s ls c ->
  max_wires (map Layer_dagger (rev ls)) (len c) = max_wires ls (len s).
Proof.
  induction ls as [|l ls IH]; intros s c Ch.
  - simpl in *. subst. reflexivity.
  - destruct Ch as [Ch1 Ch2]. cbn [rev]. rewrite map_app, max_wires_app.
    rewrite (IH _ _ Ch2). cbn [map].
    change (max_wires (l :: ls) (len s))
      with (max_wires ls (Z.max (len s) (len (Layer_cod l)))).
    rewrite max_wires_init.
    change (max_wires [Layer_dagger l] ?w)
      with (Z.max w (len (Layer_cod (Layer_dagger l)))).
    replace (Layer_cod (Layer_dagger l)) with (Layer_dom l) by reflexivity.
    rewrite Ch1. apply Z.max_comm.
Qed.

(** X26: The dagger keeps the width: for a well-formed diagram,
    [d[::-1].width() == d.width()]. *)
Theorem width_dagger (d r : Diagram) :
  wf d -> dagger d = Ok r -> width r = width d.
Proof.
  intros W D. pose proof (dagger_wf d r W D) as Wr.
  rewrite (width_layers r Wr), (width_layers d W).
  rewrite dagger_layers in D. inversion D; subst r; clear D.
  cbn [layers a_boxes d_dom]. rewrite (wf_cod d W).
  apply max_wires_dagger, (wf_chain d W).
Qed.

Lemma width_dagger_witness :
  exists r, dagger three_boxes = Ok r /\ width r = width three_boxes.
Proof.
  eexists. split; [reflexivity|].
  apply (width_dagger three_boxes _ wf_three_boxes). reflexivity.
Defined.
